(** * redco example drivers: a shallow embedding and its properties

    The repository consists of driver scripts over external libraries
    (redco's Deployer / Trainer / Predictor, jax, optax, numpy, gymnasium,
    pettingzoo, transformers).  The scripts are embedded as programs of a
    small effect monad: every call into an external library is answered by
    an oracle working on an abstract world [W], may fail with a Python
    exception, and is logged in the trace of the run.  Code written in the
    repository itself (loops, accumulators, dictionary comprehensions, the
    tree_map lambdas) is embedded as plain Rocq code. *)

From stdpp Require Import gmap strings list fin_maps.
From Stdlib Require Import ZArith.

Local Open Scope Z_scope.
Local Open Scope nat_scope.
Local Open Scope stdpp_scope.

(* ===================================================================== *)
(** * Python exceptions and results *)

(** A raised exception: its class name and its argument. *)
Record exn : Type := Raise { exn_class : string; exn_arg : string }.

#[global] Instance exn_eq_dec : EqDecision exn.
Proof. solve_decision. Defined.

Definition KeyError (k : string) : exn := Raise "KeyError" k.
Definition IndexError : exn := Raise "IndexError" "list index out of range".
Definition TreeStructureError : exn :=
  Raise "ValueError" "tree structure mismatch".
Definition InhomogeneousShape : exn :=
  Raise "ValueError" "inhomogeneous shape".

(** [res A]: a Python expression either raises or yields a value. *)
Definition res (A : Type) : Type := exn + A.

Definition res_bind {A B} (m : res A) (k : A -> res B) : res B :=
  match m with inl e => inl e | inr a => k a end.

Definition res_map {A B} (f : A -> B) (m : res A) : res B :=
  match m with inl e => inl e | inr a => inr (f a) end.

Definition is_ok {A} (m : res A) : bool :=
  match m with inl _ => false | inr _ => true end.

(** [d[k]] on a dictionary with string keys. *)
Definition getitem {V} (d : gmap string V) (k : string) : res V :=
  match d !! k with Some v => inr v | None => inl (KeyError k) end.

(** [l[i]] on a list, for a non-negative index. *)
Definition list_getitem {A} (l : list A) (i : nat) : res A :=
  match l !! i with Some v => inr v | None => inl IndexError end.

(** Collecting the results of a list comprehension whose body may raise:
    the first exception wins. *)
Fixpoint res_mapM {A B} (f : A -> res B) (xs : list A) : res (list B) :=
  match xs with
  | [] => inr []
  | x :: xs' =>
      res_bind (f x) (fun y => res_map (cons y) (res_mapM f xs'))
  end.

(** Left-to-right accumulation with an operation that may raise. *)
Fixpoint res_foldl {A B} (f : A -> B -> res A) (a : A) (xs : list B)
  : res A :=
  match xs with
  | [] => inr a
  | x :: xs' => res_bind (f a x) (fun a' => res_foldl f a' xs')
  end.

Lemma res_mapM_ok {A B} (f : A -> res B) (P : A -> B -> Prop) xs :
  Forall (fun x => exists y, f x = inr y /\ P x y) xs ->
  exists ys, res_mapM f xs = inr ys /\ Forall2 P xs ys.
Proof.
  induction 1 as [|x xs (y & Hy & HP) _ (ys & Hys & HF)]; simpl.
  - exists []. by split; [|constructor].
  - exists (y :: ys). rewrite Hy, Hys. by split; [|constructor].
Qed.

(* ===================================================================== *)
(** * Programs: world passing, exceptions, and a trace of library calls *)

Module Prog.
Section Prog.
Context {W Ev : Type}.

Record outcome (A : Type) : Type :=
  Outcome { world : W; trace : list Ev; result : res A }.
Arguments Outcome {A} _ _ _.
Arguments world {A} _.
Arguments trace {A} _.
Arguments result {A} _.

Definition prog (A : Type) : Type := W -> outcome A.

Definition ret {A} (a : A) : prog A :=
  fun w => Outcome w [] (inr a).

Definition raise {A} (e : exn) : prog A :=
  fun w => Outcome w [] (inl e).

Definition bind {A B} (m : prog A) (k : A -> prog B) : prog B :=
  fun w =>
    let o := m w in
    match result o with
    | inl e => Outcome (world o) (trace o) (inl e)
    | inr a =>
        let o' := k a (world o) in
        Outcome (world o') (trace o ++ trace o') (result o')
    end.

(** A pure repository expression that may raise. *)
Definition lift {A} (r : res A) : prog A :=
  fun w => Outcome w [] r.

(** A call into an external library: the oracle [f] answers it on the
    current world, and the call is logged with its answer. *)
Definition ext {A} (f : W -> W * res A) (log : res A -> Ev) : prog A :=
  fun w => let '(w', r) := f w in Outcome w' [log r] r.

(** [for x in xs: acc = body acc x]. *)
Fixpoint for_fold {A S} (xs : list A) (body : S -> A -> prog S) (s : S)
  : prog S :=
  match xs with
  | [] => ret s
  | x :: xs' => bind (body s x) (for_fold xs' body)
  end.

(** Run equations. *)
Lemma bind_ok {A B} (m : prog A) (k : A -> prog B) w a :
  result (m w) = inr a ->
  bind m k w =
    Outcome (world (k a (world (m w))))
            (trace (m w) ++ trace (k a (world (m w))))
            (result (k a (world (m w)))).
Proof. intros H. unfold bind. by rewrite H. Qed.

Lemma bind_err {A B} (m : prog A) (k : A -> prog B) w e :
  result (m w) = inl e ->
  bind m k w = Outcome (world (m w)) (trace (m w)) (inl e).
Proof. intros H. unfold bind. by rewrite H. Qed.

Lemma ext_ok {A} (f : W -> W * res A) (log : res A -> Ev) w a :
  result (ext f log w) = inr a -> trace (ext f log w) = [log (inr a)].
Proof. unfold ext. destruct (f w) as [w' r]. simpl. by intros ->. Qed.

Lemma ext_result {A} (f : W -> W * res A) (log : res A -> Ev) w :
  result (ext f log w) = (f w).2 /\ world (ext f log w) = (f w).1 /\
  trace (ext f log w) = [log (f w).2].
Proof. unfold ext. by destruct (f w). Qed.

Lemma ret_ok {A} (a b : A) w :
  result (ret a w) = inr b -> a = b /\ trace (ret a w) = [].
Proof. by intros [= ->]. Qed.

Lemma outcome_eta {A} (o : outcome A) :
  Outcome (world o) (trace o) (result o) = o.
Proof. by destruct o. Qed.

Lemma bind_ret_l {A B} (a : A) (k : A -> prog B) w : bind (ret a) k w = k a w.
Proof. unfold bind, ret. simpl. apply outcome_eta. Qed.

Lemma bind_ext {A B} (m : prog A) (k k' : A -> prog B) w :
  (forall a w', k a w' = k' a w') -> bind m k w = bind m k' w.
Proof. intros H. unfold bind. destruct (result (m w)); [done|]. by rewrite H. Qed.

Lemma bind_assoc {A B C} (m : prog A) (k : A -> prog B) (h : B -> prog C) w :
  bind (bind m k) h w = bind m (fun a => bind (k a) h) w.
Proof.
  unfold bind. destruct (result (m w)) as [e|a]; simpl; [done|].
  destruct (result (k a (world (m w)))) as [e|b]; simpl; [done|].
  by rewrite app_assoc.
Qed.

Lemma for_fold_app {A S} (xs ys : list A) (body : S -> A -> prog S) :
  forall s w,
    for_fold (xs ++ ys) body s w
    = bind (for_fold xs body s) (for_fold ys body) w.
Proof.
  induction xs as [|x xs IH]; intros s w; simpl.
  - by rewrite bind_ret_l.
  - rewrite bind_assoc. apply bind_ext. intros a w'. apply IH.
Qed.

Lemma bind_result_ok {A B} (m : prog A) (k : A -> prog B) w b :
  result (bind m k w) = inr b ->
  exists a, result (m w) = inr a /\
            result (k a (world (m w))) = inr b.
Proof.
  unfold bind. destruct (result (m w)) as [e|a] eqn:E; simpl; [done|].
  intros H. by exists a.
Qed.
End Prog.

Arguments outcome : clear implicits.
Arguments prog : clear implicits.
Arguments Outcome {W Ev A} _ _ _.
Arguments world {W Ev A} _.
Arguments trace {W Ev A} _.
Arguments result {W Ev A} _.
End Prog.

Import Prog.

Declare Scope prog_scope.
Delimit Scope prog_scope with prog.
Notation "x <- m ;; k" := (bind m (fun x => k))
  (at level 100, m at next level, right associativity) : prog_scope.
Notation "m ;;; k" := (bind m (fun _ => k))
  (at level 100, right associativity) : prog_scope.

(* ===================================================================== *)
(** * Failures of library calls are never intercepted

    The scripts have no [try]: they are built from [ret], [raise],
    [lift], [ext], [bind] and [with_block] only.  For such a program a
    failing library call is the only failing call of a run, and its
    exception is the outcome of the run. *)

Section Propagation.
Context {W Ev : Type}.
Variable ev_exn : Ev -> option exn.

(** A trace in which every call returned. *)
Definition clean (tr : list Ev) : Prop :=
  Forall (fun ev => ev_exn ev = None) tr.

Definition propagates {A} (o : outcome W Ev A) : Prop :=
  match result o with
  | inr _ => clean (trace o)
  | inl e =>
      (* raised by the interpreter on the script's own expression *)
      clean (trace o) \/
      (* raised by a library call; the calls after it, if any, leave the
         [with] blocks the exception unwinds *)
      exists tr1 ev tr2,
        trace o = tr1 ++ ev :: tr2 /\ clean tr1 /\ clean tr2 /\
        ev_exn ev = Some e
  end.

(** A program all of whose runs propagate failures. *)
Definition faithful {A} (p : prog W Ev A) : Prop :=
  forall w, propagates (p w).

(** The logging function of a call records the call's exception. *)
Definition records {A} (log : res A -> Ev) : Prop :=
  forall r, ev_exn (log r) = match r with inl e => Some e | inr _ => None end.

Lemma faithful_ret {A} (a : A) : faithful (ret a).
Proof. intros w. unfold propagates. simpl. constructor. Qed.

Lemma faithful_raise {A} e : faithful (@raise W Ev A e).
Proof. intros w. unfold propagates. simpl. left. constructor. Qed.

Lemma faithful_lift {A} (r : res A) : faithful (lift r).
Proof.
  intros w. unfold propagates. simpl. destruct r; [left|]; constructor.
Qed.

Lemma faithful_ext {A} (f : W -> W * res A) (log : res A -> Ev) :
  records log -> faithful (ext f log).
Proof.
  intros Hlog w. unfold propagates, ext. destruct (f w) as [w' [e|a]]; simpl.
  - right. exists [], (log (inl e)), []. repeat split; try constructor.
    by rewrite Hlog.
  - constructor; [|constructor]. by rewrite Hlog.
Qed.

Lemma faithful_bind {A B} (m : prog W Ev A) (k : A -> prog W Ev B) :
  faithful m -> (forall a, faithful (k a)) -> faithful (bind m k).
Proof.
  intros Hm Hk w. specialize (Hm w). unfold propagates in *. unfold bind.
  destruct (result (m w)) as [e|a] eqn:E; simpl; [done|].
  specialize (Hk a (world (m w))). unfold propagates in Hk.
  destruct (result (k a (world (m w)))) as [e|b].
  - destruct Hk as [Hc|(tr1 & ev & tr2 & Htr & Hc1 & Hc2 & Hev)].
    + left. by apply Forall_app.
    + right. exists (trace (m w) ++ tr1), ev, tr2.
      rewrite Htr, app_assoc. repeat split; [|done..]. by apply Forall_app.
  - by apply Forall_app.
Qed.

(** [with enter as _: body]: the block is left through [leave], which
    does not raise and does not swallow the exception of the body. *)
Definition with_block {A} (enter : prog W Ev unit) (leave : W -> W)
    (log_leave : Ev) (body : prog W Ev A) : prog W Ev A :=
  bind enter (fun _ => fun w =>
    let o := body w in
    Outcome (leave (world o)) (trace o ++ [log_leave]) (result o)).

Lemma faithful_with_block {A} enter leave log_leave (body : prog W Ev A) :
  ev_exn log_leave = None ->
  faithful enter -> faithful body ->
  faithful (with_block enter leave log_leave body).
Proof.
  intros Hlog He Hb. apply faithful_bind; [done|]. intros _ w.
  specialize (Hb w). unfold propagates in *. simpl.
  assert (Hcl : clean [log_leave]) by (by constructor).
  destruct (result (body w)) as [e|a].
  - destruct Hb as [Hc|(tr1 & ev & tr2 & Htr & Hc1 & Hc2 & Hev)].
    + left. by apply Forall_app.
    + right. exists tr1, ev, (tr2 ++ [log_leave]).
      rewrite Htr, <- app_assoc. repeat split; [done| |done].
      by apply Forall_app.
  - by apply Forall_app.
Qed.

Lemma faithful_for_fold {A S} (xs : list A) (body : S -> A -> prog W Ev S) :
  (forall s x, faithful (body s x)) -> forall s, faithful (for_fold xs body s).
Proof.
  intros Hbody. induction xs as [|x xs IH]; intros s; simpl.
  - apply faithful_ret.
  - apply faithful_bind; [apply Hbody|apply IH].
Qed.

End Propagation.

(* ===================================================================== *)
(** * Invariants of traces *)

Section Emits.
Context {W Ev : Type}.
Variable Q : Ev -> Prop.

(** Every call made by the program, in any run, satisfies [Q]. *)
Definition emits {A} (p : prog W Ev A) : Prop :=
  forall w, Forall Q (trace (p w)).

Lemma emits_ret {A} (a : A) : emits (ret a).
Proof. intros w. constructor. Qed.

Lemma emits_raise {A} e : emits (@raise W Ev A e).
Proof. intros w. constructor. Qed.

Lemma emits_lift {A} (r : res A) : emits (lift r).
Proof. intros w. constructor. Qed.

Lemma emits_ext {A} (f : W -> W * res A) (log : res A -> Ev) :
  (forall r, Q (log r)) -> emits (ext f log).
Proof.
  intros Hlog w. unfold ext. destruct (f w) as [w' r]. simpl.
  constructor; [apply Hlog|constructor].
Qed.

Lemma emits_bind {A B} (m : prog W Ev A) (k : A -> prog W Ev B) :
  emits m -> (forall a, emits (k a)) -> emits (bind m k).
Proof.
  intros Hm Hk w. unfold bind. destruct (result (m w)) as [e|a]; simpl.
  - apply Hm.
  - apply Forall_app. split; [apply Hm|apply Hk].
Qed.

Lemma emits_for_fold {A S} (xs : list A) (body : S -> A -> prog W Ev S) :
  (forall s x, emits (body s x)) -> forall s, emits (for_fold xs body s).
Proof.
  intros Hbody. induction xs as [|x xs IH]; intros s; simpl.
  - apply emits_ret.
  - apply emits_bind; [apply Hbody|apply IH].
Qed.

Lemma emits_with_block {A} enter leave log_leave (body : prog W Ev A) :
  Q log_leave -> emits enter -> emits body ->
  emits (with_block enter leave log_leave body).
Proof.
  intros Hlog He Hb. apply emits_bind; [done|]. intros _ w. simpl.
  apply Forall_app. split; [apply Hb|]. by constructor.
Qed.
End Emits.

(** Proof search for [emits]. *)
Ltac emits_step :=
  first
    [ apply emits_ret
    | apply emits_raise
    | apply emits_lift
    | apply emits_ext; intros []; simpl; done
    | apply emits_for_fold; intros
    | apply emits_with_block; [simpl; done| |]
    | apply emits_bind; [|intros] ].

Ltac emits_auto :=
  repeat (emits_step ||
          match goal with
          | |- emits _ (match ?x with _ => _ end) => destruct x
          end).

(** Proof search for [faithful]: follow the structure of the program. *)
Ltac faithful_step :=
  first
    [ apply faithful_ret
    | apply faithful_raise
    | apply faithful_lift
    | apply faithful_ext; intros []; reflexivity
    | apply faithful_for_fold; intros
    | apply faithful_with_block; [reflexivity| |]
    | apply faithful_bind; [|intros] ].

Ltac faithful_auto :=
  repeat (faithful_step ||
          match goal with
          | |- faithful _ (match ?x with _ => _ end) => destruct x
          | |- faithful _ (let '(_, _) := ?x in _) => destruct x
          end).

Lemma with_block_ok {W Ev A} (enter : prog W Ev unit) leave log_leave
    (body : prog W Ev A) w a :
  result (with_block enter leave log_leave body w) = inr a ->
  result (enter w) = inr () /\
  result (body (world (enter w))) = inr a /\
  trace (with_block enter leave log_leave body w) =
    trace (enter w) ++ trace (body (world (enter w))) ++ [log_leave].
Proof.
  unfold with_block. intros H.
  destruct (bind_result_ok _ _ _ _ H) as ([] & He & Hb).
  rewrite (bind_ok _ _ _ _ He). simpl in *. done.
Qed.

(** Stepping through a run that returned: split [H], which says that a
    [bind] returned, into the run of its first part and the run of the
    rest, and rewrite the goal accordingly. *)
Tactic Notation "bind_inv" hyp(H) "as" simple_intropattern(a)
    ident(Ha) ident(Hk) :=
  destruct (bind_result_ok _ _ _ _ H) as (a & Ha & Hk);
  rewrite (bind_ok _ _ _ _ Ha); cbn [trace world result];
  cbn beta in Hk.

(* ===================================================================== *)
(** * More on loops and traces *)

Section Loops.
Context {W Ev : Type}.

(** A property of the loop state that every iteration that returns keeps
    holds when the loop returns. *)
Lemma for_fold_ok_inv {A S} (I : S -> Prop) (xs : list A)
    (body : S -> A -> prog W Ev S) :
  (forall s x w s', I s -> result (body s x w) = inr s' -> I s') ->
  forall s w s', I s -> result (for_fold xs body s w) = inr s' -> I s'.
Proof.
  intros Hbody. induction xs as [|x xs IH]; intros s w s' Hs; simpl.
  - by intros [= <-].
  - intros H. destruct (bind_result_ok _ _ _ _ H) as (s1 & H1 & H2).
    eapply IH; [|exact H2]. by eapply Hbody.
Qed.

(** [emits] through a [bind] whose continuation is only reached with the
    values the first part can return. *)
Lemma emits_bind_ok (Q : Ev -> Prop) {A B} (m : prog W Ev A)
    (k : A -> prog W Ev B) :
  emits Q m ->
  (forall a, (exists w, result (m w) = inr a) -> emits Q (k a)) ->
  emits Q (bind m k).
Proof.
  intros Hm Hk w. unfold bind. destruct (result (m w)) as [e|a] eqn:E; simpl.
  - apply Hm.
  - apply Forall_app. split; [apply Hm|]. apply Hk. by exists w.
Qed.

(** [emits] through a loop whose state keeps an invariant. *)
Lemma emits_for_fold_inv (Q : Ev -> Prop) {A S} (I : S -> Prop)
    (xs : list A) (body : S -> A -> prog W Ev S) :
  (forall s x, I s -> x ∈ xs -> emits Q (body s x)) ->
  (forall s x w s', I s -> result (body s x w) = inr s' -> I s') ->
  forall s, I s -> emits Q (for_fold xs body s).
Proof.
  induction xs as [|x xs IH]; intros HQ HI s Hs; simpl.
  - apply emits_ret.
  - apply emits_bind_ok.
    + apply HQ; [done|]. by left.
    + intros s1 [w Hw]. apply IH; [|done|by eapply HI].
      intros s2 y Hs2 Hy. apply HQ; [done|]. by right.
Qed.

(** A library call followed by the rest of the program. *)
Lemma bind_ext_run {A B} (f : W -> W * res A) (log : res A -> Ev)
    (k : A -> prog W Ev B) w :
  bind (ext f log) k w
  = match (f w).2 with
    | inl e => Outcome (f w).1 [log (inl e)] (inl e)
    | inr a =>
        Outcome (world (k a (f w).1)) (log (inr a) :: trace (k a (f w).1))
          (result (k a (f w).1))
    end.
Proof. unfold bind, ext. by destruct (f w) as [w' [e|a]]. Qed.

Lemma bind_lift_err {A B} (e : exn) (k : A -> prog W Ev B) w :
  bind (lift (inl e)) k w = Outcome w [] (inl e).
Proof. reflexivity. Qed.

Lemma bind_raise {A B} (e : exn) (k : A -> prog W Ev B) w :
  bind (raise e) k w = Outcome w [] (inl e).
Proof. reflexivity. Qed.

(** A loop that stops at the first iteration that raises. *)
Lemma for_fold_stops {A S} (pre post : list A) (x : A)
    (body : S -> A -> prog W Ev S) s w s1 e :
  result (for_fold pre body s w) = inr s1 ->
  result (body s1 x (world (for_fold pre body s w))) = inl e ->
  result (for_fold (pre ++ x :: post) body s w) = inl e /\
  trace (for_fold (pre ++ x :: post) body s w)
    = trace (for_fold pre body s w)
        ++ trace (body s1 x (world (for_fold pre body s w))).
Proof.
  intros Hpre Hx. rewrite for_fold_app, (bind_ok _ _ _ _ Hpre). simpl.
  by rewrite (bind_err _ _ _ _ Hx).
Qed.
End Loops.

(** As [bind_inv], when the goal does not speak of the run. *)
Tactic Notation "bind_split" hyp(H) "as" simple_intropattern(a)
    ident(Ha) ident(Hk) :=
  destruct (bind_result_ok _ _ _ _ H) as (a & Ha & Hk);
  cbn beta in Hk.

(** The first key error of a list comprehension [[x[k] for x in xs]]. *)
Lemma res_mapM_getitem_err {V} (k : string) (xs : list (gmap string V)) :
  Exists (fun x => x !! k = None) xs ->
  res_mapM (fun x : gmap string V => getitem x k) xs = inl (KeyError k).
Proof.
  induction xs as [|x xs IH]; intros H; [by apply Exists_nil in H|].
  simpl. unfold getitem at 1. destruct (x !! k) as [v|] eqn:E; [|done].
  simpl. apply Exists_cons in H as [H|H]; [congruence|]. by rewrite IH.
Qed.

Lemma res_mapM_getitem_ok {V} (k : string) (xs : list (gmap string V)) vs :
  res_mapM (fun x : gmap string V => getitem x k) xs = inr vs ->
  Forall2 (fun x v => x !! k = Some v) xs vs.
Proof.
  revert vs. induction xs as [|x xs IH]; intros vs; simpl.
  - intros [= <-]. constructor.
  - unfold getitem at 1. destruct (x !! k) as [v|] eqn:E; simpl; [|done].
    destruct (res_mapM _ xs) as [e|vs']; simpl; [done|].
    intros [= <-]. constructor; [done|]. by apply IH.
Qed.

Lemma res_mapM_length {A B} (f : A -> res B) xs ys :
  res_mapM f xs = inr ys -> length ys = length xs.
Proof.
  revert ys. induction xs as [|x xs IH]; intros ys; simpl.
  - by intros [= <-].
  - destruct (f x) as [e|y]; simpl; [done|].
    destruct (res_mapM f xs) as [e|ys']; simpl; [done|].
    intros [= <-]. simpl. by rewrite (IH ys').
Qed.

(* ===================================================================== *)
(** * Counting calls *)

Section Balanced.
Context {W Ev : Type}.
Variables opens closes : Ev -> nat.

(** In every run, as many calls close as open. *)
Definition balanced {A} (p : prog W Ev A) : Prop :=
  forall w,
    sum_list_with opens (trace (p w)) = sum_list_with closes (trace (p w)).

Lemma balanced_ret {A} (a : A) : balanced (ret a).
Proof. by intros w. Qed.

Lemma balanced_lift {A} (r : res A) : balanced (lift r).
Proof. by intros w. Qed.

Lemma balanced_ext {A} (f : W -> W * res A) (log : res A -> Ev) :
  (forall r, opens (log r) = closes (log r)) -> balanced (ext f log).
Proof.
  intros Hlog w. unfold ext. destruct (f w) as [w' r]. simpl.
  by rewrite Hlog.
Qed.

Lemma balanced_bind {A B} (m : prog W Ev A) (k : A -> prog W Ev B) :
  balanced m -> (forall a, balanced (k a)) -> balanced (bind m k).
Proof.
  intros Hm Hk w. unfold bind. destruct (result (m w)) as [e|a]; simpl.
  - apply Hm.
  - rewrite !sum_list_with_app. by rewrite Hm, Hk.
Qed.

(** A [with] block whose entering call opens when it returns, and whose
    leaving closes. *)
Lemma balanced_with_block {A} (f : W -> W * res unit) (log : res unit -> Ev)
    leave log_leave (body : prog W Ev A) :
  opens (log (inr ())) = 1 -> closes (log (inr ())) = 0 ->
  (forall e, opens (log (inl e)) = 0 /\ closes (log (inl e)) = 0) ->
  opens log_leave = 0 -> closes log_leave = 1 ->
  balanced body ->
  balanced (with_block (ext f log) leave log_leave body).
Proof.
  intros Ho Hc Hfail Hlo Hlc Hbody w. unfold with_block.
  rewrite bind_ext_run. destruct (f w) as [w' [e|[]]]; simpl.
  - destruct (Hfail e) as [-> ->]. done.
  - rewrite !sum_list_with_app, Ho, Hc. simpl. rewrite Hlo, Hlc, Hbody. lia.
Qed.
End Balanced.

(* ===================================================================== *)
(** * Parameter trees (jax pytrees of arrays) *)

Module Tree.
Section Tree.
(** Arrays are opaque: only the three operations the repository applies
    to them are needed.  [x + y] may raise (incompatible shapes);
    [zeros_like x] and [x / n] for a Python integer [n] do not. *)
Context {arr : Type}.
Variable zeros_like : arr -> arr.
Variable arr_add : arr -> arr -> res arr.
Variable arr_div : arr -> nat -> arr.

(** A pytree: an array, or a dictionary node.  The children of a node
    are listed in the (sorted) key order in which jax flattens them;
    [frozen] tells a flax FrozenDict from a plain dict, which jax
    treats as different node types. *)
#[local] Set Warnings "-register-all".
Inductive ptree : Type :=
| Leaf (a : arr)
| Node (frozen : bool) (kids : list (string * ptree)).

Lemma ptree_ind' (P : ptree -> Prop) :
  (forall a, P (Leaf a)) ->
  (forall fr kids, Forall (fun kv => P kv.2) kids -> P (Node fr kids)) ->
  forall t, P t.
Proof.
  intros HLeaf HNode. fix IH 1. intros [a|fr kids]; [apply HLeaf|].
  apply HNode. induction kids as [|[k c] l IHl]; constructor; [|exact IHl].
  simpl. apply IH.
Qed.

(** [flax.core.frozen_dict.freeze]. *)
Fixpoint freeze (t : ptree) : ptree :=
  match t with
  | Leaf a => Leaf a
  | Node _ kids =>
      Node true
        ((fix go (l : list (string * ptree)) :=
            match l with
            | [] => []
            | (k, c) :: l' => (k, freeze c) :: go l'
            end) kids)
  end.

(** [jax.tree_util.tree_map(f, t)]. *)
Fixpoint tree_map (f : arr -> arr) (t : ptree) : ptree :=
  match t with
  | Leaf a => Leaf (f a)
  | Node fr kids =>
      Node fr
        ((fix go (l : list (string * ptree)) :=
            match l with
            | [] => []
            | (k, c) :: l' => (k, tree_map f c) :: go l'
            end) kids)
  end.

(** [jax.tree_util.tree_map(f, t1, t2)]: both trees must have the same
    structure, and [f] may raise on a pair of leaves. *)
Fixpoint tree_map2 (f : arr -> arr -> res arr) (t1 t2 : ptree)
  : res ptree :=
  match t1, t2 with
  | Leaf a, Leaf b => res_map Leaf (f a b)
  | Node fr1 kids1, Node fr2 kids2 =>
      if bool_decide (fr1 = fr2) then
        res_map (Node fr1)
          ((fix go (l1 l2 : list (string * ptree))
              : res (list (string * ptree)) :=
              match l1, l2 with
              | [], [] => inr []
              | (k1, c1) :: l1', (k2, c2) :: l2' =>
                  if bool_decide (k1 = k2) then
                    res_bind (tree_map2 f c1 c2) (fun c =>
                      res_map (cons (k1, c)) (go l1' l2'))
                  else inl TreeStructureError
              | _, _ => inl TreeStructureError
              end) kids1 kids2)
      else inl TreeStructureError
  | _, _ => inl TreeStructureError
  end.

(** The children lists, as separate functions (same recursion as the
    local fixpoints above). *)
Fixpoint kids_map (f : arr -> arr) (l : list (string * ptree)) :=
  match l with
  | [] => []
  | (k, c) :: l' => (k, tree_map f c) :: kids_map f l'
  end.

Fixpoint kids_map2 (f : arr -> arr -> res arr)
    (l1 l2 : list (string * ptree)) : res (list (string * ptree)) :=
  match l1, l2 with
  | [], [] => inr []
  | (k1, c1) :: l1', (k2, c2) :: l2' =>
      if bool_decide (k1 = k2) then
        res_bind (tree_map2 f c1 c2) (fun c =>
          res_map (cons (k1, c)) (kids_map2 f l1' l2'))
      else inl TreeStructureError
  | _, _ => inl TreeStructureError
  end.

Lemma tree_map_node f fr kids :
  tree_map f (Node fr kids) = Node fr (kids_map f kids).
Proof.
  simpl. f_equal. induction kids as [|[k c] l IH]; simpl; [done|].
  by rewrite IH.
Qed.

Lemma tree_map2_node f fr1 kids1 fr2 kids2 :
  tree_map2 f (Node fr1 kids1) (Node fr2 kids2) =
    if bool_decide (fr1 = fr2)
    then res_map (Node fr1) (kids_map2 f kids1 kids2)
    else inl TreeStructureError.
Proof.
  simpl. case_bool_decide; [|done]. f_equal.
  revert kids2. induction kids1 as [|[k1 c1] l1 IH]; intros [|[k2 c2] l2];
    simpl; try done.
  case_bool_decide; [|done]. by rewrite IH.
Qed.

(** The value bound to key [k] in a dictionary node. *)
Fixpoint kids_get (k : string) (l : list (string * ptree)) : option ptree :=
  match l with
  | [] => None
  | (k', c) :: l' => if bool_decide (k = k') then Some c else kids_get k l'
  end.

(** The subtree reached by a path of keys. *)
Fixpoint subtree_at (path : list string) (t : ptree) : option ptree :=
  match path with
  | [] => Some t
  | k :: path' =>
      match t with
      | Leaf _ => None
      | Node _ kids =>
          match kids_get k kids with
          | Some c => subtree_at path' c
          | None => None
          end
      end
  end.

(** The array found at the end of a path. *)
Definition leaf_at (path : list string) (t : ptree) : option arr :=
  match subtree_at path t with
  | Some (Leaf a) => Some a
  | _ => None
  end.

(** ** Reading a tree after a map *)

Lemma kids_get_map f k l :
  kids_get k (kids_map f l) = tree_map f <$> kids_get k l.
Proof.
  induction l as [|[k' c] l IH]; simpl; [done|].
  case_bool_decide; [done|apply IH].
Qed.

Lemma subtree_at_map f path : forall t,
  subtree_at path (tree_map f t) = tree_map f <$> subtree_at path t.
Proof.
  induction path as [|k path IH]; intros t; [done|].
  destruct t as [a|fr kids]; [done|].
  rewrite tree_map_node. simpl. rewrite kids_get_map.
  destruct (kids_get k kids) as [c|]; simpl; [apply IH|done].
Qed.

Lemma leaf_at_map f path t :
  leaf_at path (tree_map f t) = f <$> leaf_at path t.
Proof.
  unfold leaf_at. rewrite subtree_at_map.
  by destruct (subtree_at path t) as [[a|fr kids]|].
Qed.

Lemma kids_get_map2 f k : forall l1 l2 l,
  kids_map2 f l1 l2 = inr l ->
  match kids_get k l1 with
  | Some c1 =>
      exists c2 c, kids_get k l2 = Some c2 /\ kids_get k l = Some c /\
                   tree_map2 f c1 c2 = inr c
  | None => kids_get k l = None
  end.
Proof.
  induction l1 as [|[k1 c1] l1 IH]; intros [|[k2 c2] l2] l; simpl;
    try discriminate.
  - by intros [= <-].
  - case_bool_decide as Hk; [subst k2|discriminate].
    destruct (tree_map2 f c1 c2) as [e|c] eqn:Ec; simpl; [discriminate|].
    destruct (kids_map2 f l1 l2) as [e|l'] eqn:El; simpl; [discriminate|].
    intros [= <-]. simpl. case_bool_decide.
    + by exists c2, c.
    + by apply IH.
Qed.

Lemma subtree_at_map2 f path : forall t1 t2 t,
  tree_map2 f t1 t2 = inr t ->
  match subtree_at path t1 with
  | Some s1 =>
      exists s2 s, subtree_at path t2 = Some s2 /\
                   subtree_at path t = Some s /\
                   tree_map2 f s1 s2 = inr s
  | None => subtree_at path t = None
  end.
Proof.
  induction path as [|k path IH]; intros t1 t2 t Ht; simpl.
  { by exists t2, t. }
  destruct t1 as [a|fr1 kids1].
  - destruct t2 as [b|fr2 kids2]; simpl in Ht; [|discriminate].
    by destruct (f a b); simplify_eq/=.
  - destruct t2 as [b|fr2 kids2]; [discriminate|].
    rewrite tree_map2_node in Ht. case_bool_decide; [|discriminate].
    destruct (kids_map2 f kids1 kids2) as [e|kids] eqn:Ek;
      simpl in Ht; [discriminate|].
    injection Ht as <-.
    pose proof (kids_get_map2 f k _ _ _ Ek) as Hg.
    destruct (kids_get k kids1) as [c1|].
    + destruct Hg as (c2 & c & -> & -> & Hc).
      apply (IH _ _ _ Hc).
    + by rewrite Hg.
Qed.

Lemma leaf_at_map2 f path t1 t2 t :
  tree_map2 f t1 t2 = inr t ->
  match leaf_at path t1 with
  | Some a =>
      exists b c, leaf_at path t2 = Some b /\ f a b = inr c /\
                  leaf_at path t = Some c
  | None => leaf_at path t = None
  end.
Proof.
  intros Ht. pose proof (subtree_at_map2 f path _ _ _ Ht) as Hs.
  unfold leaf_at. destruct (subtree_at path t1) as [[a|fr1 kids1]|].
  - destruct Hs as (s2 & s & -> & -> & Hm).
    destruct s2 as [b|]; simpl in Hm; [|discriminate].
    destruct (f a b) as [e|c] eqn:Ef; simpl in Hm; [discriminate|].
    injection Hm as <-. by exists b, c.
  - destruct Hs as (s2 & s & _ & -> & Hm).
    destruct s2 as [b|fr2 kids2]; [discriminate|].
    rewrite tree_map2_node in Hm. case_bool_decide; [|discriminate].
    destruct (kids_map2 f kids1 kids2); simpl in Hm; [discriminate|].
    by injection Hm as <-.
  - by rewrite Hs.
Qed.

(** The accumulation [acc = tree_map(lambda x, y: x + y, acc, t)] over
    a list of trees. *)
Definition tree_sum (acc : ptree) (ts : list ptree) : res ptree :=
  res_foldl (tree_map2 arr_add) acc ts.

(** The same accumulation on one array position. *)
Definition leaf_sum (a : arr) (xs : list arr) : res arr :=
  res_foldl arr_add a xs.

Lemma leaf_at_tree_sum path : forall ts acc t,
  tree_sum acc ts = inr t ->
  match leaf_at path acc with
  | Some a =>
      exists xs s, Forall2 (fun t x => leaf_at path t = Some x) ts xs /\
                   leaf_sum a xs = inr s /\ leaf_at path t = Some s
  | None => leaf_at path t = None
  end.
Proof.
  unfold tree_sum, leaf_sum.
  induction ts as [|t1 ts IH]; intros acc t; simpl.
  - intros [= <-]. destruct (leaf_at path acc) as [a|]; [|done].
    exists [], a. by repeat split; [constructor|..].
  - destruct (tree_map2 arr_add acc t1) as [e|acc'] eqn:E; simpl;
      [discriminate|].
    intros Ht. specialize (IH _ _ Ht).
    pose proof (leaf_at_map2 arr_add path _ _ _ E) as Hm.
    destruct (leaf_at path acc) as [a|].
    + destruct Hm as (b & c & Hb & Hc & Hacc'). rewrite Hacc' in IH.
      destruct IH as (xs & s & Hxs & Hs & Hleaf).
      exists (b :: xs), s. split; [by constructor|].
      split; [|done]. simpl. by rewrite Hc.
    + by rewrite Hm in IH.
Qed.

(** ** The structure of a tree *)

(** A tree without its arrays: what jax calls its treedef. *)
Inductive skeleton : Type :=
| SLeaf
| SNode (frozen : bool) (kids : list (string * skeleton)).

Fixpoint skeleton_of (t : ptree) : skeleton :=
  match t with
  | Leaf _ => SLeaf
  | Node fr kids =>
      SNode fr
        ((fix go (l : list (string * ptree)) :=
            match l with
            | [] => []
            | (k, c) :: l' => (k, skeleton_of c) :: go l'
            end) kids)
  end.

Fixpoint kids_skeleton (l : list (string * ptree))
  : list (string * skeleton) :=
  match l with
  | [] => []
  | (k, c) :: l' => (k, skeleton_of c) :: kids_skeleton l'
  end.

Lemma skeleton_of_node fr kids :
  skeleton_of (Node fr kids) = SNode fr (kids_skeleton kids).
Proof. simpl. by f_equal. Qed.

Lemma skeleton_of_map f t : skeleton_of (tree_map f t) = skeleton_of t.
Proof.
  induction t as [a|fr kids IH] using ptree_ind'; [done|].
  rewrite tree_map_node, !skeleton_of_node. f_equal.
  induction IH as [|[k c] l Hc _ IHl]; simpl; [done|].
  simpl in Hc. by rewrite Hc, IHl.
Qed.

Lemma skeleton_of_map2 f t1 : forall t2 t,
  tree_map2 f t1 t2 = inr t ->
  skeleton_of t = skeleton_of t1 /\ skeleton_of t2 = skeleton_of t1.
Proof.
  induction t1 as [a|fr1 kids1 IH] using ptree_ind'; intros t2 t.
  - destruct t2 as [b|fr2 kids2]; simpl; [|done].
    destruct (f a b); simpl; [done|]. by intros [= <-].
  - destruct t2 as [b|fr2 kids2]; [done|].
    rewrite tree_map2_node. case_bool_decide as Hfr; [subst fr2|done].
    destruct (kids_map2 f kids1 kids2) as [e|kids] eqn:Ek; simpl; [done|].
    intros [= <-]. rewrite !skeleton_of_node.
    assert (kids_skeleton kids = kids_skeleton kids1 /\
            kids_skeleton kids2 = kids_skeleton kids1) as [H1 H2];
      [|split; f_equal; [exact H1|exact H2]].
    clear fr1. revert kids2 kids Ek.
    induction IH as [|[k1 c1] l1 Hc _ IHl]; intros [|[k2 c2] l2] kids; simpl;
      try done.
    { by intros [= <-]. }
    case_bool_decide as Hk; [subst k2|done].
    destruct (tree_map2 f c1 c2) as [e|c] eqn:Ec; simpl; [done|].
    destruct (kids_map2 f l1 l2) as [e|l] eqn:El; simpl; [done|].
    intros [= <-]. simpl in Hc |- *. destruct (Hc _ _ Ec) as [-> ->].
    destruct (IHl _ _ El) as [-> ->]. done.
Qed.

Lemma skeleton_of_tree_sum : forall ts acc t,
  tree_sum acc ts = inr t ->
  skeleton_of t = skeleton_of acc /\
  Forall (fun t' => skeleton_of t' = skeleton_of acc) ts.
Proof.
  unfold tree_sum. induction ts as [|t1 ts IH]; intros acc t; simpl.
  - intros [= <-]. by split; [|constructor].
  - destruct (tree_map2 arr_add acc t1) as [e|acc'] eqn:E; simpl; [done|].
    intros H. destruct (IH _ _ H) as [Ht Hts].
    destruct (skeleton_of_map2 _ _ _ _ E) as [Hacc' Ht1].
    rewrite Hacc' in Ht, Hts. split; [done|]. by constructor.
Qed.
End Tree.

Arguments Leaf {arr} _.
Arguments Node {arr} _ _.
End Tree.

(* ===================================================================== *)
(** * The exceptions a script raises itself

    An exception that ends a run in which every library call returned
    was raised by the script: by the interpreter on one of the script's
    own expressions (a subscript, a keyword clash, an assert), or inside
    an array or tree function that is embedded as plain code. *)

(** The classes of Python's own exceptions that such expressions raise.
    An exception class defined by the repository would be none of
    them. *)
Definition builtin_classes : list string :=
  ["KeyError"; "IndexError"; "TypeError"; "ValueError"; "AssertionError"].

Definition builtin (e : exn) : Prop := exn_class e ∈ builtin_classes.



Section ResRaises.
Variable P : exn -> Prop.
Hypothesis builtin_P : forall e, builtin e -> P e.








End ResRaises.

Section OwnErrors.
Context {W Ev : Type}.
Variable ev_exn : Ev -> option exn.
Variable P : exn -> Prop.








End OwnErrors.





(** Python's [try: body except Exception as e: handler(e)].  No script
    of the repository uses it; it is what [faithful] excludes. *)
Definition try_except {W Ev A} (body : prog W Ev A)
    (handler : exn -> prog W Ev A) : prog W Ev A :=
  fun w =>
    let o := body w in
    match result o with
    | inr a => o
    | inl e =>
        let o' := handler e (world o) in
        Outcome (world o') (trace o ++ trace o') (result o')
    end.

(* ===================================================================== *)
(** * examples/faderated_learning/main.py *)

Module FedAvg.
Import Tree.
Section FedAvg.
(** [W]: the state of everything outside the script (the trainer and
    predictor objects, numpy's random state, the terminal).  [arr]: jax
    arrays.  [num]: Python floats.  [pyval]: labels and predictions.
    [obj]: references to library objects. *)
Context {W arr num pyval obj : Type}.
Variable zeros_like : arr -> arr.
Variable arr_add : arr -> arr -> res arr.
Variable arr_div : arr -> nat -> arr.

Abbreviation ptree := (@ptree arr).
Abbreviation example := (gmap string pyval).

(** [optax.adam(learning_rate=lr)]. *)
Inductive optimizer : Type := adam (learning_rate : num).

(** The lines the script prints. *)
Inductive message : Type :=
| MsgTrainSize (n : nat)
| MsgRoundFinished (round_idx : nat)
| MsgTestAccuracy (acc : num)
| MsgConfusionMatrix (conf_mat : obj).

(** The library calls made by the script, as logged in the trace, each
    with its arguments and its answer. *)
Inductive event : Type :=
| EvTrainer (deployer model : obj) (params : ptree) (opt : optimizer)
    (r : res obj)
| EvPredictor (deployer model : obj) (r : res obj)
| EvChoice (n size : nat) (r : res (list nat))
| EvSetTrainState (trainer model : obj) (params : ptree)
    (opt : optimizer) (step : nat) (r : res unit)
| EvFit (trainer : obj) (examples : list example)
    (per_device_batch_size n_epochs : nat) (r : res unit)
| EvTrainerParams (trainer : obj) (r : res ptree)
| EvPredict (predictor : obj) (examples : list example)
    (per_device_batch_size : nat) (params : ptree) (r : res (list pyval))
| EvAccuracy (preds labels : list pyval) (r : res num)
| EvConfusionMatrix (y_true y_pred : list pyval) (r : res obj)
| EvPrint (m : message) (r : res unit).

(** The exception a logged call ended with, if any. *)
Definition ev_exn (ev : event) : option exn :=
  match ev with
  | EvTrainer _ _ _ _ (inl e) | EvPredictor _ _ (inl e)
  | EvChoice _ _ (inl e) | EvSetTrainState _ _ _ _ _ (inl e)
  | EvFit _ _ _ _ (inl e) | EvTrainerParams _ (inl e)
  | EvPredict _ _ _ _ (inl e) | EvAccuracy _ _ (inl e)
  | EvConfusionMatrix _ _ (inl e) | EvPrint _ (inl e) => Some e
  | _ => None
  end.

(** The external libraries, as oracles on the world. *)
Record library : Type := Library {
  (* redco.Trainer(deployer, collate_fn, apply_fn, loss_fn, params,
     optimizer) *)
  lib_Trainer : obj -> obj -> ptree -> optimizer -> W -> W * res obj;
  (* redco.Predictor(deployer, collate_fn, pred_fn, output_fn) *)
  lib_Predictor : obj -> obj -> W -> W * res obj;
  (* np.random.choice(np.arange(n), size, replace=False) *)
  lib_choice : nat -> nat -> W -> W * res (list nat);
  (* trainer.set_train_state(apply_fn, params, optimizer, step) *)
  lib_set_train_state :
    obj -> obj -> ptree -> optimizer -> nat -> W -> W * res unit;
  (* trainer.fit(train_examples, per_device_batch_size, n_epochs) *)
  lib_fit : obj -> list example -> nat -> nat -> W -> W * res unit;
  (* trainer.params *)
  lib_trainer_params : obj -> W -> W * res ptree;
  (* predictor.predict(examples, per_device_batch_size, params) *)
  lib_predict :
    obj -> list example -> nat -> ptree -> W -> W * res (list pyval);
  (* np.mean(np.array(preds) == np.array(labels)) *)
  lib_accuracy : list pyval -> list pyval -> W -> W * res num;
  (* sklearn.metrics.confusion_matrix(y_true, y_pred) *)
  lib_confusion_matrix : list pyval -> list pyval -> W -> W * res obj;
  (* print *)
  lib_print : message -> W -> W * res unit
}.

Variable L : library.
Variable lr_zero : num.   (* the float 0. *)

Abbreviation prog := (prog W event).
Local Open Scope prog_scope.

Record FedAvgServer : Type := Server {
  _deployer : obj;
  _model : obj;
  _params : ptree;
  _n_clients : nat;
  _trainer : obj;
  _predictor : obj
}.

Definition set_params (self : FedAvgServer) (p : ptree) : FedAvgServer :=
  Server (_deployer self) (_model self) p (_n_clients self)
         (_trainer self) (_predictor self).

(** [FedAvgServer.__init__]. *)
Definition init (deployer model : obj) (params : ptree) (n_clients : nat)
  : prog FedAvgServer :=
  trainer <- ext (lib_Trainer L deployer model params (adam lr_zero))
                 (EvTrainer deployer model params (adam lr_zero)) ;;
  predictor <- ext (lib_Predictor L deployer model)
                   (EvPredictor deployer model) ;;
  ret (Server deployer model (freeze params) n_clients trainer predictor).

(** [FedAvgServer.train_client]. *)
Definition train_client (self : FedAvgServer) (examples : list example)
    (learning_rate : num) (per_device_batch_size n_epochs : nat)
  : prog ptree :=
  ext (lib_set_train_state L (_trainer self) (_model self) (_params self)
         (adam learning_rate) 0)
      (EvSetTrainState (_trainer self) (_model self) (_params self)
         (adam learning_rate) 0) ;;;
  ext (lib_print L (MsgTrainSize (length examples)))
      (EvPrint (MsgTrainSize (length examples))) ;;;
  ext (lib_fit L (_trainer self) examples per_device_batch_size n_epochs)
      (EvFit (_trainer self) examples per_device_batch_size n_epochs) ;;;
  ext (lib_trainer_params L (_trainer self))
      (EvTrainerParams (_trainer self)).

(** [FedAvgServer.test]. *)
Definition test (self : FedAvgServer) (examples : list example)
    (per_device_batch_size : nat) : prog (num * obj) :=
  preds <- ext (lib_predict L (_predictor self) examples
                  per_device_batch_size (_params self))
               (EvPredict (_predictor self) examples
                  per_device_batch_size (_params self)) ;;
  labels <- lift (res_mapM (fun example : example => getitem example "label")
                    examples) ;;
  acc <- ext (lib_accuracy L preds labels) (EvAccuracy preds labels) ;;
  conf_mat <- ext (lib_confusion_matrix L labels preds)
                  (EvConfusionMatrix labels preds) ;;
  ret (acc, conf_mat).

(** The body of the inner loop of [run]: train one client and add its
    parameters to the running sum. *)
Definition client_step (self : FedAvgServer)
    (client_train_datasets : list (list example)) (learning_rate : num)
    (per_device_batch_size n_client_epochs_per_round : nat)
    (sum_client_params : ptree) (client_idx : nat) : prog ptree :=
  examples <- lift (list_getitem client_train_datasets client_idx) ;;
  client_params <- train_client self examples learning_rate
                     per_device_batch_size n_client_epochs_per_round ;;
  lift (tree_map2 arr_add sum_client_params client_params).

(** The body of the outer loop of [run]: one server round.  It returns
    the server object with [_params] rebound. *)
Definition run_round (self : FedAvgServer)
    (n_clients_per_round n_client_epochs_per_round
     per_device_batch_size eval_per_device_batch_size : nat)
    (learning_rate : num)
    (client_train_datasets : list (list example))
    (eval_dataset : list example) (round_idx : nat)
  : prog FedAvgServer :=
  round_client_idxes <-
    ext (lib_choice L (_n_clients self) n_clients_per_round)
        (EvChoice (_n_clients self) n_clients_per_round) ;;
  sum_client_params <-
    for_fold round_client_idxes
      (client_step self client_train_datasets learning_rate
         per_device_batch_size n_client_epochs_per_round)
      (tree_map zeros_like (_params self)) ;;
  let self' :=
    set_params self
      (tree_map (fun x => arr_div x n_clients_per_round)
         sum_client_params) in
  bind (test self' eval_dataset eval_per_device_batch_size)
    (fun '(acc, conf_mat) =>
       ext (lib_print L (MsgRoundFinished round_idx))
           (EvPrint (MsgRoundFinished round_idx)) ;;;
       ext (lib_print L (MsgTestAccuracy acc))
           (EvPrint (MsgTestAccuracy acc)) ;;;
       ext (lib_print L (MsgConfusionMatrix conf_mat))
           (EvPrint (MsgConfusionMatrix conf_mat)) ;;;
       ret self').

(** [FedAvgServer.run]. *)
Definition run (self : FedAvgServer)
    (n_rounds n_clients_per_round n_client_epochs_per_round
     per_device_batch_size eval_per_device_batch_size : nat)
    (learning_rate : num)
    (client_train_datasets : list (list example))
    (eval_dataset : list example) : prog FedAvgServer :=
  for_fold (seq 0 n_rounds)
    (fun self round_idx =>
       run_round self n_clients_per_round n_client_epochs_per_round
         per_device_batch_size eval_per_device_batch_size learning_rate
         client_train_datasets eval_dataset round_idx)
    self.

(** The rounds of [run]: round [n_rounds] of a run of [n_rounds + 1]
    rounds is [run_round] on the server as the first [n_rounds] rounds
    left it. *)
Lemma run_last_round self n_rounds k ep bs ebs lr ds eval_ds w :
  run self (S n_rounds) k ep bs ebs lr ds eval_ds w
  = bind (run self n_rounds k ep bs ebs lr ds eval_ds)
      (fun self' => run_round self' k ep bs ebs lr ds eval_ds n_rounds) w.
Proof.
  unfold run. rewrite seq_S, for_fold_app. apply bind_ext.
  intros self' w'. simpl. unfold bind at 1.
  destruct (result (run_round self' k ep bs ebs lr ds eval_ds n_rounds w'))
    as [e|s] eqn:E.
  - rewrite <- E. apply outcome_eta.
  - simpl. rewrite app_nil_r, <- E. apply outcome_eta.
Qed.

(** ** Reading a trace *)

(** The trees answered by [trainer.params], i.e. the values returned by
    the [train_client] calls, in call order. *)
Definition returned_params (tr : list event) : list ptree :=
  omap (fun ev => match ev with
                  | EvTrainerParams _ (inr p) => Some p
                  | _ => None
                  end) tr.

(** The parameters each training run was started from. *)
Definition start_params (tr : list event) : list ptree :=
  omap (fun ev => match ev with
                  | EvSetTrainState _ _ p _ _ _ => Some p
                  | _ => None
                  end) tr.

(** The datasets handed to [trainer.fit], in call order. *)
Definition fitted_examples (tr : list event) : list (list example) :=
  omap (fun ev => match ev with
                  | EvFit _ examples _ _ _ => Some examples
                  | _ => None
                  end) tr.

(** ** One client *)

(** A training call that returns has made exactly four library calls, in
    this order, started from the server's parameters, and returns what
    [trainer.params] answered. *)
Lemma train_client_ok self examples lr bs ep w p :
  result (train_client self examples lr bs ep w) = inr p ->
  trace (train_client self examples lr bs ep w) =
    [ EvSetTrainState (_trainer self) (_model self) (_params self)
        (adam lr) 0 (inr ());
      EvPrint (MsgTrainSize (length examples)) (inr ());
      EvFit (_trainer self) examples bs ep (inr ());
      EvTrainerParams (_trainer self) (inr p) ].
Proof.
  unfold train_client, bind, ext.
  destruct (lib_set_train_state _ _ _ _ _ _ w) as [w1 [e|[]]]; simpl;
    [done|].
  destruct (lib_print _ _ w1) as [w2 [e|[]]]; simpl; [done|].
  destruct (lib_fit _ _ _ _ _ w2) as [w3 [e|[]]]; simpl; [done|].
  destruct (lib_trainer_params _ _ w3) as [w4 [e|p']]; simpl; [done|].
  by intros [= ->].
Qed.

Lemma client_step_ok self ds lr bs ep acc i w acc' :
  result (client_step self ds lr bs ep acc i w) = inr acc' ->
  exists examples p,
    ds !! i = Some examples /\
    result (train_client self examples lr bs ep w) = inr p /\
    trace (client_step self ds lr bs ep acc i w) =
      trace (train_client self examples lr bs ep w) /\
    tree_map2 arr_add acc p = inr acc'.
Proof.
  unfold client_step, list_getitem.
  destruct (ds !! i) as [examples|] eqn:Hi; [|done].
  unfold bind, lift. simpl.
  destruct (result (train_client self examples lr bs ep w)) as [e|p] eqn:Hp;
    simpl; [done|].
  intros Hsum. exists examples, p. by rewrite app_nil_r.
Qed.

(** ** The clients of a round *)

(** The library calls of one completed [train_client] call on [examples]
    that returned [p]. *)
Definition client_trace (self : FedAvgServer) (lr : num) (bs ep : nat)
    (run : list example * ptree) : list event :=
  [ EvSetTrainState (_trainer self) (_model self) (_params self)
      (adam lr) 0 (inr ());
    EvPrint (MsgTrainSize (length run.1)) (inr ());
    EvFit (_trainer self) run.1 bs ep (inr ());
    EvTrainerParams (_trainer self) (inr run.2) ].

Lemma clients_loop_ok self ds lr bs ep : forall idxes acc w sum,
  result (for_fold idxes (client_step self ds lr bs ep) acc w) = inr sum ->
  exists runs : list (list example * ptree),
    Forall2 (fun i run => ds !! i = Some run.1) idxes runs /\
    trace (for_fold idxes (client_step self ds lr bs ep) acc w) =
      concat (client_trace self lr bs ep <$> runs) /\
    tree_sum arr_add acc runs.*2 = inr sum.
Proof.
  induction idxes as [|i idxes IH]; intros acc w sum; simpl.
  - intros [= <-]. exists []. by repeat split; [constructor|..].
  - intros H. destruct (bind_result_ok _ _ _ _ H) as (acc' & Hstep & Hrest).
    rewrite (bind_ok _ _ _ _ Hstep). simpl.
    destruct (client_step_ok _ _ _ _ _ _ _ _ _ Hstep)
      as (examples & p & Hi & Hp & Htr & Hsum).
    destruct (IH _ _ _ Hrest) as (runs & Hruns & Htr' & Hsum').
    exists ((examples, p) :: runs). split; [by constructor|].
    split.
    + rewrite Htr, Htr', (train_client_ok _ _ _ _ _ _ _ Hp). done.
    + unfold tree_sum. simpl. rewrite Hsum. exact Hsum'.
Qed.

Lemma returned_params_clients self lr bs ep runs :
  returned_params (concat (client_trace self lr bs ep <$> runs)) = runs.*2.
Proof. induction runs as [|[ex p] runs IH]; simpl; [done|]. by f_equal. Qed.

Lemma start_params_clients self lr bs ep runs :
  start_params (concat (client_trace self lr bs ep <$> runs)) =
    replicate (length runs) (_params self).
Proof. induction runs as [|[ex p] runs IH]; simpl; [done|]. by f_equal. Qed.

Lemma fitted_examples_clients self lr bs ep runs :
  fitted_examples (concat (client_trace self lr bs ep <$> runs)) = runs.*1.
Proof. induction runs as [|[ex p] runs IH]; simpl; [done|]. by f_equal. Qed.

(** ** The evaluation at the end of a round *)

Definition test_trace (self : FedAvgServer) (examples : list example)
    (bs : nat) (preds labels : list pyval) (acc : num) (conf_mat : obj)
  : list event :=
  [ EvPredict (_predictor self) examples bs (_params self) (inr preds);
    EvAccuracy preds labels (inr acc);
    EvConfusionMatrix labels preds (inr conf_mat) ].

Lemma test_ok self examples bs w acc conf_mat :
  result (test self examples bs w) = inr (acc, conf_mat) ->
  exists preds labels,
    res_mapM (fun example : example => getitem example "label") examples
      = inr labels /\
    trace (test self examples bs w) =
      test_trace self examples bs preds labels acc conf_mat.
Proof.
  unfold test, bind, ext, lift.
  destruct (lib_predict _ _ _ _ _ w) as [w1 [e|preds]]; simpl; [done|].
  destruct (res_mapM _ examples) as [e|labels]; simpl; [done|].
  destruct (lib_accuracy _ _ _ w1) as [w2 [e|acc']]; simpl; [done|].
  destruct (lib_confusion_matrix _ _ _ w2) as [w3 [e|cm]]; simpl; [done|].
  intros [= -> ->]. by exists preds, labels.
Qed.

(** ** One round *)

Definition report_trace (round_idx : nat) (acc : num) (conf_mat : obj)
  : list event :=
  [ EvPrint (MsgRoundFinished round_idx) (inr ());
    EvPrint (MsgTestAccuracy acc) (inr ());
    EvPrint (MsgConfusionMatrix conf_mat) (inr ()) ].

(** The shape of a round that completes: the selection, then one
    training run per selected client in selection order, then the
    rebinding of [_params], the evaluation and the report. *)
Lemma run_round_ok self k ep bs ebs lr ds eval_ds round_idx w self' :
  result (run_round self k ep bs ebs lr ds eval_ds round_idx w)
    = inr self' ->
  exists idxes runs sum preds labels acc conf_mat,
    Forall2 (fun i run => ds !! i = Some run.1) idxes runs /\
    tree_sum arr_add (tree_map zeros_like (_params self)) runs.*2
      = inr sum /\
    self' = set_params self (tree_map (fun x => arr_div x k) sum) /\
    trace (run_round self k ep bs ebs lr ds eval_ds round_idx w) =
      EvChoice (_n_clients self) k (inr idxes)
        :: concat (client_trace self lr bs ep <$> runs)
        ++ test_trace self' eval_ds ebs preds labels acc conf_mat
        ++ report_trace round_idx acc conf_mat.
Proof.
  unfold run_round. intros H.
  destruct (bind_result_ok _ _ _ _ H) as (idxes & Hch & H1).
  rewrite (bind_ok _ _ _ _ Hch). simpl.
  destruct (bind_result_ok _ _ _ _ H1) as (sum & Hloop & H2).
  rewrite (bind_ok _ _ _ _ Hloop). simpl.
  destruct (bind_result_ok _ _ _ _ H2) as ([acc conf_mat] & Htest & H3).
  rewrite (bind_ok _ _ _ _ Htest). simpl.
  destruct (clients_loop_ok _ _ _ _ _ _ _ _ _ Hloop)
    as (runs & Hruns & Htr & Hsum).
  destruct (test_ok _ _ _ _ _ _ Htest) as (preds & labels & _ & Htt).
  exists idxes, runs, sum, preds, labels, acc, conf_mat.
  split; [done|]. split; [done|].
  rewrite Htr, Htt, (ext_ok _ _ _ _ Hch).
  destruct (bind_result_ok _ _ _ _ H3) as ([] & Hp1 & H4).
  rewrite (bind_ok _ _ _ _ Hp1), (ext_ok _ _ _ _ Hp1). simpl.
  destruct (bind_result_ok _ _ _ _ H4) as ([] & Hp2 & H5).
  rewrite (bind_ok _ _ _ _ Hp2), (ext_ok _ _ _ _ Hp2). simpl.
  destruct (bind_result_ok _ _ _ _ H5) as ([] & Hp3 & H6).
  rewrite (bind_ok _ _ _ _ Hp3), (ext_ok _ _ _ _ Hp3). simpl.
  destruct (ret_ok _ _ _ H6) as [<- _]. done.
Qed.

(** ** Properties of a round *)

(** The indices answered by the [np.random.choice] call that opens a
    round. *)
Definition selected (tr : list event) : option (list nat) :=
  match tr with
  | EvChoice _ _ (inr idxes) :: _ => Some idxes
  | _ => None
  end.

(** [new] is the elementwise mean of [results] over [k], computed as the
    script does: on every array position, the sum of the clients' arrays
    accumulated from [zeros_like] of the old array, divided by [k]. *)
Definition elementwise_mean (old : ptree) (results : list ptree) (k : nat)
    (new : ptree) : Prop :=
  forall path,
    match leaf_at path old with
    | Some a0 =>
        exists xs s,
          Forall2 (fun t x => leaf_at path t = Some x) results xs /\
          leaf_sum arr_add (zeros_like a0) xs = inr s /\
          leaf_at path new = Some (arr_div s k)
    | None => leaf_at path new = None
    end.

(** The [np.random.choice] calls of a trace: population size, sample
    size asked for, and the answer. *)
Definition selections (tr : list event)
  : list (nat * nat * res (list nat)) :=
  omap (fun ev => match ev with
                  | EvChoice n size r => Some (n, size, r)
                  | _ => None
                  end) tr.

(** What numpy documents for the size of a sample: an answer to
    [np.random.choice(_, size, replace=False)] has [size] members. *)
Definition choice_sized (size : nat) (r : res (list nat)) : Prop :=
  forall idxes, r = inr idxes -> length idxes = size.

Definition round_mean_spec (self : FedAvgServer) (k : nat)
    (ds : list (list example)) (tr : list event) (self' : FedAvgServer)
  : Prop :=
  let results := returned_params tr in
  (exists idxes,
      (* the round makes one selection, of [k] out of the server's
         clients, and trains the clients it answered *)
      selections tr = [(_n_clients self, k, inr idxes)] /\
      selected tr = Some idxes /\
      Forall2 (fun i examples => ds !! i = Some examples)
        idxes (fitted_examples tr) /\
      (* there are [k] of them, and one result for each *)
      length idxes = k /\ length results = k) /\
  (* the new tree is the sum of the results, divided by their number *)
  (exists sum,
      tree_sum arr_add (tree_map zeros_like (_params self)) results
        = inr sum /\
      _params self' =
        tree_map (fun x => arr_div x (length results)) sum) /\
  elementwise_mean (_params self) results (length results) (_params self').

Lemma selections_app tr1 tr2 :
  selections (tr1 ++ tr2) = selections tr1 ++ selections tr2.
Proof. apply omap_app. Qed.

Lemma selections_clients self lr bs ep runs :
  selections (concat (client_trace self lr bs ep <$> runs)) = [].
Proof. induction runs as [|[ex p] runs IH]; simpl; done. Qed.

Lemma returned_params_app tr1 tr2 :
  returned_params (tr1 ++ tr2) = returned_params tr1 ++ returned_params tr2.
Proof. apply omap_app. Qed.

Lemma start_params_app tr1 tr2 :
  start_params (tr1 ++ tr2) = start_params tr1 ++ start_params tr2.
Proof. apply omap_app. Qed.

Lemma fitted_examples_app tr1 tr2 :
  fitted_examples (tr1 ++ tr2) = fitted_examples tr1 ++ fitted_examples tr2.
Proof. apply omap_app. Qed.

Lemma elementwise_mean_intro old results k sum :
  tree_sum arr_add (tree_map zeros_like old) results = inr sum ->
  elementwise_mean old results k (tree_map (fun x => arr_div x k) sum).
Proof.
  intros Hsum path.
  pose proof (leaf_at_tree_sum arr_add path _ _ _ Hsum) as H.
  rewrite leaf_at_map in H. rewrite leaf_at_map.
  destruct (leaf_at path old) as [a0|]; simpl in *.
  - destruct H as (xs & s & Hxs & Hs & ->). by exists xs, s.
  - by rewrite H.
Qed.


(** The call that opens a round. *)
Lemma run_round_choice self k ep bs ebs lr ds eval_ds round_idx w :
  let o := run_round self k ep bs ebs lr ds eval_ds round_idx w in
  let r := (lib_choice L (_n_clients self) k w).2 in
  head (trace o) = Some (EvChoice (_n_clients self) k r) /\
  (forall e, r = inl e ->
     result o = inl e /\ trace o = [EvChoice (_n_clients self) k (inl e)]).
Proof.
  cbn zeta. unfold run_round.
  set (m := ext _ _). set (kont := fun _ => _).
  destruct (ext_result (lib_choice L (_n_clients self) k)
              (EvChoice (_n_clients self) k) w) as (Hr & Hw & Ht).
  fold m in Hr, Hw, Ht.
  destruct ((lib_choice L (_n_clients self) k w).2) as [e|idxes] eqn:E.
  - rewrite (bind_err m kont w e Hr). simpl. rewrite Ht.
    split; [done|]. by intros e' [= ->].
  - rewrite (bind_ok m kont w idxes Hr). simpl. rewrite Ht. done.
Qed.

(** C1.  In a round of [FedAvgServer.run] that completes, with numpy
    answering a sample of the size asked for, the server's parameter
    tree after the round is the elementwise arithmetic mean of the trees
    returned by [train_client] for the clients selected in the round:
    the round selects [n_clients_per_round] clients, obtains one tree
    from each, and the new tree is the tree_map sum of these
    [n_clients_per_round] trees (accumulated from zeros) divided by
    [n_clients_per_round], their number. *)
Theorem round_params_are_client_mean
    self k ep bs ebs lr ds eval_ds round_idx w self' :
  result (run_round self k ep bs ebs lr ds eval_ds round_idx w)
    = inr self' ->
  choice_sized k (lib_choice L (_n_clients self) k w).2 ->
  round_mean_spec self k ds
    (trace (run_round self k ep bs ebs lr ds eval_ds round_idx w)) self'.
Proof.
  intros H Hsized.
  destruct (run_round_choice self k ep bs ebs lr ds eval_ds round_idx w)
    as [Hhead _].
  destruct (run_round_ok _ _ _ _ _ _ _ _ _ _ _ H)
    as (idxes & runs & sum & preds & labels & acc & cm
        & Hruns & Hsum & -> & Htr).
  rewrite Htr in Hhead |- *. simpl in Hhead.
  assert (Hk : length idxes = k).
  { apply Hsized. by injection Hhead as <-. }
  assert (Hlen : length runs = k).
  { rewrite <- Hk. symmetry. by eapply Forall2_length. }
  unfold round_mean_spec. cbn zeta.
  change (EvChoice ?a ?b ?c :: ?l) with ([EvChoice a b c] ++ l).
  rewrite !returned_params_app, !selections_app, !fitted_examples_app.
  rewrite returned_params_clients, selections_clients,
    fitted_examples_clients.
  simpl. rewrite !app_nil_r, length_fmap, Hlen.
  split; [|split].
  - exists idxes. repeat split; try done.
    clear -Hruns. induction Hruns; simpl; by constructor.
  - by exists sum.
  - by apply elementwise_mean_intro.
Qed.

(** The parameters handed to [predictor.predict]. *)
Definition predict_params (tr : list event) : list ptree :=
  omap (fun ev => match ev with
                  | EvPredict _ _ _ p _ => Some p
                  | _ => None
                  end) tr.

Lemma predict_params_app tr1 tr2 :
  predict_params (tr1 ++ tr2) = predict_params tr1 ++ predict_params tr2.
Proof. apply omap_app. Qed.

Lemma predict_params_clients self lr bs ep runs :
  predict_params (concat (client_trace self lr bs ep <$> runs)) = [].
Proof. induction runs as [|[ex p] runs IH]; simpl; done. Qed.

Definition round_rebind_spec (self : FedAvgServer) (k : nat)
    (tr : list event) (self' : FedAvgServer) : Prop :=
  (* during the round the held parameters stay as they were: every
     training run is started from them *)
  start_params tr
    = replicate (length (returned_params tr)) (_params self) /\
  (* the script then rebinds [_params], and nothing else, to the tree it
     computed itself from the clients' results *)
  (exists sum,
      tree_sum arr_add (tree_map zeros_like (_params self))
        (returned_params tr) = inr sum /\
      self' = set_params self (tree_map (fun x => arr_div x k) sum)) /\
  (* and evaluates the rebound parameters *)
  predict_params tr = [_params self'].

(** C2 (amended).  Within a round the server-held parameters are left
    alone while the clients are trained (each [train_client] call starts
    the trainer from the parameters held at the start of the round);
    at the end of the round the script itself rebinds [self._params],
    once, to the averaged tree, which is the tree the evaluation uses. *)
Theorem round_rebinds_params_once
    self k ep bs ebs lr ds eval_ds round_idx w self' :
  result (run_round self k ep bs ebs lr ds eval_ds round_idx w)
    = inr self' ->
  round_rebind_spec self k
    (trace (run_round self k ep bs ebs lr ds eval_ds round_idx w)) self'.
Proof.
  intros H.
  destruct (run_round_ok _ _ _ _ _ _ _ _ _ _ _ H)
    as (idxes & runs & sum & preds & labels & acc & cm
        & Hruns & Hsum & -> & ->).
  unfold round_rebind_spec.
  change (EvChoice ?a ?b ?c :: ?l) with ([EvChoice a b c] ++ l).
  rewrite !returned_params_app, !start_params_app, !predict_params_app.
  rewrite returned_params_clients, start_params_clients,
    predict_params_clients.
  simpl. rewrite !app_nil_r, length_fmap.
  split; [done|]. split; [|done]. by exists sum.
Qed.

Definition training_free (tr : list event) : Prop :=
  start_params tr = [] /\ fitted_examples tr = [] /\
  returned_params tr = [].

Definition round_order_spec (self : FedAvgServer) (k : nat) (lr : num)
    (bs ep : nat) (ds : list (list example)) (tr : list event) : Prop :=
  exists idxes (runs : list (list example * ptree)) rest,
    Forall2 (fun i run => ds !! i = Some run.1) idxes runs /\
    tr = EvChoice (_n_clients self) k (inr idxes)
           :: concat (client_trace self lr bs ep <$> runs) ++ rest /\
    training_free rest.

(** X27.  The library calls of a completed round come in one sequence:
    the selection, then for each selected client, in selection order,
    the four calls of its training run (set_train_state, the size
    report, fit, the read of trainer.params), the calls of one client
    all before those of the next, and no training call after them. *)
Theorem round_clients_trained_in_selection_order
    self k ep bs ebs lr ds eval_ds round_idx w self' :
  result (run_round self k ep bs ebs lr ds eval_ds round_idx w)
    = inr self' ->
  round_order_spec self k lr bs ep ds
    (trace (run_round self k ep bs ebs lr ds eval_ds round_idx w)).
Proof.
  intros H.
  destruct (run_round_ok _ _ _ _ _ _ _ _ _ _ _ H)
    as (idxes & runs & sum & preds & labels & acc & cm
        & Hruns & Hsum & -> & ->).
  exists idxes, runs. eexists. split; [done|]. split; [done|].
  by repeat split.
Qed.

(** ** The selection *)

(** What numpy documents for [np.random.choice(np.arange(n), k,
    replace=False)]: a sample has [k] pairwise distinct members of
    [0 .. n-1]; the call raises when [k > n]. *)
Definition distinct_sample (n k : nat) (idxes : list nat) : Prop :=
  length idxes = k /\ NoDup idxes /\ Forall (fun i => i < n) idxes.

Definition choice_contract (n k : nat) (r : res (list nat)) : Prop :=
  match r with
  | inr idxes => distinct_sample n k idxes
  | inl _ => True
  end /\ (n < k -> is_ok r = false).



(** ** Failures in a run of the server *)



Lemma client_step_faithful self ds lr bs ep acc i :
  faithful ev_exn (client_step self ds lr bs ep acc i).
Proof. unfold client_step. faithful_auto. Qed.

Lemma run_round_faithful self k ep bs ebs lr ds eval_ds round_idx :
  faithful ev_exn (run_round self k ep bs ebs lr ds eval_ds round_idx).
Proof. unfold run_round. faithful_auto. Qed.









(** ** Further properties of [run] and [test] *)

(** The library objects and the client count of a server. *)
Definition same_server (self self' : FedAvgServer) : Prop :=
  _deployer self' = _deployer self /\ _model self' = _model self /\
  _n_clients self' = _n_clients self /\ _trainer self' = _trainer self /\
  _predictor self' = _predictor self.

Lemma same_server_refl self : same_server self self.
Proof. by repeat split. Qed.

Lemma run_round_same_server self0 self k ep bs ebs lr ds eval_ds round_idx w
    self' :
  same_server self0 self ->
  result (run_round self k ep bs ebs lr ds eval_ds round_idx w) = inr self' ->
  same_server self0 self'.
Proof.
  intros Hs H.
  destruct (run_round_ok _ _ _ _ _ _ _ _ _ _ _ H)
    as (idxes & runs & sum & preds & labels & acc & cm & _ & _ & -> & _).
  exact Hs.
Qed.

(** X1.  A run of [FedAvgServer.run] that completes, of any number of
    rounds, leaves the server with the deployer, model, trainer, predictor
    and client count it started with: only [_params] is ever rebound. *)
Theorem run_keeps_server_objects
    self n_rounds k ep bs ebs lr ds eval_ds w self' :
  result (run self n_rounds k ep bs ebs lr ds eval_ds w) = inr self' ->
  same_server self self'.
Proof.
  unfold run.
  apply (for_fold_ok_inv (same_server self)); [|apply same_server_refl].
  intros s x w0 s'. apply run_round_same_server.
Qed.

Lemma round_sum_rebound
    self k ep bs ebs lr ds eval_ds round_idx w self' :
  result (run_round self k ep bs ebs lr ds eval_ds round_idx w) = inr self' ->
  exists sum,
    tree_sum arr_add (tree_map zeros_like (_params self))
      (returned_params
         (trace (run_round self k ep bs ebs lr ds eval_ds round_idx w)))
      = inr sum /\
    self' = set_params self (tree_map (fun x => arr_div x k) sum).
Proof.
  intros H.
  destruct (run_round_ok _ _ _ _ _ _ _ _ _ _ _ H)
    as (idxes & runs & sum & preds & labels & acc & cm
        & Hruns & Hsum & -> & ->).
  exists sum. split; [|done].
  change (EvChoice ?a ?b ?c :: ?l) with ([EvChoice a b c] ++ l).
  rewrite !returned_params_app, returned_params_clients. simpl.
  by rewrite app_nil_r.
Qed.

Lemma run_round_skeleton self k ep bs ebs lr ds eval_ds round_idx w self' :
  result (run_round self k ep bs ebs lr ds eval_ds round_idx w) = inr self' ->
  skeleton_of (_params self') = skeleton_of (_params self) /\
  Forall (fun t => skeleton_of t = skeleton_of (_params self))
    (returned_params
       (trace (run_round self k ep bs ebs lr ds eval_ds round_idx w))).
Proof.
  intros H.
  destruct (round_sum_rebound _ _ _ _ _ _ _ _ _ _ _ H)
    as (sum & Hsum & ->).
  destruct (skeleton_of_tree_sum _ _ _ _ Hsum) as [Hs Hall].
  rewrite skeleton_of_map in Hs, Hall. simpl.
  by rewrite skeleton_of_map, Hs.
Qed.

(** X2.  A run of [FedAvgServer.run] that completes keeps the structure
    of the server's parameter tree (keys, nesting, frozen or plain
    dictionaries): averaging changes the arrays only. *)
Theorem run_keeps_tree_structure
    self n_rounds k ep bs ebs lr ds eval_ds w self' :
  result (run self n_rounds k ep bs ebs lr ds eval_ds w) = inr self' ->
  skeleton_of (_params self') = skeleton_of (_params self).
Proof.
  unfold run.
  apply (for_fold_ok_inv
           (fun s => skeleton_of (_params s) = skeleton_of (_params self)));
    [|done].
  intros s x w0 s' Hs H.
  destruct (run_round_skeleton _ _ _ _ _ _ _ _ _ _ _ H) as [-> _]. exact Hs.
Qed.

(** X3.  In a round that completes, every tree the trainer returned has
    the structure of the tree the server held: a trainer answering a
    tree of another structure (a plain dict for a FrozenDict, a missing
    layer) makes the round raise instead. *)
Theorem round_results_have_server_structure
    self k ep bs ebs lr ds eval_ds round_idx w self' :
  result (run_round self k ep bs ebs lr ds eval_ds round_idx w) = inr self' ->
  Forall (fun t => skeleton_of t = skeleton_of (_params self))
    (returned_params
       (trace (run_round self k ep bs ebs lr ds eval_ds round_idx w))).
Proof. intros H. by destruct (run_round_skeleton _ _ _ _ _ _ _ _ _ _ _ H). Qed.

(** What [run] asks of the libraries, for a server [self]. *)
Definition call_as_configured (self : FedAvgServer) (k ep bs ebs : nat)
    (lr : num) (ds : list (list example)) (eval_ds : list example)
    (ev : event) : Prop :=
  match ev with
  | EvChoice n size _ => n = _n_clients self /\ size = k
  | EvSetTrainState trainer model _ opt step _ =>
      trainer = _trainer self /\ model = _model self /\
      opt = adam lr /\ step = 0
  | EvFit trainer examples bs' ep' _ =>
      trainer = _trainer self /\ examples ∈ ds /\ bs' = bs /\ ep' = ep
  | EvTrainerParams trainer _ => trainer = _trainer self
  | EvPredict predictor examples bs' _ _ =>
      predictor = _predictor self /\ examples = eval_ds /\ bs' = ebs
  | EvTrainer _ _ _ _ _ | EvPredictor _ _ _ => False
  | EvAccuracy _ _ _ | EvConfusionMatrix _ _ _ | EvPrint _ _ => True
  end.

Lemma run_round_calls_as_configured self0 self k ep bs ebs lr ds eval_ds
    round_idx :
  same_server self0 self ->
  emits (call_as_configured self0 k ep bs ebs lr ds eval_ds)
    (run_round self k ep bs ebs lr ds eval_ds round_idx).
Proof.
  intros (Hd & Hm & Hn & Ht & Hp). unfold run_round.
  apply emits_bind; [by apply emits_ext|]. intros idxes.
  apply emits_bind.
  { apply emits_for_fold. intros acc i. unfold client_step.
    apply emits_bind_ok; [apply emits_lift|]. intros examples [w Hw].
    assert (examples ∈ ds) as Hin.
    { unfold lift, list_getitem in Hw. simpl in Hw.
      destruct (ds !! i) as [ex|] eqn:E; [|done]. injection Hw as <-.
      by eapply list_elem_of_lookup_2. }
    apply emits_bind; [|intros; apply emits_lift].
    unfold train_client.
    repeat (apply emits_bind; [|intros]); by apply emits_ext. }
  intros sum. apply emits_bind.
  { unfold test. repeat (apply emits_bind; [|intros]);
      first [by apply emits_ext | apply emits_lift | apply emits_ret]. }
  intros [acc cm].
  repeat (apply emits_bind; [|intros]);
    first [by apply emits_ext | apply emits_ret].
Qed.

Lemma run_emits_configured self n_rounds k ep bs ebs lr ds eval_ds :
  emits (call_as_configured self k ep bs ebs lr ds eval_ds)
    (run self n_rounds k ep bs ebs lr ds eval_ds).
Proof.
  unfold run.
  apply (emits_for_fold_inv _ (same_server self));
    [| |apply same_server_refl].
  - intros s x Hs _. by apply run_round_calls_as_configured.
  - intros s x w0 s'. apply run_round_same_server.
Qed.

(** X4.  In every run of [FedAvgServer.run], whether it completes or
    not, the server's one trainer is the only one trained and read, each
    training is restarted at step 0 with a fresh adam(learning_rate) and
    fits one of the client datasets with the configured batch size and
    epochs; the server's one predictor only ever predicts on the
    evaluation dataset; every selection draws [n_clients_per_round] of
    [n_clients]; and no trainer or predictor is constructed. *)
Theorem run_calls_as_configured
    self n_rounds k ep bs ebs lr ds eval_ds w :
  Forall (call_as_configured self k ep bs ebs lr ds eval_ds)
    (trace (run self n_rounds k ep bs ebs lr ds eval_ds w)).
Proof. apply run_emits_configured. Qed.

(** X5.  [FedAvgServer.test] reads the labels only after the predictions
    are made: when an evaluation example has no 'label', the call raises
    KeyError('label') after [predict] has run, and neither the accuracy
    nor the confusion matrix is computed. *)
Theorem test_missing_label self examples bs w preds :
  (lib_predict L (_predictor self) examples bs (_params self) w).2
    = inr preds ->
  Exists (fun ex : example => ex !! "label" = None) examples ->
  result (test self examples bs w) = inl (KeyError "label") /\
  trace (test self examples bs w)
    = [EvPredict (_predictor self) examples bs (_params self) (inr preds)].
Proof.
  intros Hp Hex. unfold test, bind, ext, lift.
  destruct (lib_predict _ _ _ _ _ w) as [w1 r]. simpl in Hp. subst r.
  simpl. by rewrite (res_mapM_getitem_err "label" examples Hex).
Qed.

(** X6.  A round raises IndexError at the first selected client that has
    no dataset ([client_train_datasets] shorter than [n_clients]): the
    calls of the round are the selection and the calls made for the
    clients selected before that one, so the clients selected after it
    are never trained and no evaluation is made. *)
Theorem round_stops_at_client_without_dataset
    self k ep bs ebs lr ds eval_ds round_idx w pre i post acc1 :
  (lib_choice L (_n_clients self) k w).2 = inr (pre ++ i :: post) ->
  result (for_fold pre (client_step self ds lr bs ep)
            (tree_map zeros_like (_params self))
            (lib_choice L (_n_clients self) k w).1) = inr acc1 ->
  ds !! i = None ->
  result (run_round self k ep bs ebs lr ds eval_ds round_idx w)
    = inl IndexError /\
  trace (run_round self k ep bs ebs lr ds eval_ds round_idx w)
    = EvChoice (_n_clients self) k (inr (pre ++ i :: post))
        :: trace (for_fold pre (client_step self ds lr bs ep)
                    (tree_map zeros_like (_params self))
                    (lib_choice L (_n_clients self) k w).1).
Proof.
  intros Hch Hpre Hi. unfold run_round.
  destruct (ext_result (lib_choice L (_n_clients self) k)
              (EvChoice (_n_clients self) k) w) as (Hr & Hw & Ht).
  rewrite Hch in Hr, Ht.
  rewrite (bind_ok _ _ _ _ Hr). simpl. rewrite Ht, Hw.
  assert (Hstep : result (client_step self ds lr bs ep acc1 i
                    (world (for_fold pre (client_step self ds lr bs ep)
                       (tree_map zeros_like (_params self))
                       (lib_choice L (_n_clients self) k w).1)))
                  = inl IndexError).
  { unfold client_step, list_getitem, bind, lift. by rewrite Hi. }
  destruct (for_fold_stops pre post i _ _ _ _ _ Hpre Hstep) as [Hres Htr].
  rewrite (bind_err _ _ _ _ Hres). simpl. split; [done|].
  rewrite Htr. unfold client_step, list_getitem, bind, lift. rewrite Hi.
  simpl. by rewrite app_nil_r.
Qed.
End FedAvg.

(** ** A concrete run

    Arrays are integers; the world counts the [fit] calls made so far, and
    [trainer.params] answers a tree whose two arrays hold twice that
    count.  The sampler answers the first [k] clients. *)

Definition demo_tree (b k : Z) : @ptree Z :=
  Node true [("bias", Leaf b); ("kernel", Leaf k)].

Definition demo_choice (n k : nat) (w : nat) : nat * res (list nat) :=
  (w, if decide (k <= n) then inr (seq 0 k)
      else inl (Raise "ValueError"
                  "Cannot take a larger sample than population"))%nat.

Definition demo_library : @library nat Z Z Z string :=
  {| lib_Trainer := fun _ _ _ _ w => (w, inr "trainer");
     lib_Predictor := fun _ _ w => (w, inr "predictor");
     lib_choice := demo_choice;
     lib_set_train_state := fun _ _ _ _ _ w => (w, inr ());
     lib_fit := fun _ _ _ _ w => (S w, inr ());
     lib_trainer_params := fun _ w =>
       (w, inr (demo_tree (2 * Z.of_nat w) (2 * Z.of_nat w)));
     lib_predict := fun _ examples _ _ w => (w, inr ((fun _ => 0%Z) <$> examples));
     lib_accuracy := fun _ _ w => (w, inr 1%Z);
     lib_confusion_matrix := fun _ _ w => (w, inr "conf_mat");
     lib_print := fun _ w => (w, inr ()) |}.

Definition demo_zeros_like (x : Z) : Z := 0%Z.
Definition demo_add (x y : Z) : res Z := inr (x + y)%Z.
Definition demo_div (x : Z) (n : nat) : Z := (x / Z.of_nat n)%Z.

Definition demo_server : @FedAvgServer Z string :=
  Server "deployer" "cnn" (demo_tree 0 0) 3 "trainer" "predictor".

Definition demo_datasets : list (list (gmap string Z)) :=
  [ [ {["label" := 0%Z]} ]; [ {["label" := 1%Z]} ]; [ {["label" := 2%Z]} ] ].

Definition demo_eval : list (gmap string Z) := [ {["label" := 0%Z]} ].

(** One round with two clients per round, from a world with no fit. *)
Definition demo_round (k : nat) : outcome nat event FedAvgServer :=
  run_round demo_zeros_like demo_add demo_div demo_library
    demo_server k 5 10 100 1%Z demo_datasets demo_eval 0 0.

Definition demo_server' : @FedAvgServer Z string :=
  Server "deployer" "cnn" (demo_tree 3 3) 3 "trainer" "predictor".

Lemma demo_round_result : result (demo_round 2) = inr demo_server'.
Proof. vm_compute. reflexivity. Qed.

Lemma round_params_are_client_mean_witness :
  result (demo_round 2) = inr demo_server' /\
  choice_sized 2 (demo_choice 3 2 0).2 /\
  round_mean_spec demo_zeros_like demo_add demo_div demo_server 2
    demo_datasets (trace (demo_round 2)) demo_server'.
Proof.
  assert (Hs : choice_sized 2 (demo_choice 3 2 0).2).
  { intros idxes [= <-]. reflexivity. }
  split; [vm_compute; reflexivity|]. split; [exact Hs|].
  apply (round_params_are_client_mean demo_zeros_like demo_add demo_div
           demo_library demo_server 2 5 10 100 1%Z demo_datasets demo_eval
           0 0 demo_server'); [|exact Hs].
  vm_compute. reflexivity.
Defined.

(** The size of the sample matters: were the sampler to answer three
    clients when asked for two, the round would train three clients and
    divide the sum of their three results by two. *)
Definition demo_library_oversampling : @library nat Z Z Z string :=
  {| lib_Trainer := lib_Trainer demo_library;
     lib_Predictor := lib_Predictor demo_library;
     lib_choice := fun n k w => (w, inr (seq 0 (S k)));
     lib_set_train_state := lib_set_train_state demo_library;
     lib_fit := lib_fit demo_library;
     lib_trainer_params := lib_trainer_params demo_library;
     lib_predict := lib_predict demo_library;
     lib_accuracy := lib_accuracy demo_library;
     lib_confusion_matrix := lib_confusion_matrix demo_library;
     lib_print := lib_print demo_library |}.

Example demo_round_oversampled :
  let o := run_round demo_zeros_like demo_add demo_div
             demo_library_oversampling demo_server 2 5 10 100 1%Z
             demo_datasets demo_eval 0 0 in
  returned_params (trace o) = [demo_tree 2 2; demo_tree 4 4; demo_tree 6 6] /\
  res_map _params (result o) = inr (demo_tree 6 6).
Proof. split; vm_compute; reflexivity. Qed.

(** C2, as stated, fails: a round changes the parameters the server
    holds, and the new tree is none of the trees the trainer returned: it
    is built by the script's own tree_map calls and bound by the script's
    own assignment. *)
Lemma round_changes_server_params :
  exists self',
    result (demo_round 2) = inr self' /\
    _params self' <> _params demo_server /\
    _params self' ∉ returned_params (trace (demo_round 2)).
Proof.
  exists demo_server'. split; [vm_compute; reflexivity|].
  split; [discriminate|].
  vm_compute. intros H.
  repeat (apply elem_of_cons in H as [H|H]; [discriminate|]).
  by apply elem_of_nil in H.
Qed.

Lemma round_rebinds_params_once_witness :
  result (demo_round 2) = inr demo_server' /\
  round_rebind_spec demo_zeros_like demo_add demo_div demo_server 2
    (trace (demo_round 2)) demo_server'.
Proof.
  split; [vm_compute; reflexivity|].
  apply (round_rebinds_params_once demo_zeros_like demo_add demo_div
           demo_library demo_server 2 5 10 100 1%Z demo_datasets demo_eval
           0 0 demo_server').
  vm_compute. reflexivity.
Defined.

Lemma round_clients_trained_in_selection_order_witness :
  result (demo_round 2) = inr demo_server' /\
  round_order_spec demo_server 2 1%Z 10 5 demo_datasets
    (trace (demo_round 2)).
Proof.
  split; [vm_compute; reflexivity|].
  apply (round_clients_trained_in_selection_order demo_zeros_like demo_add
           demo_div demo_library demo_server 2 5 10 100 1%Z demo_datasets
           demo_eval 0 0 demo_server').
  vm_compute. reflexivity.
Defined.

Lemma demo_choice_contract n k w : choice_contract n k (demo_choice n k w).2.
Proof.
  unfold choice_contract, demo_choice. simpl.
  case_decide; simpl; split; try done; try lia.
  repeat split; [apply length_seq|apply NoDup_seq|].
  apply Forall_forall. intros i Hi. apply elem_of_seq in Hi. lia.
Qed.


(** With four clients per round and three clients the round stops at the
    selection. *)
Example demo_round_too_many :
  result (demo_round 4) =
    inl (Raise "ValueError" "Cannot take a larger sample than population") /\
  length (trace (demo_round 4)) = 1.
Proof. vm_compute. done. Qed.

(** ** Concrete runs for the further properties *)

(** Two rounds of two clients each. *)
Definition demo_run (n_rounds : nat) : outcome nat event FedAvgServer :=
  run demo_zeros_like demo_add demo_div demo_library
    demo_server n_rounds 2 5 10 100 1%Z demo_datasets demo_eval 0.

Definition demo_server2 : @FedAvgServer Z string :=
  Server "deployer" "cnn" (demo_tree 7 7) 3 "trainer" "predictor".

Lemma run_keeps_server_objects_witness :
  result (demo_run 2) = inr demo_server2 /\
  same_server demo_server demo_server2.
Proof.
  split; [vm_compute; reflexivity|].
  apply (run_keeps_server_objects demo_zeros_like demo_add demo_div
           demo_library demo_server 2 2 5 10 100 1%Z demo_datasets demo_eval
           0 demo_server2).
  vm_compute. reflexivity.
Defined.

Lemma run_keeps_tree_structure_witness :
  result (demo_run 2) = inr demo_server2 /\
  skeleton_of (_params demo_server2) = skeleton_of (_params demo_server).
Proof.
  split; [vm_compute; reflexivity|].
  apply (run_keeps_tree_structure demo_zeros_like demo_add demo_div
           demo_library demo_server 2 2 5 10 100 1%Z demo_datasets demo_eval
           0 demo_server2).
  vm_compute. reflexivity.
Defined.

Lemma round_results_have_server_structure_witness :
  result (demo_round 2) = inr demo_server' /\
  Forall (fun t => skeleton_of t = skeleton_of (_params demo_server))
    (returned_params (trace (demo_round 2))).
Proof.
  split; [vm_compute; reflexivity|].
  apply (round_results_have_server_structure demo_zeros_like demo_add
           demo_div demo_library demo_server 2 5 10 100 1%Z demo_datasets
           demo_eval 0 0 demo_server').
  vm_compute. reflexivity.
Defined.

(** A trainer that answers a plain dictionary where the server holds a
    FrozenDict: the first addition raises. *)
Definition demo_library_plain : @library nat Z Z Z string :=
  {| lib_Trainer := lib_Trainer demo_library;
     lib_Predictor := lib_Predictor demo_library;
     lib_choice := demo_choice;
     lib_set_train_state := lib_set_train_state demo_library;
     lib_fit := lib_fit demo_library;
     lib_trainer_params := fun _ w =>
       (w, inr (Node false [("bias", Leaf 1%Z); ("kernel", Leaf 1%Z)]));
     lib_predict := lib_predict demo_library;
     lib_accuracy := lib_accuracy demo_library;
     lib_confusion_matrix := lib_confusion_matrix demo_library;
     lib_print := lib_print demo_library |}.

Example demo_round_plain_dict_raises :
  result (run_round demo_zeros_like demo_add demo_div demo_library_plain
            demo_server 2 5 10 100 1%Z demo_datasets demo_eval 0 0)
  = inl TreeStructureError.
Proof. vm_compute. reflexivity. Qed.

(** An evaluation example without a label. *)
Definition demo_unlabelled : list (gmap string Z) :=
  [ {["label" := 0%Z]}; {["image" := 5%Z]} ].

Lemma test_missing_label_witness :
  (lib_predict demo_library (_predictor demo_server) demo_unlabelled 100
     (_params demo_server) 0).2 = inr [0%Z; 0%Z] /\
  Exists (fun ex : gmap string Z => ex !! "label" = None) demo_unlabelled /\
  result (test demo_library demo_server demo_unlabelled 100 0)
    = inl (KeyError "label") /\
  trace (test demo_library demo_server demo_unlabelled 100 0)
    = [EvPredict (_predictor demo_server) demo_unlabelled 100
         (_params demo_server) (inr [0%Z; 0%Z])].
Proof.
  assert (H1 : (lib_predict demo_library (_predictor demo_server)
                  demo_unlabelled 100 (_params demo_server) 0).2
               = inr [0%Z; 0%Z]) by reflexivity.
  assert (H2 : Exists (fun ex : gmap string Z => ex !! "label" = None)
                 demo_unlabelled).
  { apply Exists_cons_tl, Exists_cons_hd. vm_compute. reflexivity. }
  split; [exact H1|]. split; [exact H2|].
  exact (test_missing_label demo_library demo_server demo_unlabelled 100 0
           [0%Z; 0%Z] H1 H2).
Defined.

(** Three clients to sample from, but a dataset for the first only. *)
Definition demo_one_dataset : list (list (gmap string Z)) :=
  [ [ {["label" := 0%Z]} ] ].

Lemma round_stops_at_client_without_dataset_witness :
  (lib_choice demo_library 3 2 0).2 = inr ([0] ++ 1 :: []) /\
  demo_one_dataset !! 1 = None /\
  result (run_round demo_zeros_like demo_add demo_div demo_library
            demo_server 2 5 10 100 1%Z demo_one_dataset demo_eval 0 0)
    = inl IndexError /\
  length (fitted_examples
            (trace (run_round demo_zeros_like demo_add demo_div demo_library
                      demo_server 2 5 10 100 1%Z demo_one_dataset demo_eval
                      0 0))) = 1.
Proof.
  assert (H1 : (lib_choice demo_library 3 2 0).2 = inr ([0] ++ 1 :: []))
    by reflexivity.
  assert (H2 : demo_one_dataset !! 1 = None) by reflexivity.
  split; [exact H1|]. split; [exact H2|].
  destruct (round_stops_at_client_without_dataset demo_zeros_like demo_add
              demo_div demo_library demo_server 2 5 10 100 1%Z
              demo_one_dataset demo_eval 0 0 [0] 1 [] (demo_tree 2 2) H1)
    as [Hres Htr]; [vm_compute; reflexivity|exact H2|].
  split; [exact Hres|]. rewrite Htr. vm_compute. reflexivity.
Defined.
End FedAvg.


(* ===================================================================== *)
(** * examples/faderated_learning/main.py: main *)

(** A program of one script run inside another: its calls are logged
    under the outer script's events. *)
Definition map_trace {W Ev Ev' A} (f : Ev -> Ev') (p : prog W Ev A)
  : prog W Ev' A :=
  fun w => let o := p w in Outcome (world o) (f <$> trace o) (result o).

Lemma emits_map_trace {W Ev Ev' A} (Q : Ev' -> Prop) (f : Ev -> Ev')
    (p : prog W Ev A) :
  emits (fun ev => Q (f ev)) p -> emits Q (map_trace f p).
Proof. intros Hp w. simpl. apply Forall_fmap. apply Hp. Qed.




Module FedAvgMain.
Import Tree FedAvg.
Section Main.
Context {W arr num pyval obj : Type}.
Variable zeros_like : arr -> arr.
Variable arr_add : arr -> arr -> res arr.
Variable arr_div : arr -> nat -> arr.
Variable lr_zero : num.

Abbreviation ptree := (@ptree arr).
Abbreviation example := (gmap string pyval).

(** The parameters of [main]. *)
Record main_args : Type := MainArgs {
  data_dir : string;
  dataset_name : string;
  n_clients : nat;
  n_data_shards : nat;
  n_rounds : nat;
  n_clients_per_round : nat;
  n_client_epochs_per_round : nat;
  per_device_batch_size : nat;
  eval_per_device_batch_size : nat;
  learning_rate : num;
  jax_seed : nat
}.

(** The calls [main] makes before it builds the server.  [get_dataset],
    [CNN] and [collate_fn] come from data_utils and model_utils, which
    are outside the sources at hand: they are oracles like the library
    calls. *)
Inductive setup_event : Type :=
| EvDeployer (jax_seed : nat) (r : res obj)
| EvGetDataset (data_dir dataset_name : string)
    (n_clients n_data_shards : nat)
    (r : res (list (list example) * list example))
| EvCNN (r : res obj)
| EvCollate (examples : list example) (r : res (gmap string pyval))
| EvGenRng (deployer : obj) (r : res obj)
| EvModelInit (model rng : obj) (images : pyval)
    (r : res (gmap string ptree)).

(** The calls of a run of [main]: its own, and those of the server. *)
Abbreviation event := (setup_event + @FedAvg.event arr num pyval obj)%type.

Record setup_library : Type := SetupLibrary {
  (* Deployer(jax_seed=jax_seed, verbose=False) *)
  lib_Deployer : nat -> W -> W * res obj;
  (* get_dataset(data_dir, dataset_name, n_clients, n_data_shards) *)
  lib_get_dataset :
    string -> string -> nat -> nat ->
    W -> W * res (list (list example) * list example);
  (* CNN() *)
  lib_CNN : W -> W * res obj;
  (* collate_fn(examples) of model_utils *)
  lib_collate_fn : list example -> W -> W * res (gmap string pyval);
  (* deployer.gen_rng() *)
  lib_gen_rng : obj -> W -> W * res obj;
  (* model.init(rng, images) *)
  lib_model_init : obj -> obj -> pyval -> W -> W * res (gmap string ptree)
}.

Variable S0 : setup_library.
Variable L : @FedAvg.library W arr num pyval obj.

Local Open Scope prog_scope.

(** [main]. *)
Definition main (a : main_args) : prog W event unit :=
  deployer <- ext (lib_Deployer S0 (jax_seed a))
                  (fun r => inl (EvDeployer (jax_seed a) r)) ;;
  bind (ext (lib_get_dataset S0 (data_dir a) (dataset_name a) (n_clients a)
               (n_data_shards a))
            (fun r => inl (EvGetDataset (data_dir a) (dataset_name a)
                             (n_clients a) (n_data_shards a) r)))
    (fun '(client_train_datasets, eval_dataset) =>
       model <- ext (lib_CNN S0) (fun r => inl (EvCNN r)) ;;
       example0 <- lift (list_getitem eval_dataset 0) ;;
       dummy_batch <- ext (lib_collate_fn S0 [example0])
                          (fun r => inl (EvCollate [example0] r)) ;;
       rng <- ext (lib_gen_rng S0 deployer)
                  (fun r => inl (EvGenRng deployer r)) ;;
       images <- lift (getitem dummy_batch "images") ;;
       variables <- ext (lib_model_init S0 model rng images)
                        (fun r => inl (EvModelInit model rng images r)) ;;
       params <- lift (getitem variables "params") ;;
       server <- map_trace inr
                   (FedAvg.init L lr_zero deployer model params
                      (n_clients a)) ;;
       map_trace inr
         (FedAvg.run zeros_like arr_add arr_div L server (n_rounds a)
            (n_clients_per_round a) (n_client_epochs_per_round a)
            (per_device_batch_size a) (eval_per_device_batch_size a)
            (learning_rate a) client_train_datasets eval_dataset) ;;;
       ret ()).

(** The exception a logged call ended with, if any. *)
Definition ev_exn (ev : event) : option exn :=
  match ev with
  | inl (EvDeployer _ (inl e)) | inl (EvGetDataset _ _ _ _ (inl e))
  | inl (EvCNN (inl e)) | inl (EvCollate _ (inl e))
  | inl (EvGenRng _ (inl e)) | inl (EvModelInit _ _ _ (inl e)) => Some e
  | inl _ => None
  | inr ev => FedAvg.ev_exn ev
  end.



(** ** Properties of [main] *)

(** The datasets [get_dataset] answered in a run, if it returned. *)
Definition dataset_answer (tr : list event)
  : option (list (list example) * list example) :=
  match tr with
  | _ :: inl (EvGetDataset _ _ _ _ (inr r)) :: _ => Some r
  | _ => None
  end.

(** A call of the server made on the datasets [get_dataset] answered and
    with the counts [main] was given. *)
Definition call_on_datasets (a : main_args) (ds : list (list example))
    (eval_ds : list example) (ev : event) : Prop :=
  match ev with
  | inr (EvFit _ examples bs ep _) =>
      examples ∈ ds /\ bs = per_device_batch_size a /\
      ep = n_client_epochs_per_round a
  | inr (EvPredict _ examples bs _ _) =>
      examples = eval_ds /\ bs = eval_per_device_batch_size a
  | inr (EvChoice n size _) =>
      n = n_clients a /\ size = n_clients_per_round a
  | inr (EvSetTrainState _ _ _ opt step _) =>
      opt = adam (learning_rate a) /\ step = 0
  | _ => True
  end.

(** A call that is none of the server's. *)
Definition is_setup (ev : event) : Prop :=
  match ev with inl _ => True | inr _ => False end.

Definition main_datasets_spec (a : main_args) (tr : list event) : Prop :=
  match dataset_answer tr with
  | Some (ds, eval_ds) => Forall (call_on_datasets a ds eval_ds) tr
  | None => Forall is_setup tr
  end.

Lemma emits_impl {W' Ev A} (Q Q' : Ev -> Prop) (p : prog W' Ev A) :
  (forall ev, Q ev -> Q' ev) -> emits Q p -> emits Q' p.
Proof. intros HQ Hp w. eapply Forall_impl; [apply Hp|exact HQ]. Qed.

(** What [main] does once the datasets are there. *)
Definition main_rest (a : main_args) (deployer : obj)
    (client_train_datasets : list (list example))
    (eval_dataset : list example) : prog W event unit :=
  model <- ext (lib_CNN S0) (fun r => inl (EvCNN r)) ;;
  example0 <- lift (list_getitem eval_dataset 0) ;;
  dummy_batch <- ext (lib_collate_fn S0 [example0])
                     (fun r => inl (EvCollate [example0] r)) ;;
  rng <- ext (lib_gen_rng S0 deployer)
             (fun r => inl (EvGenRng deployer r)) ;;
  images <- lift (getitem dummy_batch "images") ;;
  variables <- ext (lib_model_init S0 model rng images)
                   (fun r => inl (EvModelInit model rng images r)) ;;
  params <- lift (getitem variables "params") ;;
  server <- map_trace inr
              (FedAvg.init L lr_zero deployer model params (n_clients a)) ;;
  map_trace inr
    (FedAvg.run zeros_like arr_add arr_div L server (n_rounds a)
       (n_clients_per_round a) (n_client_epochs_per_round a)
       (per_device_batch_size a) (eval_per_device_batch_size a)
       (learning_rate a) client_train_datasets eval_dataset) ;;;
  ret ().

Lemma main_unfold a w :
  main a w
  = bind (ext (lib_Deployer S0 (jax_seed a))
              (fun r => inl (EvDeployer (jax_seed a) r)))
      (fun deployer =>
         bind (ext (lib_get_dataset S0 (data_dir a) (dataset_name a)
                      (n_clients a) (n_data_shards a))
                   (fun r => inl (EvGetDataset (data_dir a) (dataset_name a)
                                    (n_clients a) (n_data_shards a) r)))
           (fun r => main_rest a deployer r.1 r.2)) w.
Proof.
  unfold main. apply bind_ext. intros deployer w1.
  apply bind_ext. by intros [ds eval_ds] w2.
Qed.

Lemma init_n_clients deployer model params n w (self : FedAvgServer) :
  result (FedAvg.init L lr_zero deployer model params n w) = inr self ->
  _n_clients self = n /\ _params self = freeze params /\
  _deployer self = deployer /\ _model self = model.
Proof.
  unfold FedAvg.init, bind, ext, ret.
  destruct (lib_Trainer L _ _ _ _ w) as [w1 [e|trainer]]; simpl; [done|].
  destruct (lib_Predictor L _ _ w1) as [w2 [e|predictor]]; simpl; [done|].
  by intros [= <-].
Qed.

Lemma main_rest_on_datasets a deployer ds eval_ds :
  emits (call_on_datasets a ds eval_ds) (main_rest a deployer ds eval_ds).
Proof.
  unfold main_rest.
  do 7 (apply emits_bind;
        [first [ by apply emits_ext | apply emits_lift ]|intros]).
  apply emits_bind_ok.
  - apply emits_map_trace. unfold FedAvg.init.
    repeat (apply emits_bind; [|intros]);
      first [ by apply emits_ext | apply emits_ret ].
  - intros server [w Hw]. simpl in Hw.
    destruct (init_n_clients _ _ _ _ _ _ Hw) as (Hn & _).
    apply emits_bind; [|intros; apply emits_ret].
    apply emits_map_trace.
    eapply emits_impl; [|apply run_emits_configured].
    intros []; simpl; try done; rewrite ?Hn; intuition.
Qed.

(** X7.  In every run of [main], the server is trained and evaluated on
    the very datasets [get_dataset] answered: [fit] is only called on
    one of the client datasets, [predict] only on the evaluation
    dataset, with the batch sizes, epochs, learning rate and client
    counts [main] was given; and before [get_dataset] has answered, no
    call of the server is made. *)
Theorem main_uses_its_datasets a w :
  main_datasets_spec a (trace (main a w)).
Proof.
  unfold main_datasets_spec. rewrite main_unfold, bind_ext_run.
  destruct (lib_Deployer S0 (jax_seed a) w) as [w1 [e|deployer]]; simpl.
  { by repeat constructor. }
  rewrite bind_ext_run.
  destruct (lib_get_dataset S0 _ _ _ _ w1) as [w2 [e|[ds eval_ds]]]; simpl.
  { by repeat constructor. }
  constructor; [done|]. constructor; [done|].
  apply main_rest_on_datasets.
Qed.

(** X8.  With an empty evaluation dataset [main] raises IndexError at
    [eval_dataset[0]], right after the model object is made: no
    parameters are initialised, no server is built, nothing is
    trained. *)
Theorem main_empty_eval_dataset a w deployer ds model :
  (lib_Deployer S0 (jax_seed a) w).2 = inr deployer ->
  (lib_get_dataset S0 (data_dir a) (dataset_name a) (n_clients a)
     (n_data_shards a) (lib_Deployer S0 (jax_seed a) w).1).2
    = inr (ds, []) ->
  (lib_CNN S0
     (lib_get_dataset S0 (data_dir a) (dataset_name a) (n_clients a)
        (n_data_shards a) (lib_Deployer S0 (jax_seed a) w).1).1).2
    = inr model ->
  result (main a w) = inl IndexError /\
  trace (main a w)
    = [ inl (EvDeployer (jax_seed a) (inr deployer));
        inl (EvGetDataset (data_dir a) (dataset_name a) (n_clients a)
               (n_data_shards a) (inr (ds, [])));
        inl (EvCNN (inr model)) ].
Proof.
  intros H1 H2 H3. rewrite main_unfold, bind_ext_run, H1, bind_ext_run, H2.
  unfold main_rest. rewrite bind_ext_run. simpl. rewrite H3. done.
Qed.
End Main.

(** ** A concrete run: a dataset source with no evaluation example *)

Definition demo_setup_empty_eval : @setup_library nat Z Z string :=
  {| lib_Deployer := fun _ w => (w, inr "deployer");
     lib_get_dataset := fun _ _ _ _ w => (w, inr (demo_datasets, []));
     lib_CNN := fun w => (w, inr "cnn");
     lib_collate_fn := fun _ w => (w, inr {["images" := 0%Z]});
     lib_gen_rng := fun _ w => (w, inr "rng");
     lib_model_init := fun _ _ _ w =>
       (w, inr {["params" := demo_tree 0 0]}) |}.

Definition demo_main_args : @main_args Z :=
  {| data_dir := "./data"; dataset_name := "MNIST"; n_clients := 3;
     n_data_shards := 6; n_rounds := 2; n_clients_per_round := 2;
     n_client_epochs_per_round := 5; per_device_batch_size := 10;
     eval_per_device_batch_size := 100; learning_rate := 1%Z;
     jax_seed := 42 |}.

Lemma main_empty_eval_dataset_witness :
  result (main demo_zeros_like demo_add demo_div 0%Z demo_setup_empty_eval
            demo_library demo_main_args 0) = inl IndexError /\
  trace (main demo_zeros_like demo_add demo_div 0%Z demo_setup_empty_eval
           demo_library demo_main_args 0)
    = [ inl (EvDeployer 42 (inr "deployer"));
        inl (EvGetDataset "./data" "MNIST" 3 6 (inr (demo_datasets, [])));
        inl (EvCNN (inr "cnn")) ].
Proof.
  apply (main_empty_eval_dataset demo_zeros_like demo_add demo_div 0%Z
           demo_setup_empty_eval demo_library demo_main_args 0
           "deployer" demo_datasets "cnn"); reflexivity.
Defined.

(** With an evaluation dataset, [main] runs its two rounds. *)
Definition demo_setup : @setup_library nat Z Z string :=
  {| lib_Deployer := lib_Deployer demo_setup_empty_eval;
     lib_get_dataset := fun _ _ _ _ w => (w, inr (demo_datasets, demo_eval));
     lib_CNN := lib_CNN demo_setup_empty_eval;
     lib_collate_fn := lib_collate_fn demo_setup_empty_eval;
     lib_gen_rng := lib_gen_rng demo_setup_empty_eval;
     lib_model_init := lib_model_init demo_setup_empty_eval |}.

Example demo_main_completes :
  result (main demo_zeros_like demo_add demo_div 0%Z demo_setup
            demo_library demo_main_args 0) = inr () /\
  length (fitted_examples
            (omap (fun ev => match ev with inr ev' => Some ev' | _ => None end)
               (trace (main demo_zeros_like demo_add demo_div 0%Z demo_setup
                         demo_library demo_main_args 0)))) = 4.
Proof. split; vm_compute; reflexivity. Qed.
End FedAvgMain.
(* ===================================================================== *)
(** * examples/classification_regression/glue_main.py *)

Module Glue.
Section Glue.
(** [pyval]: the values held by dataset examples (sentences, labels).
    [obj]: references to library objects.  [num]: Python floats. *)
Context {W pyval obj num : Type} `{EqDecision pyval}.

Abbreviation example := (gmap string pyval).

(** One entry of [texts]: a sentence, or a tuple of two sentences. *)
Inductive text : Type :=
| Single (sent0 : pyval)
| Pair (sent0 sent1 : pyval).

(** The arrays of a batch: built by [np.array] from a list, or returned
    by the tokenizer. *)
Inductive ndarray : Type :=
| np_array (xs : list pyval)
| np_tokens (o : obj).

(** [np.array(xs)] on a list of example values.  numpy builds the array
    when the values have one common shape, and raises ValueError
    otherwise; [stackable] tells which lists it accepts. *)
Definition np_array_of (stackable : list pyval -> bool) (xs : list pyval)
  : res ndarray :=
  if stackable xs then inr (np_array xs) else inl InhomogeneousShape.

(** The values the examples hold under [key], in input order. *)
Definition values_of (key : string) (examples : list example)
  : list pyval :=
  omap (fun ex : example => ex !! key) examples.

Abbreviation batch := (gmap string ndarray).

(** [optax.adamw] and [optax.MultiSteps] build optimizers and do nothing
    else. *)
Inductive optimizer : Type :=
| adamw (learning_rate : obj) (weight_decay : num)
| MultiSteps (opt : optimizer) (every_k_schedule : Z).

(** The parameters of [main]. *)
Record main_args : Type := MainArgs {
  n_processes : nat;
  host0_address : option string;
  host0_port : Z;
  process_id : option nat;
  dataset_name : string;
  sent0_key : string;
  sent1_key : option string;
  label_key : string;
  is_regression : bool;
  model_name_or_path : string;
  n_model_shards : nat;
  max_length : nat;
  n_epochs : nat;
  per_device_batch_size : nat;
  eval_per_device_batch_size : nat;
  accumulate_grad_batches : Z;
  learning_rate : num;
  warmup_rate : num;
  weight_decay : num;
  jax_seed : nat;
  workdir : string;
  run_tensorboard : bool
}.

(** The library calls, as logged. *)
Inductive event : Type :=
| EvTokenizer (tokenizer : obj) (texts : list text) (max_length : nat)
    (r : res batch)
| EvDeployer (a : main_args) (r : res obj)
| EvLoadDataset (path name : string) (r : res (gmap string (list example)))
| EvTokenizerFromPretrained (name : string) (r : res obj)
| EvJaxDevices (backend : string) (r : res (list obj))
| EvDefaultDeviceEnter (device : obj) (r : res unit)
| EvDefaultDeviceExit (device : obj)
| EvModelFromPretrained (name : string) (num_labels : nat) (r : res obj)
| EvGetParams (model : obj) (r : res obj)
| EvToFp32 (model params : obj) (r : res obj)
| EvSetParams (model params : obj) (r : res unit)
| EvGetLrScheduleFn (deployer : obj) (train_size : nat) (a : main_args)
    (r : res obj)
| EvGetShardingRules (deployer params : obj) (r : res obj)
| EvTrainer (deployer : obj) (a : main_args) (tokenizer model params : obj)
    (opt : optimizer) (lr_schedule_fn sharding_rules : obj) (r : res obj)
| EvGetDefaultPredictor (trainer model : obj) (is_regression : bool)
    (r : res obj)
| EvFit (trainer : obj) (train_examples eval_examples : list example)
    (a : main_args) (eval_predictor : obj) (r : res unit).

Definition ev_exn (ev : event) : option exn :=
  match ev with
  | EvTokenizer _ _ _ (inl e) | EvDeployer _ (inl e)
  | EvLoadDataset _ _ (inl e) | EvTokenizerFromPretrained _ (inl e)
  | EvJaxDevices _ (inl e) | EvDefaultDeviceEnter _ (inl e)
  | EvModelFromPretrained _ _ (inl e) | EvGetParams _ (inl e)
  | EvToFp32 _ _ (inl e) | EvSetParams _ _ (inl e)
  | EvGetLrScheduleFn _ _ _ (inl e) | EvGetShardingRules _ _ (inl e)
  | EvTrainer _ _ _ _ _ _ _ _ (inl e)
  | EvGetDefaultPredictor _ _ _ (inl e) | EvFit _ _ _ _ _ (inl e) => Some e
  | _ => None
  end.

(** The external libraries, as oracles on the world. *)
Record library : Type := Library {
  (* tokenizer(texts, max_length, padding, truncation, return_tensors) *)
  lib_tokenizer : obj -> list text -> nat -> W -> W * res batch;
  (* redco.Deployer(...) *)
  lib_Deployer : main_args -> W -> W * res obj;
  (* datasets.load_dataset(path, name), its splits read as lists *)
  lib_load_dataset :
    string -> string -> W -> W * res (gmap string (list example));
  (* AutoTokenizer.from_pretrained(name) *)
  lib_tokenizer_from_pretrained : string -> W -> W * res obj;
  (* jax.devices(backend) *)
  lib_jax_devices : string -> W -> W * res (list obj);
  (* entering and leaving jax.default_device(device) *)
  lib_default_device_enter : obj -> W -> W * res unit;
  lib_default_device_exit : obj -> W -> W;
  (* FlaxAutoModelForSequenceClassification.from_pretrained *)
  lib_model_from_pretrained : string -> nat -> W -> W * res obj;
  (* model.params, model.to_fp32(params), model.params = params *)
  lib_get_params : obj -> W -> W * res obj;
  lib_to_fp32 : obj -> obj -> W -> W * res obj;
  lib_set_params : obj -> obj -> W -> W * res unit;
  (* deployer.get_lr_schedule_fn(...) *)
  lib_get_lr_schedule_fn : obj -> nat -> main_args -> W -> W * res obj;
  (* deployer.get_sharding_rules(params) *)
  lib_get_sharding_rules : obj -> obj -> W -> W * res obj;
  (* redco.Trainer(...) *)
  lib_Trainer :
    obj -> main_args -> obj -> obj -> obj -> optimizer -> obj -> obj ->
    W -> W * res obj;
  (* trainer.get_default_predictor(pred_fn) *)
  lib_get_default_predictor : obj -> obj -> bool -> W -> W * res obj;
  (* trainer.fit(...) *)
  lib_fit :
    obj -> list example -> list example -> main_args -> obj ->
    W -> W * res unit
}.

Variable L : library.
Variable stackable : list pyval -> bool.

Abbreviation prog := (prog W event).
Local Open Scope prog_scope.

(** The entry of [texts] built from one example. *)
Definition text_of (sent0_key : string) (sent1_key : option string)
    (example : example) : res text :=
  match sent1_key with
  | None => res_map Single (getitem example sent0_key)
  | Some sent1_key =>
      res_bind (getitem example sent0_key) (fun sent0 =>
        res_map (Pair sent0) (getitem example sent1_key))
  end.

(** [collate_fn]. *)
Definition collate_fn (examples : list example) (sent0_key : string)
    (sent1_key : option string) (label_key : string) (tokenizer : obj)
    (max_length : nat) : prog batch :=
  texts <- lift (res_mapM (text_of sent0_key sent1_key) examples) ;;
  batch <- ext (lib_tokenizer L tokenizer texts max_length)
               (EvTokenizer tokenizer texts max_length) ;;
  labels <- lift (res_bind
                    (res_mapM (fun example : example =>
                                 getitem example label_key) examples)
                    (np_array_of stackable)) ;;
  ret (<["labels" := labels]> batch).

(** [len(set(labels))]. *)
Definition n_distinct (labels : list pyval) : nat :=
  length (remove_dups labels).

(** The optimizer [main] builds. *)
Definition make_optimizer (lr_schedule_fn : obj) (weight_decay : num)
    (accumulate_grad_batches : Z) : optimizer :=
  let optimizer := adamw lr_schedule_fn weight_decay in
  if bool_decide (accumulate_grad_batches > 1)%Z
  then MultiSteps optimizer accumulate_grad_batches
  else optimizer.

(** [1 if is_regression else len(set([example[label_key] for example in
    dataset['train']]))]. *)
Definition num_labels_of (a : main_args)
    (dataset : gmap string (list example)) : res nat :=
  if is_regression a then inr 1
  else
    res_bind (getitem dataset "train") (fun train =>
      res_map n_distinct
        (res_mapM (fun example : example => getitem example (label_key a))
           train)).

(** [main]. *)
Definition main (a : main_args) : prog unit :=
  deployer <- ext (lib_Deployer L a) (EvDeployer a) ;;
  dataset <- ext (lib_load_dataset L "glue" (dataset_name a))
                 (EvLoadDataset "glue" (dataset_name a)) ;;
  num_labels <- lift (num_labels_of a dataset) ;;
  tokenizer <- ext (lib_tokenizer_from_pretrained L (model_name_or_path a))
                   (EvTokenizerFromPretrained (model_name_or_path a)) ;;
  devices <- ext (lib_jax_devices L "cpu") (EvJaxDevices "cpu") ;;
  device <- lift (list_getitem devices 0) ;;
  model <-
    with_block
      (ext (lib_default_device_enter L device) (EvDefaultDeviceEnter device))
      (lib_default_device_exit L device) (EvDefaultDeviceExit device)
      (model <- ext (lib_model_from_pretrained L (model_name_or_path a)
                       num_labels)
                    (EvModelFromPretrained (model_name_or_path a)
                       num_labels) ;;
       params <- ext (lib_get_params L model) (EvGetParams model) ;;
       params32 <- ext (lib_to_fp32 L model params)
                       (EvToFp32 model params) ;;
       ext (lib_set_params L model params32)
           (EvSetParams model params32) ;;;
       ret model) ;;
  train <- lift (getitem dataset "train") ;;
  lr_schedule_fn <-
    ext (lib_get_lr_schedule_fn L deployer (length train) a)
        (EvGetLrScheduleFn deployer (length train) a) ;;
  let optimizer :=
    make_optimizer lr_schedule_fn (weight_decay a)
      (accumulate_grad_batches a) in
  params <- ext (lib_get_params L model) (EvGetParams model) ;;
  params' <- ext (lib_get_params L model) (EvGetParams model) ;;
  sharding_rules <- ext (lib_get_sharding_rules L deployer params')
                        (EvGetShardingRules deployer params') ;;
  trainer <- ext (lib_Trainer L deployer a tokenizer model params optimizer
                    lr_schedule_fn sharding_rules)
                 (EvTrainer deployer a tokenizer model params optimizer
                    lr_schedule_fn sharding_rules) ;;
  predictor <- ext (lib_get_default_predictor L trainer model
                      (is_regression a))
                   (EvGetDefaultPredictor trainer model (is_regression a)) ;;
  train_examples <- lift (getitem dataset "train") ;;
  eval_examples <- lift (getitem dataset "validation") ;;
  ext (lib_fit L trainer train_examples eval_examples a predictor)
      (EvFit trainer train_examples eval_examples a predictor).

(** ** collate_fn *)

(** An example that has the keys [collate_fn] reads. *)
Definition well_formed (sent0_key : string) (sent1_key : option string)
    (label_key : string) (ex : example) : Prop :=
  is_Some (ex !! sent0_key) /\ is_Some (ex !! label_key) /\
  match sent1_key with
  | Some sent1_key => is_Some (ex !! sent1_key)
  | None => True
  end.

(** The text of an example: its [sent0_key] sentence alone without a
    [sent1_key], the pair of its two sentences otherwise. *)
Definition text_spec (sent0_key : string) (sent1_key : option string)
    (ex : example) (t : text) : Prop :=
  match sent1_key with
  | None => exists s0, ex !! sent0_key = Some s0 /\ t = Single s0
  | Some sent1_key =>
      exists s0 s1, ex !! sent0_key = Some s0 /\
                    ex !! sent1_key = Some s1 /\ t = Pair s0 s1
  end.

Definition collate_spec (examples : list example) (sent0_key : string)
    (sent1_key : option string) (label_key : string) (tokenizer : obj)
    (max_length : nat) (w : W) : Prop :=
  exists texts labels,
    (* one text and one label per example, in input order *)
    Forall2 (text_spec sent0_key sent1_key) examples texts /\
    Forall2 (fun ex l => ex !! label_key = Some l) examples labels /\
    length labels = length examples /\
    (* the tokenizer is called once, on these texts, and the batch is its
       answer with the array of labels stored under 'labels' *)
    collate_fn examples sent0_key sent1_key label_key tokenizer max_length w
      = (let '(w', r) := lib_tokenizer L tokenizer texts max_length w in
         Outcome w' [EvTokenizer tokenizer texts max_length r]
           (res_map (insert "labels" (np_array labels)) r)) /\
    (* so that a batch is returned whenever the tokenizer returns one *)
    (forall b_tok,
        (lib_tokenizer L tokenizer texts max_length w).2 = inr b_tok ->
        result (collate_fn examples sent0_key sent1_key label_key tokenizer
                  max_length w)
        = inr (<["labels" := np_array labels]> b_tok)) /\
    forall b,
      result (collate_fn examples sent0_key sent1_key label_key tokenizer
                max_length w) = inr b ->
      b !! "labels" = Some (np_array labels).

Lemma values_of_labels label_key (examples : list example) labels :
  Forall2 (fun ex l => ex !! label_key = Some l) examples labels ->
  values_of label_key examples = labels.
Proof.
  induction 1 as [|ex l exs ls Hl _ IH]; [done|].
  unfold values_of in *. cbn [omap list_omap]. rewrite Hl. by f_equal.
Qed.

Lemma text_of_ok sent0_key sent1_key label_key ex :
  well_formed sent0_key sent1_key label_key ex ->
  exists t, text_of sent0_key sent1_key ex = inr t /\
            text_spec sent0_key sent1_key ex t.
Proof.
  intros ([s0 H0] & _ & H1). unfold text_of, text_spec, getitem.
  destruct sent1_key as [k1|].
  - destruct H1 as [s1 H1]. rewrite H0, H1. simpl.
    exists (Pair s0 s1). split; [done|]. by exists s0, s1.
  - rewrite H0. simpl. exists (Single s0). split; [done|]. by exists s0.
Qed.

(** C3 (amended).  On examples that have the keys it reads and whose
    label values numpy can stack into one array, [collate_fn] calls the
    tokenizer once, on one text per example in input order: the
    [sent0_key] sentence alone when [sent1_key] is None, the pair of the
    [sent0_key] and [sent1_key] sentences otherwise.  When the tokenizer
    returns, [collate_fn] returns the tokenizer's batch with 'labels'
    bound to the array of the examples' [label_key] values, one per
    example, in input order. *)
Theorem collate_fn_labels_and_texts
    examples sent0_key sent1_key label_key tokenizer max_length w :
  Forall (well_formed sent0_key sent1_key label_key) examples ->
  stackable (values_of label_key examples) = true ->
  collate_spec examples sent0_key sent1_key label_key tokenizer max_length w.
Proof.
  intros Hwf Hst.
  destruct (res_mapM_ok (text_of sent0_key sent1_key)
              (text_spec sent0_key sent1_key) examples)
    as (texts & Htexts & HT).
  { eapply Forall_impl; [exact Hwf|]. intros ex Hex.
    by eapply text_of_ok. }
  destruct (res_mapM_ok (fun ex : example => getitem ex label_key)
              (fun ex l => ex !! label_key = Some l) examples)
    as (labels & Hlabels & HL).
  { eapply Forall_impl; [exact Hwf|]. intros ex (_ & [l Hl] & _).
    exists l. unfold getitem. by rewrite Hl. }
  rewrite (values_of_labels _ _ _ HL) in Hst.
  exists texts, labels. split; [done|]. split; [done|].
  split; [symmetry; by eapply Forall2_length|].
  assert (Heq : collate_fn examples sent0_key sent1_key label_key tokenizer
                  max_length w
                = (let '(w', r) := lib_tokenizer L tokenizer texts max_length w in
                   Outcome w' [EvTokenizer tokenizer texts max_length r]
                     (res_map (insert "labels" (np_array labels)) r))).
  { unfold collate_fn, bind, lift, ext, ret. rewrite Htexts. simpl.
    destruct (lib_tokenizer L tokenizer texts max_length w) as [w' [e|b]];
      simpl; [done|].
    rewrite Hlabels. unfold np_array_of. simpl. by rewrite Hst. }
  split; [exact Heq|]. rewrite Heq.
  destruct (lib_tokenizer L tokenizer texts max_length w) as [w' [e|b']];
    simpl; (split; [by intros ? [= <-]|]); [done|].
  intros b [= <-]. apply lookup_insert_eq.
Qed.

(** ** main *)

(** The optimizers handed to [Trainer(...)], with the trainers built. *)
Definition trainer_calls (tr : list event) : list (optimizer * obj * res obj) :=
  omap (fun ev => match ev with
                  | EvTrainer _ _ _ _ _ opt lr _ r => Some (opt, lr, r)
                  | _ => None
                  end) tr.

(** The trainers on which [fit] is called. *)
Definition fit_calls (tr : list event) : list obj :=
  omap (fun ev => match ev with
                  | EvFit trainer _ _ _ _ _ => Some trainer
                  | _ => None
                  end) tr.

Lemma trainer_calls_app tr1 tr2 :
  trainer_calls (tr1 ++ tr2) = trainer_calls tr1 ++ trainer_calls tr2.
Proof. apply omap_app. Qed.

Lemma fit_calls_app tr1 tr2 :
  fit_calls (tr1 ++ tr2) = fit_calls tr1 ++ fit_calls tr2.
Proof. apply omap_app. Qed.

(** The optimizer [opt], built for the schedule [lr_schedule_fn], is the
    one the arguments ask for. *)
Definition optimizer_as_asked (a : main_args) (lr_schedule_fn : obj)
    (opt : optimizer) : Prop :=
  ((accumulate_grad_batches a > 1)%Z ->
   opt = MultiSteps (adamw lr_schedule_fn (weight_decay a))
           (accumulate_grad_batches a)) /\
  (~ (accumulate_grad_batches a > 1)%Z ->
   opt = adamw lr_schedule_fn (weight_decay a)).

(** A call that, if it constructs a trainer, hands it the optimizer the
    arguments ask for. *)
Definition trainer_call_ok (a : main_args) (ev : event) : Prop :=
  match ev with
  | EvTrainer _ _ _ _ _ opt lr_schedule_fn _ _ =>
      optimizer_as_asked a lr_schedule_fn opt
  | _ => True
  end.

Definition main_optimizer_spec (a : main_args) (tr : list event) : Prop :=
  (* whenever a trainer is constructed, its optimizer is as asked *)
  Forall (trainer_call_ok a) tr /\
  (* one trainer is constructed, and fit is called once, on it *)
  exists lr_schedule_fn trainer opt,
    trainer_calls tr = [(opt, lr_schedule_fn, inr trainer)] /\
    fit_calls tr = [trainer] /\
    optimizer_as_asked a lr_schedule_fn opt.

Lemma make_optimizer_cases lr_schedule_fn wd k :
  ((k > 1)%Z ->
   make_optimizer lr_schedule_fn wd k = MultiSteps (adamw lr_schedule_fn wd) k)
  /\ (~ (k > 1)%Z -> make_optimizer lr_schedule_fn wd k = adamw lr_schedule_fn wd).
Proof. unfold make_optimizer. case_bool_decide; split; done. Qed.

(** C6.  In a run of [main] that completes, [Trainer] is constructed once,
    with [adamw] wrapped in [MultiSteps(every_k_schedule =
    accumulate_grad_batches)] exactly when [accumulate_grad_batches > 1]
    and with the plain [adamw] otherwise, and [fit] is called once, on
    that trainer. *)
Lemma main_trainer_calls_ok a : emits (trainer_call_ok a) (main a).
Proof.
  unfold main. emits_auto.
  apply emits_ext. intros r. simpl. apply make_optimizer_cases.
Qed.

Theorem main_optimizer_and_single_fit a w :
  result (main a w) = inr () ->
  main_optimizer_spec a (trace (main a w)).
Proof.
  intros H. split; [apply main_trainer_calls_ok|]. revert H.
  unfold main. intros H.
  bind_inv H as deployer Hd H1. rewrite (ext_ok _ _ _ _ Hd).
  bind_inv H1 as dataset Hds H2. rewrite (ext_ok _ _ _ _ Hds).
  bind_inv H2 as num_labels Hnl H3.
  bind_inv H3 as tokenizer Htok H4. rewrite (ext_ok _ _ _ _ Htok).
  bind_inv H4 as devices Hdev H5. rewrite (ext_ok _ _ _ _ Hdev).
  bind_inv H5 as device Hdv H6.
  bind_inv H6 as model Hmodel H7.
  destruct (with_block_ok _ _ _ _ _ _ Hmodel) as (Henter & Hbody & ->).
  rewrite (ext_ok _ _ _ _ Henter).
  bind_inv Hbody as model' Hm1 Hb1. rewrite (ext_ok _ _ _ _ Hm1).
  bind_inv Hb1 as params0 Hm2 Hb2. rewrite (ext_ok _ _ _ _ Hm2).
  bind_inv Hb2 as params32 Hm3 Hb3. rewrite (ext_ok _ _ _ _ Hm3).
  bind_inv Hb3 as [] Hm4 Hb4. rewrite (ext_ok _ _ _ _ Hm4).
  bind_inv H7 as train Htrain H8.
  bind_inv H8 as lr_schedule_fn Hlr H9. rewrite (ext_ok _ _ _ _ Hlr).
  cbn zeta in H9.
  bind_inv H9 as params Hp1 H10. rewrite (ext_ok _ _ _ _ Hp1).
  bind_inv H10 as params' Hp2 H11. rewrite (ext_ok _ _ _ _ Hp2).
  bind_inv H11 as rules Hsr H12. rewrite (ext_ok _ _ _ _ Hsr).
  bind_inv H12 as trainer Htr H13. rewrite (ext_ok _ _ _ _ Htr).
  bind_inv H13 as predictor Hpr H14. rewrite (ext_ok _ _ _ _ Hpr).
  bind_inv H14 as train_examples Hte H15.
  bind_inv H15 as eval_examples Hev H16.
  rewrite (ext_ok _ _ _ _ H16).
  exists lr_schedule_fn, trainer,
    (make_optimizer lr_schedule_fn (weight_decay a)
       (accumulate_grad_batches a)).
  rewrite !trainer_calls_app, !fit_calls_app. simpl.
  split; [done|]. split; [done|]. apply make_optimizer_cases.
Qed.

(** ** Failures in collate_fn and main *)






(** A batch [collate_fn] returned: the tokenizer's, with the labels. *)
Lemma collate_fn_ok examples sent0_key sent1_key label_key tokenizer
    max_length w b :
  result (collate_fn examples sent0_key sent1_key label_key tokenizer
            max_length w) = inr b ->
  exists texts labels b_tok,
    res_mapM (text_of sent0_key sent1_key) examples = inr texts /\
    (lib_tokenizer L tokenizer texts max_length w).2 = inr b_tok /\
    res_mapM (fun example : example => getitem example label_key) examples
      = inr labels /\
    stackable labels = true /\
    b = <["labels" := np_array labels]> b_tok.
Proof.
  unfold collate_fn, bind, lift, ext, ret.
  destruct (res_mapM (text_of sent0_key sent1_key) examples)
    as [e|texts]; simpl; [done|].
  destruct (lib_tokenizer L tokenizer texts max_length w)
    as [w' [e|b_tok]] eqn:Etok; simpl; [done|].
  destruct (res_mapM _ examples) as [e|labels]; simpl; [done|].
  unfold np_array_of. destruct (stackable labels) eqn:Est; simpl; [|done].
  intros [= <-]. exists texts, labels, b_tok. by rewrite Etok.
Qed.

(** The texts [collate_fn] builds are those of the examples. *)
Lemma text_of_spec sent0_key sent1_key (ex : example) t :
  text_of sent0_key sent1_key ex = inr t -> text_spec sent0_key sent1_key ex t.
Proof.
  unfold text_of, text_spec, getitem. destruct sent1_key as [k1|].
  - destruct (ex !! sent0_key) as [s0|]; simpl; [|done].
    destruct (ex !! k1) as [s1|]; simpl; [|done].
    intros [= <-]. by exists s0, s1.
  - destruct (ex !! sent0_key) as [s0|]; simpl; [|done].
    intros [= <-]. by exists s0.
Qed.

Lemma texts_of_spec sent0_key sent1_key : forall (examples : list example) texts,
  res_mapM (text_of sent0_key sent1_key) examples = inr texts ->
  Forall2 (text_spec sent0_key sent1_key) examples texts.
Proof.
  induction examples as [|ex exs IH]; intros texts; simpl.
  - intros [= <-]. constructor.
  - destruct (text_of sent0_key sent1_key ex) as [e|t] eqn:Et; simpl; [done|].
    destruct (res_mapM _ exs) as [e|ts]; simpl; [done|].
    intros [= <-]. constructor; [by apply text_of_spec|by apply IH].
Qed.

(** ** Further properties of [main] *)

(** Entering [jax.default_device] (when the call returns), and leaving
    it. *)
Definition enters (ev : event) : nat :=
  match ev with EvDefaultDeviceEnter _ (inr _) => 1 | _ => 0 end.

Definition leaves (ev : event) : nat :=
  match ev with EvDefaultDeviceExit _ => 1 | _ => 0 end.

Lemma main_balanced a : balanced enters leaves (main a).
Proof.
  unfold main.
  repeat first
    [ apply balanced_ret
    | apply balanced_lift
    | apply balanced_ext; intros []; reflexivity
    | apply balanced_with_block;
        [reflexivity|reflexivity|by intros|reflexivity|reflexivity|]
    | apply balanced_bind; [|intros] ].
Qed.

(** X17.  In every run of [main], also one in which loading the model
    or converting its parameters fails, the [jax.default_device] block
    is left as often as it was entered. *)
Theorem main_leaves_device_block a w :
  sum_list_with enters (trace (main a w))
  = sum_list_with leaves (trace (main a w)).
Proof. apply main_balanced. Qed.

(** X18.  In classification mode the labels of the training split are
    counted before anything is loaded: with no 'train' split, or with a
    training example without [label_key], [main] raises KeyError for
    that key right after [load_dataset], and neither the tokenizer nor
    the model is loaded. *)
Theorem main_classification_needs_labels a w deployer dataset :
  is_regression a = false ->
  (lib_Deployer L a w).2 = inr deployer ->
  (lib_load_dataset L "glue" (dataset_name a) (lib_Deployer L a w).1).2
    = inr dataset ->
  (dataset !! "train" = None \/
   exists train, dataset !! "train" = Some train /\
                 Exists (fun ex : example => ex !! label_key a = None) train) ->
  exists k,
    (k = "train" \/ k = label_key a) /\
    result (main a w) = inl (KeyError k) /\
    trace (main a w)
      = [ EvDeployer a (inr deployer);
          EvLoadDataset "glue" (dataset_name a) (inr dataset) ].
Proof.
  intros Hreg Hd Hds Hbad.
  assert (Hnl : exists k, (k = "train" \/ k = label_key a) /\
                          num_labels_of a dataset = inl (KeyError k)).
  { unfold num_labels_of. rewrite Hreg.
    destruct Hbad as [Hno|(train & Htrain & Hex)].
    - exists "train". split; [by left|]. unfold getitem. by rewrite Hno.
    - exists (label_key a). split; [by right|]. unfold getitem at 1.
      rewrite Htrain. simpl.
      by rewrite (res_mapM_getitem_err (label_key a) train Hex). }
  destruct Hnl as (k & Hk & Hnl). exists k. split; [done|].
  unfold main. rewrite bind_ext_run, Hd. cbv beta iota.
  rewrite bind_ext_run, Hds. cbv beta iota.
  rewrite Hnl, bind_lift_err. done.
Qed.

(** The splits [main] reads in a run that completes. *)
Lemma main_ok_splits a w :
  result (main a w) = inr () ->
  exists w1 dataset,
    (lib_load_dataset L "glue" (dataset_name a) w1).2 = inr dataset /\
    is_Some (dataset !! "train") /\ is_Some (dataset !! "validation").
Proof.
  unfold main. intros H.
  bind_split H as deployer Hd H1.
  bind_split H1 as dataset Hds H2.
  bind_split H2 as num_labels Hnl H3.
  bind_split H3 as tokenizer Htok H4.
  bind_split H4 as devices Hdev H5.
  bind_split H5 as device Hdv H6.
  bind_split H6 as model Hmodel H7.
  bind_split H7 as train Htrain H8.
  bind_split H8 as lr_schedule_fn Hlr H9.
  cbn zeta in H9.
  bind_split H9 as params Hp1 H10.
  bind_split H10 as params' Hp2 H11.
  bind_split H11 as rules Hsr H12.
  bind_split H12 as trainer Htr H13.
  bind_split H13 as predictor Hpr H14.
  bind_split H14 as train_examples Hte H15.
  bind_split H15 as eval_examples Hev H16.
  exists (world (ext (lib_Deployer L a) (EvDeployer a) w)), dataset.
  destruct (ext_result (lib_load_dataset L "glue" (dataset_name a))
              (EvLoadDataset "glue" (dataset_name a))
              (world (ext (lib_Deployer L a) (EvDeployer a) w)))
    as (Hr & _ & _).
  rewrite Hds in Hr. split; [done|].
  unfold lift, getitem in Hte, Hev. simpl in Hte, Hev.
  destruct (dataset !! "train"); [|done].
  destruct (dataset !! "validation"); [|done]. by split; eexists.
Qed.

(** A call other than [fit]. *)
Definition not_fit (ev : event) : Prop :=
  match ev with EvFit _ _ _ _ _ _ => False | _ => True end.

Lemma not_fit_calls tr : Forall not_fit tr -> fit_calls tr = [].
Proof.
  induction 1 as [|ev tr Hev _ IH]; [done|].
  destruct ev; simpl; try done.
Qed.

(** The dataset source has no 'validation' split, whatever it is asked. *)
Definition no_validation_split (name : string) : Prop :=
  forall w,
    match (lib_load_dataset L "glue" name w).2 with
    | inr dataset => dataset !! "validation" = None
    | inl _ => True
    end.

Lemma main_never_fits a :
  no_validation_split (dataset_name a) -> emits not_fit (main a).
Proof.
  intros Hno. unfold main.
  apply emits_bind; [by apply emits_ext|]. intros deployer.
  apply emits_bind_ok; [by apply emits_ext|]. intros dataset [w1 Hw1].
  destruct (ext_result (lib_load_dataset L "glue" (dataset_name a))
              (EvLoadDataset "glue" (dataset_name a)) w1) as (Hr & _ & _).
  rewrite Hw1 in Hr. specialize (Hno w1). rewrite <- Hr in Hno.
  do 4 (apply emits_bind;
        [first [by apply emits_ext | apply emits_lift]|intros]).
  apply emits_bind.
  { apply emits_with_block; [done|by apply emits_ext|].
    repeat (apply emits_bind; [|intros]);
      first [by apply emits_ext | apply emits_ret]. }
  intros model.
  do 8 (apply emits_bind;
        [first [by apply emits_ext | apply emits_lift]|intros]).
  apply emits_bind_ok; [apply emits_lift|]. intros eval_examples [w2 Hw2].
  exfalso. unfold lift, getitem in Hw2. simpl in Hw2. by rewrite Hno in Hw2.
Qed.

(** X19.  For a task whose dataset has no split called 'validation',
    [main] never trains: [dataset['validation']] is read before
    [trainer.fit] is called, so [fit] is not called and the run does not
    complete. *)
Theorem main_needs_validation_split a w :
  no_validation_split (dataset_name a) ->
  fit_calls (trace (main a w)) = [] /\ result (main a w) <> inr ().
Proof.
  intros Hno. split.
  - apply not_fit_calls. by apply main_never_fits.
  - intros H. destruct (main_ok_splits a w H) as (w1 & dataset & Hds & _ & Hv).
    specialize (Hno w1). rewrite Hds in Hno. rewrite Hno in Hv.
    by destruct Hv.
Qed.
End Glue.

(** ** A concrete run

    Sentences, labels and object references are strings; the world is not
    used.  The demo dataset is an SST-2 like split of two examples. *)

Definition demo_examples : list (gmap string string) :=
  [ {["sentence" := "a fine film"; "label" := "1"]};
    {["sentence" := "a dull film"; "label" := "0"]} ].

Definition demo_batch : gmap string (@ndarray string string) :=
  {["input_ids" := np_tokens "ids"; "attention_mask" := np_tokens "mask"]}.

(** Strings are scalars: numpy stacks any list of them. *)
Definition demo_scalars (xs : list string) : bool := true.

Definition demo_library : @library unit string string Z :=
  {| lib_tokenizer := fun _ _ _ w => (w, inr demo_batch);
     lib_Deployer := fun _ w => (w, inr "deployer");
     lib_load_dataset := fun _ _ w =>
       (w, inr {["train" := demo_examples; "validation" := demo_examples]});
     lib_tokenizer_from_pretrained := fun _ w => (w, inr "tokenizer");
     lib_jax_devices := fun _ w => (w, inr ["cpu:0"]);
     lib_default_device_enter := fun _ w => (w, inr ());
     lib_default_device_exit := fun _ w => w;
     lib_model_from_pretrained := fun _ _ w => (w, inr "model");
     lib_get_params := fun _ w => (w, inr "params");
     lib_to_fp32 := fun _ _ w => (w, inr "params");
     lib_set_params := fun _ _ w => (w, inr ());
     lib_get_lr_schedule_fn := fun _ _ _ w => (w, inr "lr_schedule_fn");
     lib_get_sharding_rules := fun _ _ w => (w, inr "rules");
     lib_Trainer := fun _ _ _ _ _ _ _ _ w => (w, inr "trainer");
     lib_get_default_predictor := fun _ _ _ w => (w, inr "predictor");
     lib_fit := fun _ _ _ _ _ w => (w, inr ()) |}.

(** The default arguments of [main], with learning rates as integers. *)
Definition demo_args (accumulate_grad_batches : Z) : @main_args Z :=
  {| n_processes := 1; host0_address := None; host0_port := 11111%Z;
     process_id := None; dataset_name := "sst2"; sent0_key := "sentence";
     sent1_key := None; label_key := "label"; is_regression := false;
     model_name_or_path := "roberta-base"; n_model_shards := 2;
     max_length := 512; n_epochs := 2; per_device_batch_size := 4;
     eval_per_device_batch_size := 8;
     accumulate_grad_batches := accumulate_grad_batches;
     learning_rate := 1%Z; warmup_rate := 1%Z; weight_decay := 0%Z;
     jax_seed := 42; workdir := "./workdir"; run_tensorboard := false |}.

Lemma collate_fn_labels_and_texts_witness :
  Forall (well_formed "sentence" None "label") demo_examples /\
  demo_scalars (values_of "label" demo_examples) = true /\
  collate_spec demo_library demo_scalars demo_examples "sentence" None
    "label" "tokenizer" 512 ().
Proof.
  assert (Hwf : Forall (well_formed "sentence" None "label") demo_examples).
  { repeat (constructor; [repeat split; by eexists|]). constructor. }
  split; [exact Hwf|]. split; [reflexivity|].
  exact (collate_fn_labels_and_texts demo_library demo_scalars demo_examples
           "sentence" None "label" "tokenizer" 512 () Hwf eq_refl).
Defined.

Example demo_collate_fn :
  result (collate_fn demo_library demo_scalars demo_examples "sentence" None
            "label" "tokenizer" 512 ())
  = inr (<["labels" := np_array ["1"; "0"]]> demo_batch).
Proof. vm_compute. reflexivity. Qed.

(** Examples whose values are vectors of numbers, as in a task with one
    label per class.  numpy stacks vectors of one length. *)
Definition same_length (xs : list (list Z)) : bool :=
  match xs with
  | [] => true
  | x :: xs' => forallb (fun y => Nat.eqb (length y) (length x)) xs'
  end.

Definition demo_library_vectors : @library unit (list Z) string Z :=
  {| lib_tokenizer := fun _ _ _ w =>
       (w, inr {["input_ids" := np_tokens "ids"]});
     lib_Deployer := fun _ w => (w, inr "deployer");
     lib_load_dataset := fun _ _ w => (w, inr ∅);
     lib_tokenizer_from_pretrained := fun _ w => (w, inr "tokenizer");
     lib_jax_devices := fun _ w => (w, inr ["cpu:0"]);
     lib_default_device_enter := fun _ w => (w, inr ());
     lib_default_device_exit := fun _ w => w;
     lib_model_from_pretrained := fun _ _ w => (w, inr "model");
     lib_get_params := fun _ w => (w, inr "params");
     lib_to_fp32 := fun _ _ w => (w, inr "params");
     lib_set_params := fun _ _ w => (w, inr ());
     lib_get_lr_schedule_fn := fun _ _ _ w => (w, inr "lr_schedule_fn");
     lib_get_sharding_rules := fun _ _ w => (w, inr "rules");
     lib_Trainer := fun _ _ _ _ _ _ _ _ w => (w, inr "trainer");
     lib_get_default_predictor := fun _ _ _ w => (w, inr "predictor");
     lib_fit := fun _ _ _ _ _ w => (w, inr ()) |}.

(** Two examples with both keys; the label vectors differ in length. *)
Definition demo_ragged : list (gmap string (list Z)) :=
  [ {["sentence" := [101; 7; 102]%Z; "label" := [1; 0]%Z]};
    {["sentence" := [101; 9; 102]%Z; "label" := [1]%Z]} ].

(** C3, as stated, fails: there are non-empty lists of examples on which
    [collate_fn] returns no batch.  It raises KeyError when an example
    lacks the label, and numpy's ValueError, after the tokenizer has
    answered, when the examples have all their keys but their labels
    cannot be stacked. *)
Lemma collate_fn_raises_on_examples :
  result (collate_fn demo_library demo_scalars
            [ {["sentence" := "a fine film"]} ] "sentence" None "label"
            "tokenizer" 512 ())
    = inl (KeyError "label") /\
  Forall (well_formed "sentence" None "label") demo_ragged /\
  (let o := collate_fn demo_library_vectors same_length demo_ragged
              "sentence" None "label" "tokenizer" 512 () in
   result o = inl InhomogeneousShape /\ length (trace o) = 1).
Proof.
  split; [vm_compute; reflexivity|]. split.
  - repeat (constructor; [repeat split; by eexists|]). constructor.
  - split; vm_compute; reflexivity.
Qed.

Lemma main_optimizer_and_single_fit_witness :
  result (main demo_library (demo_args 2) ()) = inr () /\
  main_optimizer_spec (demo_args 2) (trace (main demo_library (demo_args 2) ())).
Proof.
  split; [vm_compute; reflexivity|].
  apply (main_optimizer_and_single_fit demo_library (demo_args 2) ()).
  vm_compute. reflexivity.
Defined.

(** With the default [accumulate_grad_batches = 2] the trainer gets the
    wrapped optimizer; with 1 it gets the plain one. *)
Example demo_main_optimizers :
  trainer_calls (trace (main demo_library (demo_args 2) ()))
    = [(MultiSteps (adamw "lr_schedule_fn" 0%Z) 2, "lr_schedule_fn",
        inr "trainer")] /\
  trainer_calls (trace (main demo_library (demo_args 1) ()))
    = [(adamw "lr_schedule_fn" 0%Z, "lr_schedule_fn", inr "trainer")].
Proof. split; vm_compute; reflexivity. Qed.

(** ** Concrete runs for the further properties *)

(** The demo libraries, with another dataset. *)
Definition demo_library_with (dataset : gmap string (list (gmap string string)))
  : @library unit string string Z :=
  {| lib_tokenizer := lib_tokenizer demo_library;
     lib_Deployer := lib_Deployer demo_library;
     lib_load_dataset := fun _ _ w => (w, inr dataset);
     lib_tokenizer_from_pretrained := lib_tokenizer_from_pretrained demo_library;
     lib_jax_devices := lib_jax_devices demo_library;
     lib_default_device_enter := lib_default_device_enter demo_library;
     lib_default_device_exit := lib_default_device_exit demo_library;
     lib_model_from_pretrained := lib_model_from_pretrained demo_library;
     lib_get_params := lib_get_params demo_library;
     lib_to_fp32 := lib_to_fp32 demo_library;
     lib_set_params := lib_set_params demo_library;
     lib_get_lr_schedule_fn := lib_get_lr_schedule_fn demo_library;
     lib_get_sharding_rules := lib_get_sharding_rules demo_library;
     lib_Trainer := lib_Trainer demo_library;
     lib_get_default_predictor := lib_get_default_predictor demo_library;
     lib_fit := lib_fit demo_library |}.

(** A dataset with a validation split only. *)
Definition demo_no_train : gmap string (list (gmap string string)) :=
  {["validation" := demo_examples]}.

Lemma main_classification_needs_labels_witness :
  is_regression (demo_args 2) = false /\
  demo_no_train !! "train" = None /\
  exists k,
    (k = "train" \/ k = label_key (demo_args 2)) /\
    result (main (demo_library_with demo_no_train) (demo_args 2) ())
      = inl (KeyError k) /\
    trace (main (demo_library_with demo_no_train) (demo_args 2) ())
      = [ EvDeployer (demo_args 2) (inr "deployer");
          EvLoadDataset "glue" "sst2" (inr demo_no_train) ].
Proof.
  assert (H : demo_no_train !! "train" = None) by reflexivity.
  split; [reflexivity|]. split; [exact H|].
  exact (main_classification_needs_labels (demo_library_with demo_no_train)
           (demo_args 2) () "deployer" demo_no_train eq_refl eq_refl eq_refl
           (or_introl H)).
Defined.

(** A dataset whose evaluation split has another name, as for MNLI. *)
Definition demo_mnli : gmap string (list (gmap string string)) :=
  {["train" := demo_examples; "validation_matched" := demo_examples]}.

Lemma main_needs_validation_split_witness :
  no_validation_split (demo_library_with demo_mnli) "sst2" /\
  fit_calls (trace (main (demo_library_with demo_mnli) (demo_args 2) ())) = []
  /\ result (main (demo_library_with demo_mnli) (demo_args 2) ()) <> inr ().
Proof.
  assert (H : no_validation_split (demo_library_with demo_mnli) "sst2").
  { intros w. reflexivity. }
  split; [exact H|].
  exact (main_needs_validation_split (demo_library_with demo_mnli)
           (demo_args 2) () H).
Defined.

Example demo_mnli_fails_late :
  result (main (demo_library_with demo_mnli) (demo_args 2) ())
    = inl (KeyError "validation") /\
  length (trace (main (demo_library_with demo_mnli) (demo_args 2) ())) = 16.
Proof. split; vm_compute; reflexivity. Qed.
End Glue.


(* ===================================================================== *)
(** * glue_main.py: loss_fn, pred_fn, eval_metric_fn *)

(** [d.pop(k)]: the value, and the dictionary as the call leaves it. *)
Definition dict_pop {V} (d : gmap string V) (k : string)
  : res (V * gmap string V) :=
  match d !! k with
  | Some v => inr (v, delete k d)
  | None => inl (KeyError k)
  end.

(** [f( **d, k1=.., k2=..)]: Python raises TypeError when [d] holds one of
    the keywords given explicitly; the first such keyword is reported. *)
Definition TypeError (k : string) : exn := Raise "TypeError" k.

Fixpoint check_kwargs {V} (d : gmap string V) (keywords : list string)
  : res unit :=
  match keywords with
  | [] => inr ()
  | k :: keywords' =>
      match d !! k with
      | Some _ => inl (TypeError k)
      | None => check_kwargs d keywords'
      end
  end.

Lemma check_kwargs_ok {V} (d : gmap string V) keywords :
  Forall (fun k => d !! k = None) keywords -> check_kwargs d keywords = inr ().
Proof. induction 1 as [|k ks Hk _ IH]; simpl; [done|]. by rewrite Hk. Qed.

Lemma check_kwargs_clash {V} (d : gmap string V) keywords :
  Exists (fun k => is_Some (d !! k)) keywords ->
  exists k, k ∈ keywords /\ is_Some (d !! k) /\
            check_kwargs d keywords = inl (TypeError k).
Proof.
  induction keywords as [|k ks IH]; intros H; [by apply Exists_nil in H|].
  simpl. destruct (d !! k) as [v|] eqn:E.
  - exists k. split; [by left|]. by rewrite E.
  - apply Exists_cons in H as [[v Hv]|H]; [congruence|].
    destruct (IH H) as (k' & Hin & Hk' & ->). exists k'.
    split; [by right|done].
Qed.

Module GlueFns.
Import Glue.
Section Fns.
(** [logits]: the arrays a model returns.  [parr]: the arrays of
    predictions.  The other types are those of glue_main's [main]. *)
Context {W pyval obj num logits parr : Type}.

Abbreviation example := (gmap string pyval).
Abbreviation ndarray := (@ndarray pyval obj).
Abbreviation batch_dict := (gmap string ndarray).

Inductive event : Type :=
(* state.apply_fn( **batch, params, dropout_rng, train).logits *)
| EvApplyFn (state : obj) (b : batch_dict) (params dropout_rng : obj)
    (train : bool) (r : res logits)
(* model( **batch, params, train=False).logits *)
| EvModel (model : obj) (b : batch_dict) (params : obj) (train : bool)
    (r : res logits)
(* jnp.mean(jnp.square(logits[..., 0] - labels)) *)
| EvMeanSquare (l : logits) (labels : ndarray) (r : res num)
(* optax.softmax_cross_entropy_with_integer_labels(logits, labels).mean() *)
| EvCrossEntropy (l : logits) (labels : ndarray) (r : res num)
(* logits[..., 0] *)
| EvFirstColumn (l : logits) (r : res parr)
(* logits.argmax(axis=-1) *)
| EvArgmax (l : logits) (r : res parr)
(* np.mean(np.square(preds - labels)) *)
| EvSquareError (preds labels : ndarray) (r : res num)
(* np.mean(preds == labels).item() *)
| EvAccuracy (preds labels : ndarray) (r : res num).

Definition ev_exn (ev : event) : option exn :=
  match ev with
  | EvApplyFn _ _ _ _ _ (inl e) | EvModel _ _ _ _ (inl e)
  | EvMeanSquare _ _ (inl e) | EvCrossEntropy _ _ (inl e)
  | EvFirstColumn _ (inl e) | EvArgmax _ (inl e)
  | EvSquareError _ _ (inl e) | EvAccuracy _ _ (inl e) => Some e
  | _ => None
  end.

Record library : Type := Library {
  lib_apply_fn : obj -> batch_dict -> obj -> obj -> bool -> W -> W * res logits;
  lib_model : obj -> batch_dict -> obj -> bool -> W -> W * res logits;
  lib_mean_square : logits -> ndarray -> W -> W * res num;
  lib_cross_entropy : logits -> ndarray -> W -> W * res num;
  lib_first_column : logits -> W -> W * res parr;
  lib_argmax : logits -> W -> W * res parr;
  lib_square_error : ndarray -> ndarray -> W -> W * res num;
  lib_accuracy : ndarray -> ndarray -> W -> W * res num
}.

Variable L : library.
(** The lists [np.array] accepts, as in [collate_fn]. *)
Variable stackable : list pyval -> bool.

Abbreviation prog := (prog W event).
Local Open Scope prog_scope.

(** [loss_fn].  It returns the loss; the second component is the batch
    dictionary as the call leaves it to its caller. *)
Definition loss_fn (train_rng state params : obj) (batch : batch_dict)
    (is_training is_regression : bool) : prog (num * batch_dict) :=
  bind (lift (dict_pop batch "labels"))
    (fun '(labels, batch) =>
       lift (check_kwargs batch ["params"; "dropout_rng"; "train"]) ;;;
       logits <- ext (lib_apply_fn L state batch params train_rng is_training)
                     (EvApplyFn state batch params train_rng is_training) ;;
       loss <- (if is_regression
                then ext (lib_mean_square L logits labels)
                         (EvMeanSquare logits labels)
                else ext (lib_cross_entropy L logits labels)
                         (EvCrossEntropy logits labels)) ;;
       ret (loss, batch)).

(** [pred_fn], with the batch as the call leaves it. *)
Definition pred_fn (pred_rng params : obj) (batch : batch_dict) (model : obj)
    (is_regression : bool) : prog (parr * batch_dict) :=
  bind (lift (dict_pop batch "labels"))
    (fun '(_, batch) =>
       lift (check_kwargs batch ["params"; "train"]) ;;;
       logits <- ext (lib_model L model batch params false)
                     (EvModel model batch params false) ;;
       preds <- (if is_regression
                 then ext (lib_first_column L logits) (EvFirstColumn logits)
                 else ext (lib_argmax L logits) (EvArgmax logits)) ;;
       ret (preds, batch)).

(** [eval_metric_fn]. *)
Definition eval_metric_fn (examples : list example) (preds : list pyval)
    (label_key : string) (is_regression : bool) : prog (gmap string num) :=
  preds <- lift (np_array_of stackable preds) ;;
  labels <- lift (res_bind
                    (res_mapM (fun example : example =>
                                 getitem example label_key) examples)
                    (np_array_of stackable)) ;;
  if is_regression then
    v <- ext (lib_square_error L preds labels)
             (EvSquareError preds labels) ;;
    ret {["square error" := v]}
  else
    v <- ext (lib_accuracy L preds labels) (EvAccuracy preds labels) ;;
    ret {["acc" := v]}.

(** ** Failures *)









(** ** What the model is shown *)

Lemma dict_pop_inv {V} (d : gmap string V) k v d' :
  dict_pop d k = inr (v, d') -> d !! k = Some v /\ d' = delete k d.
Proof. unfold dict_pop. destruct (d !! k); by intros [= <- <-]. Qed.

(** A call made by [loss_fn] on [batch]: the model is shown the batch
    without its labels, in the training mode asked for, and the loss is
    the one the mode asks for, against the labels of the batch. *)
Definition loss_call_ok (state params train_rng : obj) (batch : batch_dict)
    (is_training is_regression : bool) (ev : event) : Prop :=
  match ev with
  | EvApplyFn state' b params' rng train _ =>
      b = delete "labels" batch /\ b !! "labels" = None /\
      state' = state /\ params' = params /\ rng = train_rng /\
      train = is_training
  | EvMeanSquare _ labels _ =>
      is_regression = true /\ batch !! "labels" = Some labels
  | EvCrossEntropy _ labels _ =>
      is_regression = false /\ batch !! "labels" = Some labels
  | _ => False
  end.

Lemma loss_fn_emits train_rng state params batch is_training is_regression :
  emits (loss_call_ok state params train_rng batch is_training is_regression)
    (loss_fn train_rng state params batch is_training is_regression).
Proof.
  unfold loss_fn. apply emits_bind_ok; [apply emits_lift|].
  intros [labels b] [w Hw]. simpl in Hw.
  apply dict_pop_inv in Hw as [Hl ->].
  apply emits_bind; [apply emits_lift|]. intros _.
  apply emits_bind.
  { apply emits_ext. intros r. simpl. by rewrite lookup_delete_eq. }
  intros lg. apply emits_bind; [|intros; apply emits_ret].
  destruct is_regression; by apply emits_ext.
Qed.

(** X9.  In every run of [loss_fn], on any batch, the model is called on
    the batch without its 'labels' entry and in the training mode given;
    the loss is the mean square loss when [is_regression] and the cross
    entropy loss otherwise, computed against the 'labels' entry of the
    batch; nothing else is called. *)
Theorem loss_fn_calls train_rng state params batch is_training
    is_regression w :
  Forall (loss_call_ok state params train_rng batch is_training
            is_regression)
    (trace (loss_fn train_rng state params batch is_training is_regression
              w)).
Proof. apply loss_fn_emits. Qed.

Definition pred_call_ok (model params : obj) (batch : batch_dict)
    (is_regression : bool) (ev : event) : Prop :=
  match ev with
  | EvModel model' b params' train _ =>
      b = delete "labels" batch /\ b !! "labels" = None /\
      model' = model /\ params' = params /\ train = false
  | EvFirstColumn _ _ => is_regression = true
  | EvArgmax _ _ => is_regression = false
  | _ => False
  end.

(** X10.  In every run of [pred_fn], on any batch, the model is called
    on the batch without its 'labels' entry and with train=False; the
    predictions are the first logit column when [is_regression] and the
    argmax otherwise; the labels are never used. *)
Theorem pred_fn_calls pred_rng params batch model is_regression w :
  Forall (pred_call_ok model params batch is_regression)
    (trace (pred_fn pred_rng params batch model is_regression w)).
Proof.
  revert w. change (emits (pred_call_ok model params batch is_regression)
                      (pred_fn pred_rng params batch model is_regression)).
  unfold pred_fn. apply emits_bind_ok; [apply emits_lift|].
  intros [labels b] [w Hw]. simpl in Hw.
  apply dict_pop_inv in Hw as [Hl ->].
  apply emits_bind; [apply emits_lift|]. intros _.
  apply emits_bind.
  { apply emits_ext. intros r. simpl. by rewrite lookup_delete_eq. }
  intros lg. apply emits_bind; [|intros; apply emits_ret].
  destruct is_regression; by apply emits_ext.
Qed.

(** ** The batch is consumed *)

Lemma loss_fn_no_labels train_rng state params (batch : batch_dict)
    is_training is_regression w :
  batch !! "labels" = None ->
  loss_fn train_rng state params batch is_training is_regression w
    = Outcome w [] (inl (KeyError "labels")).
Proof. intros H. unfold loss_fn, bind, lift, dict_pop. by rewrite H. Qed.

Lemma pred_fn_no_labels pred_rng params (batch : batch_dict) model
    is_regression w :
  batch !! "labels" = None ->
  pred_fn pred_rng params batch model is_regression w
    = Outcome w [] (inl (KeyError "labels")).
Proof. intros H. unfold pred_fn, bind, lift, dict_pop. by rewrite H. Qed.

Lemma loss_fn_leaves train_rng state params (batch : batch_dict)
    is_training is_regression w loss batch' :
  result (loss_fn train_rng state params batch is_training is_regression w)
    = inr (loss, batch') ->
  batch' = delete "labels" batch.
Proof.
  unfold loss_fn. intros H.
  destruct (bind_result_ok _ _ _ _ H) as ([labels b] & Hpop & H1).
  simpl in Hpop. apply dict_pop_inv in Hpop as [_ ->].
  destruct (bind_result_ok _ _ _ _ H1) as ([] & _ & H2).
  destruct (bind_result_ok _ _ _ _ H2) as (lg & _ & H3).
  destruct (bind_result_ok _ _ _ _ H3) as (v & _ & H4).
  by destruct (ret_ok _ _ _ H4) as [[= _ <-] _].
Qed.

(** What a later call finds in a batch a call has used. *)
Definition batch_used_up (batch' : batch_dict) : Prop :=
  batch' !! "labels" = None /\
  (forall train_rng state params is_training is_regression w,
      loss_fn train_rng state params batch' is_training is_regression w
      = Outcome w [] (inl (KeyError "labels"))) /\
  (forall pred_rng params model is_regression w,
      pred_fn pred_rng params batch' model is_regression w
      = Outcome w [] (inl (KeyError "labels"))).

(** X11.  [loss_fn] pops the labels out of the caller's dictionary: the
    batch a returning call leaves behind is the batch without 'labels',
    and handing that same dictionary to [loss_fn] or [pred_fn] again
    raises KeyError('labels') before anything is called. *)
Theorem loss_fn_uses_up_batch train_rng state params batch is_training
    is_regression w loss batch' :
  result (loss_fn train_rng state params batch is_training is_regression w)
    = inr (loss, batch') ->
  batch' = delete "labels" batch /\ batch_used_up batch'.
Proof.
  intros H. apply loss_fn_leaves in H as ->. split; [done|].
  assert (Hl : delete "labels" batch !! "labels" = None)
    by apply lookup_delete_eq.
  split; [done|]. split; intros.
  - by apply loss_fn_no_labels.
  - by apply pred_fn_no_labels.
Qed.

(** ** Keyword clashes *)

(** X12.  A batch that still has its labels but also holds an entry
    named like one of the keywords [loss_fn] passes itself ('params',
    'dropout_rng', 'train') cannot be splatted into the model call: the
    call raises TypeError naming such a keyword, and the model is not
    called. *)
Theorem loss_fn_keyword_clash train_rng state params (batch : batch_dict)
    is_training is_regression w :
  is_Some (batch !! "labels") ->
  Exists (fun k => is_Some (batch !! k)) ["params"; "dropout_rng"; "train"] ->
  exists k,
    k ∈ ["params"; "dropout_rng"; "train"] /\ is_Some (batch !! k) /\
    loss_fn train_rng state params batch is_training is_regression w
      = Outcome w [] (inl (TypeError k)).
Proof.
  intros [labels Hl] Hex.
  assert (Hex' : Exists (fun k => is_Some (delete "labels" batch !! k))
                   ["params"; "dropout_rng"; "train"]).
  { apply Exists_exists in Hex as (k & Hin & [v Hv]).
    apply Exists_exists. exists k. split; [done|]. exists v.
    rewrite lookup_delete_ne; [done|]. intros <-.
    repeat (apply elem_of_cons in Hin as [Hin|Hin]; [done|]).
    by apply elem_of_nil in Hin. }
  destruct (check_kwargs_clash _ _ Hex') as (k & Hin & [v Hk] & Hc).
  exists k. split; [done|]. split.
  - apply lookup_delete_Some in Hk as [_ Hk]. by exists v.
  - unfold loss_fn, bind, lift, dict_pop. rewrite Hl.
    cbn -[check_kwargs]. by rewrite Hc.
Qed.

(** ** eval_metric_fn *)

Definition metric_call_ok (preds : list pyval) (labels : list pyval)
    (is_regression : bool) (ev : event) : Prop :=
  match ev with
  | EvSquareError p l _ =>
      is_regression = true /\ p = np_array preds /\ l = np_array labels
  | EvAccuracy p l _ =>
      is_regression = false /\ p = np_array preds /\ l = np_array labels
  | _ => False
  end.

Definition metric_spec (examples : list example) (preds : list pyval)
    (label_key : string) (is_regression : bool)
    (o : outcome W event (gmap string num)) : Prop :=
  exists labels,
    Forall2 (fun ex l => ex !! label_key = Some l) examples labels /\
    (* one call: the metric of the mode, predictions against the labels
       of the examples in their order *)
    (exists r,
        trace o = [ if is_regression
                    then EvSquareError (np_array preds) (np_array labels) r
                    else EvAccuracy (np_array preds) (np_array labels) r ] /\
        (* and one entry in the answer, named after the mode *)
        result o
        = res_map (fun v => {[ (if is_regression then "square error"
                                else "acc") := v ]}) r).

(** X13.  On predictions and labels that numpy can stack, for examples
    that all have [label_key], [eval_metric_fn] makes one call: the mean
    square error (regression) or the accuracy (classification) of the
    predictions against the examples' labels in input order; its answer
    is a dictionary with the single entry 'square error', respectively
    'acc'. *)
Theorem eval_metric_fn_one_metric examples preds label_key is_regression w :
  stackable preds = true ->
  Forall (fun ex : example => is_Some (ex !! label_key)) examples ->
  stackable (values_of label_key examples) = true ->
  metric_spec examples preds label_key is_regression
    (eval_metric_fn examples preds label_key is_regression w).
Proof.
  intros Hp Hwf Hl.
  destruct (res_mapM_ok (fun ex : example => getitem ex label_key)
              (fun ex l => ex !! label_key = Some l) examples)
    as (labels & Hlabels & HL).
  { eapply Forall_impl; [exact Hwf|]. intros ex [l Hl'].
    exists l. unfold getitem. by rewrite Hl'. }
  rewrite (values_of_labels _ _ _ HL) in Hl.
  exists labels. split; [done|].
  unfold eval_metric_fn, bind, lift, ext, ret, np_array_of.
  rewrite Hp. simpl. rewrite Hlabels. simpl. rewrite Hl. simpl.
  destruct is_regression.
  - destruct (lib_square_error L _ _ w) as [w' [e|v]]; simpl;
      by eexists.
  - destruct (lib_accuracy L _ _ w) as [w' [e|v]]; simpl; by eexists.
Qed.

(** X14.  [eval_metric_fn] builds the array of predictions before it
    reads the labels: when an example lacks [label_key], it raises
    KeyError for that key if numpy can stack the predictions, and
    numpy's ValueError if it cannot; no metric is computed either way. *)
Theorem eval_metric_fn_missing_label examples preds label_key
    is_regression w :
  Exists (fun ex : example => ex !! label_key = None) examples ->
  eval_metric_fn examples preds label_key is_regression w
    = Outcome w []
        (inl (if stackable preds then KeyError label_key
              else InhomogeneousShape)).
Proof.
  intros Hex. unfold eval_metric_fn, bind, lift, np_array_of.
  destruct (stackable preds); simpl; [|done].
  by rewrite (res_mapM_getitem_err label_key examples Hex).
Qed.

(** Predictions that numpy cannot stack: ValueError, whatever the
    examples, and no metric. *)
Lemma eval_metric_fn_ragged_preds examples preds label_key is_regression w :
  stackable preds = false ->
  eval_metric_fn examples preds label_key is_regression w
    = Outcome w [] (inl InhomogeneousShape).
Proof.
  intros Hp. unfold eval_metric_fn, bind, lift, np_array_of.
  by rewrite Hp.
Qed.

(** ** After collate_fn *)

Variable Lg : @Glue.library W pyval obj num.

(** A call of [loss_fn] on a collated batch: the model is shown what the
    tokenizer answered, and the loss is taken against the labels. *)
Definition collated_call_ok (b_tok : batch_dict) (labels : list pyval)
    (ev : event) : Prop :=
  match ev with
  | EvApplyFn _ b _ _ _ _ => b = delete "labels" b_tok
  | EvMeanSquare _ l _ | EvCrossEntropy _ l _ => l = np_array labels
  | _ => True
  end.

Definition collate_then_loss_spec (examples : list example)
    (sent0_key : string) (sent1_key : option string)
    (label_key : string) (tokenizer : obj) (max_length : nat) (w : W)
    (b : batch_dict) : Prop :=
  exists texts labels b_tok,
    (* the texts and the labels of the examples, in their order *)
    Forall2 (text_spec sent0_key sent1_key) examples texts /\
    Forall2 (fun ex l => ex !! label_key = Some l) examples labels /\
    (* what the tokenizer answered on these texts *)
    (Glue.lib_tokenizer Lg tokenizer texts max_length w).2 = inr b_tok /\
    forall train_rng state params is_training is_regression w',
      Forall (collated_call_ok b_tok labels)
        (trace (loss_fn train_rng state params b is_training is_regression
                  w')).

(** X15.  [loss_fn] undoes what [collate_fn] added: on a batch
    [collate_fn] returned for some examples, the model is called on what
    the tokenizer answered on the texts of these examples (less a
    'labels' entry of its own, if it had one), and the loss is computed
    against the array of the examples' labels, in their order. *)
Theorem loss_fn_after_collate_fn examples sent0_key sent1_key label_key
    tokenizer max_length w b :
  result (Glue.collate_fn Lg stackable examples sent0_key sent1_key
            label_key tokenizer max_length w) = inr b ->
  collate_then_loss_spec examples sent0_key sent1_key label_key tokenizer
    max_length w b.
Proof.
  intros H.
  destruct (Glue.collate_fn_ok _ _ _ _ _ _ _ _ _ _ H)
    as (texts & labels & b_tok & Htexts & Htok & Hlabels & _ & ->).
  exists texts, labels, b_tok.
  split; [by apply texts_of_spec|].
  split; [by apply res_mapM_getitem_ok|]. split; [done|].
  intros. eapply Forall_impl; [apply loss_fn_emits|].
  intros []; simpl; try done.
  - intros (-> & _). apply delete_insert_eq.
  - rewrite lookup_insert_eq. by intros (_ & [= <-]).
  - rewrite lookup_insert_eq. by intros (_ & [= <-]).
Qed.

Definition collate_then_metric_spec (examples : list example)
    (label_key : string) (b : batch_dict) : Prop :=
  exists labels,
    b !! "labels" = Some labels /\
    forall preds is_regression w',
      if stackable preds then
        (* one metric call, against the labels of the batch *)
        exists r,
          trace (eval_metric_fn examples preds label_key is_regression w')
          = [ if is_regression
              then EvSquareError (np_array preds) labels r
              else EvAccuracy (np_array preds) labels r ]
      else
        (* no call: numpy refuses the predictions *)
        eval_metric_fn examples preds label_key is_regression w'
        = Outcome w' [] (inl InhomogeneousShape).

(** X16.  [eval_metric_fn] scores against the labels the model was
    trained on: for examples [collate_fn] could collate and predictions
    numpy can stack, it makes one metric call, and the label array of
    that call is the 'labels' entry of the collated batch; predictions
    numpy cannot stack make it raise ValueError without a call. *)
Theorem eval_metric_fn_uses_collated_labels examples sent0_key sent1_key
    label_key tokenizer max_length w b :
  result (Glue.collate_fn Lg stackable examples sent0_key sent1_key
            label_key tokenizer max_length w) = inr b ->
  collate_then_metric_spec examples label_key b.
Proof.
  intros H.
  destruct (Glue.collate_fn_ok _ _ _ _ _ _ _ _ _ _ H)
    as (texts & labels & b_tok & _ & _ & Hlabels & Hst & ->).
  exists (np_array labels). split; [apply lookup_insert_eq|].
  intros preds is_regression w'.
  destruct (stackable preds) eqn:Hp;
    [|by apply eval_metric_fn_ragged_preds].
  unfold eval_metric_fn, bind, lift, ext, ret, np_array_of.
  rewrite Hp. simpl. rewrite Hlabels. simpl. rewrite Hst. simpl.
  destruct is_regression.
  - destruct (lib_square_error L _ _ w') as [w2 [e|v]]; simpl; by eexists.
  - destruct (lib_accuracy L _ _ w') as [w2 [e|v]]; simpl; by eexists.
Qed.
End Fns.

(** ** Concrete runs

    Logits and prediction arrays are integers; every call returns. *)

Definition demo_fns_for (pyval : Type) : @library unit pyval string Z Z Z :=
  {| lib_apply_fn := fun _ _ _ _ _ w => (w, inr 7%Z);
     lib_model := fun _ _ _ _ w => (w, inr 7%Z);
     lib_mean_square := fun _ _ w => (w, inr 2%Z);
     lib_cross_entropy := fun _ _ w => (w, inr 3%Z);
     lib_first_column := fun l w => (w, inr l);
     lib_argmax := fun l w => (w, inr l);
     lib_square_error := fun _ _ w => (w, inr 1%Z);
     lib_accuracy := fun _ _ w => (w, inr 1%Z) |}.

Definition demo_fns : @library unit string string Z Z Z :=
  demo_fns_for string.

Definition demo_collated : gmap string (@Glue.ndarray string string) :=
  <["labels" := np_array ["1"; "0"]]> demo_batch.

Lemma loss_fn_uses_up_batch_witness :
  result (loss_fn demo_fns "rng" "state" "params" demo_collated true false ())
    = inr (3%Z, demo_batch) /\
  demo_batch = delete "labels" demo_collated /\
  batch_used_up demo_fns demo_batch.
Proof.
  assert (H : result (loss_fn demo_fns "rng" "state" "params" demo_collated
                        true false ()) = inr (3%Z, demo_batch))
    by (vm_compute; reflexivity).
  split; [exact H|].
  exact (loss_fn_uses_up_batch demo_fns "rng" "state" "params" demo_collated
           true false () 3%Z demo_batch H).
Defined.

(** A batch with an entry called 'train'. *)
Definition demo_clashing : gmap string (@Glue.ndarray string string) :=
  <["train" := np_tokens "flag"]> demo_collated.

Lemma loss_fn_keyword_clash_witness :
  is_Some (demo_clashing !! "labels") /\
  exists k,
    k ∈ ["params"; "dropout_rng"; "train"] /\ is_Some (demo_clashing !! k) /\
    loss_fn demo_fns "rng" "state" "params" demo_clashing true false ()
      = Outcome () [] (inl (TypeError k)).
Proof.
  assert (H1 : is_Some (demo_clashing !! "labels"))
    by (eexists; vm_compute; reflexivity).
  assert (H2 : Exists (fun k => is_Some (demo_clashing !! k))
                 ["params"; "dropout_rng"; "train"]).
  { do 2 apply Exists_cons_tl. apply Exists_cons_hd.
    eexists. vm_compute. reflexivity. }
  split; [exact H1|].
  exact (loss_fn_keyword_clash demo_fns "rng" "state" "params" demo_clashing
           true false () H1 H2).
Defined.

Lemma eval_metric_fn_one_metric_witness :
  demo_scalars ["1"; "1"] = true /\
  Forall (fun ex : gmap string string => is_Some (ex !! "label"))
    demo_examples /\
  demo_scalars (values_of "label" demo_examples) = true /\
  metric_spec demo_examples ["1"; "1"] "label" false
    (eval_metric_fn demo_fns demo_scalars demo_examples ["1"; "1"] "label"
       false ()).
Proof.
  assert (H : Forall (fun ex : gmap string string => is_Some (ex !! "label"))
                demo_examples).
  { repeat (constructor; [eexists; vm_compute; reflexivity|]). constructor. }
  split; [reflexivity|]. split; [exact H|]. split; [reflexivity|].
  exact (eval_metric_fn_one_metric demo_fns demo_scalars demo_examples
           ["1"; "1"] "label" false () eq_refl H eq_refl).
Defined.

Lemma eval_metric_fn_missing_label_witness :
  Exists (fun ex : gmap string string => ex !! "score" = None) demo_examples /\
  eval_metric_fn demo_fns demo_scalars demo_examples ["1"; "1"] "score" true
    ()
    = Outcome () [] (inl (KeyError "score")).
Proof.
  assert (H : Exists (fun ex : gmap string string => ex !! "score" = None)
                demo_examples).
  { apply Exists_cons_hd. vm_compute. reflexivity. }
  split; [exact H|].
  exact (eval_metric_fn_missing_label demo_fns demo_scalars demo_examples
           ["1"; "1"] "score" true () H).
Defined.

(** Predictions of different lengths are refused before the labels are
    read: ValueError, also when the label key is missing. *)
Example demo_ragged_preds :
  eval_metric_fn (demo_fns_for (list Z)) same_length demo_ragged
    [[1; 0]; [1]]%Z "score" false ()
  = Outcome () [] (inl InhomogeneousShape).
Proof. vm_compute. reflexivity. Qed.

Lemma loss_fn_after_collate_fn_witness :
  result (Glue.collate_fn Glue.demo_library demo_scalars demo_examples
            "sentence" None "label" "tokenizer" 512 ()) = inr demo_collated /\
  collate_then_loss_spec demo_fns Glue.demo_library demo_examples
    "sentence" None "label" "tokenizer" 512 () demo_collated.
Proof.
  assert (H : result (Glue.collate_fn Glue.demo_library demo_scalars
                        demo_examples "sentence" None "label" "tokenizer"
                        512 ())
              = inr demo_collated) by (vm_compute; reflexivity).
  split; [exact H|].
  exact (loss_fn_after_collate_fn demo_fns demo_scalars Glue.demo_library
           demo_examples "sentence" None "label" "tokenizer" 512 ()
           demo_collated H).
Defined.

Lemma eval_metric_fn_uses_collated_labels_witness :
  result (Glue.collate_fn Glue.demo_library demo_scalars demo_examples
            "sentence" None "label" "tokenizer" 512 ()) = inr demo_collated /\
  collate_then_metric_spec demo_fns demo_scalars demo_examples "label"
    demo_collated.
Proof.
  assert (H : result (Glue.collate_fn Glue.demo_library demo_scalars
                        demo_examples "sentence" None "label" "tokenizer"
                        512 ())
              = inr demo_collated) by (vm_compute; reflexivity).
  split; [exact H|].
  exact (eval_metric_fn_uses_collated_labels demo_fns demo_scalars
           Glue.demo_library demo_examples "sentence" None "label"
           "tokenizer" 512 () demo_collated H).
Defined.
End GlueFns.
(* ===================================================================== *)
(** * examples/reinforcement_learning/ppo_main.py *)

Module PPO.
Section PPO.
(** [obs]: observations.  [act]: actions.  [num]: Python floats, with
    the float [0.] and float addition.  [info]: the info dictionaries of
    the environment.  [obj]: references to library objects. *)
Context {W obs act num info obj : Type}.
Variable num_zero : num.
Variable num_add : num -> num -> num.

(** [ppo_agent.Transition], as the script constructs it. *)
Record Transition : Type := {
  state : obs;
  action : act;
  next_state : obs;
  reward : num;
  done : Z
}.

(** [int(b)]. *)
Definition int_of_bool (b : bool) : Z := if b then 1%Z else 0%Z.

(** The parameters of [main]. *)
Record main_args : Type := MainArgs {
  env_name : string;
  n_episodes : nat;
  actor_lr : num;
  critic_lr : num;
  gamma : num;
  gae_lambda : num;
  epsilon : num;
  jax_seed : nat
}.

(** The matplotlib calls that close [main]. *)
Inductive plt_call : Type :=
| plt_plot (xs : list nat) (ys : list num) (label : string)
| plt_xlabel (s : string)
| plt_ylabel (s : string)
| plt_title (s : string)
| plt_legend
| plt_savefig (prefix name suffix : string)
| plt_show.

(** What [env.step] answers. *)
Abbreviation step_answer := (obs * num * bool * bool * info)%type.

Inductive event : Type :=
| EvMake (env_name : string) (r : res obj)
| EvObservationShape (env : obj) (r : res (list nat))
| EvActionN (env : obj) (r : res nat)
| EvPPOAgent (state_dim action_dim : nat) (a : main_args) (r : res obj)
| EvReset (env : obj) (r : res (obs * info))
| EvPredictAction (agent : obj) (state : obs) (r : res act)
| EvStep (env : obj) (action : act) (r : res step_answer)
| EvPrint (episode_idx : nat) (sum_rewards : num) (r : res unit)
| EvUpdate (agent : obj) (transitions : list Transition) (r : res unit)
| EvTrain (agent : obj) (n_epochs : nat) (r : res unit)
| EvClose (env : obj) (r : res unit)
| EvPlt (c : plt_call) (r : res unit).

Definition ev_exn (ev : event) : option exn :=
  match ev with
  | EvMake _ (inl e) | EvObservationShape _ (inl e) | EvActionN _ (inl e)
  | EvPPOAgent _ _ _ (inl e) | EvReset _ (inl e)
  | EvPredictAction _ _ (inl e) | EvStep _ _ (inl e) | EvPrint _ _ (inl e)
  | EvUpdate _ _ (inl e) | EvTrain _ _ (inl e) | EvClose _ (inl e)
  | EvPlt _ (inl e) => Some e
  | _ => None
  end.

Record library : Type := Library {
  (* gym.make(env_name) *)
  lib_make : string -> W -> W * res obj;
  (* env.observation_space.shape *)
  lib_observation_shape : obj -> W -> W * res (list nat);
  (* env.action_space.n *)
  lib_action_n : obj -> W -> W * res nat;
  (* PPOAgent(state_dim, action_dim, actor_lr, ..., jax_seed) *)
  lib_PPOAgent : nat -> nat -> main_args -> W -> W * res obj;
  (* env.reset() *)
  lib_reset : obj -> W -> W * res (obs * info);
  (* agent.predict_action(state) *)
  lib_predict_action : obj -> obs -> W -> W * res act;
  (* env.step(action) *)
  lib_step : obj -> act -> W -> W * res step_answer;
  (* print(f'Episode {episode_idx}: reward = {sum_rewards}') *)
  lib_print : nat -> num -> W -> W * res unit;
  (* agent.update(transitions) *)
  lib_update : obj -> list Transition -> W -> W * res unit;
  (* agent.train(n_epochs) *)
  lib_train : obj -> nat -> W -> W * res unit;
  (* env.close() *)
  lib_close : obj -> W -> W * res unit;
  (* matplotlib.pyplot *)
  lib_plt : plt_call -> W -> W * res unit
}.

Variable L : library.

Abbreviation prog := (prog W event).
Local Open Scope prog_scope.

Definition AssertionError : exn := Raise "AssertionError" "".

(** The [while True] loop of an episode, run for at most [fuel] steps.
    [None] is returned when the fuel runs out; [Some episode_rewards]
    when the loop is left through [break]. *)
Fixpoint episode_loop (fuel : nat) (env agent : obj) (episode_idx : nat)
    (state : obs) (sum_rewards : num) (transitions : list Transition)
    (episode_rewards : list num) : prog (option (list num)) :=
  match fuel with
  | 0 => ret None
  | S fuel' =>
      action <- ext (lib_predict_action L agent state)
                    (EvPredictAction agent state) ;;
      bind (ext (lib_step L env action) (EvStep env action))
        (fun '(next_state, reward, terminated, truncated, info) =>
           let sum_rewards := num_add sum_rewards reward in
           let transitions :=
             transitions ++
               [ {| state := state; action := action;
                    next_state := next_state; reward := reward;
                    done := int_of_bool terminated |} ] in
           let state := next_state in
           if terminated || truncated then
             ext (lib_print L episode_idx sum_rewards)
                 (EvPrint episode_idx sum_rewards) ;;;
             let episode_rewards := episode_rewards ++ [sum_rewards] in
             ext (lib_update L agent transitions)
                 (EvUpdate agent transitions) ;;;
             ext (lib_train L agent 10) (EvTrain agent 10) ;;;
             ret (Some episode_rewards)
           else
             episode_loop fuel' env agent episode_idx state sum_rewards
               transitions episode_rewards)
  end.

(** The body of the [for episode_idx] loop. *)
Definition episode (fuel : nat) (env agent : obj)
    (episode_rewards : list num) (episode_idx : nat)
  : prog (option (list num)) :=
  bind (ext (lib_reset L env) (EvReset env))
    (fun '(state, info) =>
       episode_loop fuel env agent episode_idx state num_zero []
         episode_rewards).

(** [for episode_idx in range(n_episodes)], stopping when an episode runs
    out of fuel. *)
Fixpoint episodes (fuel : nat) (env agent : obj) (idxs : list nat)
    (episode_rewards : list num) : prog (option (list num)) :=
  match idxs with
  | [] => ret (Some episode_rewards)
  | episode_idx :: idxs' =>
      r <- episode fuel env agent episode_rewards episode_idx ;;
      match r with
      | None => ret None
      | Some episode_rewards => episodes fuel env agent idxs' episode_rewards
      end
  end.

(** [main]. *)
Definition main (fuel : nat) (a : main_args) : prog (option unit) :=
  env <- ext (lib_make L (env_name a)) (EvMake (env_name a)) ;;
  shape <- ext (lib_observation_shape L env) (EvObservationShape env) ;;
  (if bool_decide (length shape = 1) then ret ()
   else raise AssertionError) ;;;
  shape' <- ext (lib_observation_shape L env) (EvObservationShape env) ;;
  state_dim <- lift (list_getitem shape' 0) ;;
  action_dim <- ext (lib_action_n L env) (EvActionN env) ;;
  agent <- ext (lib_PPOAgent L state_dim action_dim a)
               (EvPPOAgent state_dim action_dim a) ;;
  r <- episodes fuel env agent (seq 0 (n_episodes a)) [] ;;
  match r with
  | None => ret None
  | Some episode_rewards =>
      ext (lib_close L env) (EvClose env) ;;;
      ext (lib_plt L (plt_plot (seq 0 (length episode_rewards))
                        episode_rewards "ppo"))
          (EvPlt (plt_plot (seq 0 (length episode_rewards))
                    episode_rewards "ppo")) ;;;
      ext (lib_plt L (plt_xlabel "Episode")) (EvPlt (plt_xlabel "Episode")) ;;;
      ext (lib_plt L (plt_ylabel "Reward")) (EvPlt (plt_ylabel "Reward")) ;;;
      ext (lib_plt L (plt_title (env_name a)))
          (EvPlt (plt_title (env_name a))) ;;;
      ext (lib_plt L plt_legend) (EvPlt plt_legend) ;;;
      ext (lib_plt L (plt_savefig "ppo_" (env_name a) ".png"))
          (EvPlt (plt_savefig "ppo_" (env_name a) ".png")) ;;;
      ext (lib_plt L plt_show) (EvPlt plt_show) ;;;
      ret (Some ())
  end.

(** ** The steps of an episode *)

(** One step of an episode: the action predicted and what [env.step]
    answered. *)
Record step : Type := Step {
  st_action : act;
  st_next : obs;
  st_reward : num;
  st_terminated : bool;
  st_truncated : bool;
  st_info : info
}.

(** The environment reported the end of the episode at this step. *)
Definition ended (st : step) : bool := st_terminated st || st_truncated st.

(** The library calls of a sequence of steps begun in [state]. *)
Fixpoint steps_trace (env agent : obj) (state : obs) (steps : list step)
  : list event :=
  match steps with
  | [] => []
  | st :: steps' =>
      EvPredictAction agent state (inr (st_action st))
        :: EvStep env (st_action st)
             (inr (st_next st, st_reward st, st_terminated st,
                   st_truncated st, st_info st))
        :: steps_trace env agent (st_next st) steps'
  end.

(** The transitions the script records for these steps. *)
Fixpoint transitions_of (state : obs) (steps : list step)
  : list Transition :=
  match steps with
  | [] => []
  | st :: steps' =>
      {| state := state; action := st_action st; next_state := st_next st;
         reward := st_reward st; done := int_of_bool (st_terminated st) |}
        :: transitions_of (st_next st) steps'
  end.

(** The shape of an episode that is left through [break]. *)
Definition episode_shape (env agent : obj) (episode_idx : nat)
    (state : obs) (sum_rewards : num) (transitions : list Transition)
    (episode_rewards : list num) (tr : list event)
    (episode_rewards' : list num) (steps : list step) (last : step)
  : Prop :=
  let total :=
    fold_left num_add (st_reward <$> (steps ++ [last])) sum_rewards in
  Forall (fun st => ended st = false) steps /\
  ended last = true /\
  tr = steps_trace env agent state (steps ++ [last])
         ++ [ EvPrint episode_idx total (inr ());
              EvUpdate agent
                (transitions ++ transitions_of state (steps ++ [last]))
                (inr ());
              EvTrain agent 10 (inr ()) ] /\
  episode_rewards' = episode_rewards ++ [total].

Lemma ppo_episode_loop_ok env agent episode_idx fuel :
  forall state sum_rewards transitions episode_rewards w episode_rewards',
    result (episode_loop fuel env agent episode_idx state sum_rewards
              transitions episode_rewards w) = inr (Some episode_rewards') ->
    exists steps last,
      episode_shape env agent episode_idx state sum_rewards transitions
        episode_rewards
        (trace (episode_loop fuel env agent episode_idx state sum_rewards
                  transitions episode_rewards w))
        episode_rewards' steps last.
Proof.
  induction fuel as [|fuel IH]; intros state sum transitions er w er' H;
    [done|].
  simpl in H |- *.
  bind_inv H as action Hact H1. rewrite (ext_ok _ _ _ _ Hact).
  bind_inv H1 as [[[[next_state reward] terminated] truncated] inf] Hstep H2.
  rewrite (ext_ok _ _ _ _ Hstep).
  destruct (terminated || truncated) eqn:Hend.
  - bind_inv H2 as [] Hp H3. rewrite (ext_ok _ _ _ _ Hp).
    bind_inv H3 as [] Hu H4. rewrite (ext_ok _ _ _ _ Hu).
    bind_inv H4 as [] Ht H5. rewrite (ext_ok _ _ _ _ Ht).
    destruct (ret_ok _ _ _ H5) as [[= <-] ->].
    exists [], (Step action next_state reward terminated truncated inf).
    unfold episode_shape. simpl. by repeat split.
  - destruct (IH _ _ _ _ _ _ H2) as (steps & last & Hrun & Hlast & -> & ->).
    exists (Step action next_state reward terminated truncated inf :: steps),
      last.
    unfold episode_shape. simpl. repeat split; [|done|..].
    + by constructor.
    + by rewrite <- !app_assoc.
Qed.

(** The fuel runs out only when the environment has not reported the end
    of the episode in [fuel] steps: the loop never stops by itself. *)
Lemma ppo_episode_loop_out_of_fuel env agent episode_idx fuel :
  forall state sum_rewards transitions episode_rewards w,
    result (episode_loop fuel env agent episode_idx state sum_rewards
              transitions episode_rewards w) = inr None ->
    exists steps,
      length steps = fuel /\
      Forall (fun st => ended st = false) steps /\
      trace (episode_loop fuel env agent episode_idx state sum_rewards
               transitions episode_rewards w)
        = steps_trace env agent state steps.
Proof.
  induction fuel as [|fuel IH]; intros state sum transitions er w H.
  { exists []. by repeat split. }
  simpl in H |- *.
  bind_inv H as action Hact H1. rewrite (ext_ok _ _ _ _ Hact).
  bind_inv H1 as [[[[next_state reward] terminated] truncated] inf] Hstep H2.
  rewrite (ext_ok _ _ _ _ Hstep).
  destruct (terminated || truncated) eqn:Hend.
  - bind_inv H2 as [] Hp H3. bind_inv H3 as [] Hu H4.
    bind_inv H4 as [] Ht H5. by destruct (ret_ok _ _ _ H5).
  - destruct (IH _ _ _ _ _ H2) as (steps & Hlen & Hrun & ->).
    exists (Step action next_state reward terminated truncated inf :: steps).
    simpl. repeat split; [by rewrite Hlen|by constructor].
Qed.

(** More fuel does not change an episode that was left through [break]. *)
Lemma ppo_episode_loop_fuel_mono env agent episode_idx fuel :
  forall fuel' state sum_rewards transitions episode_rewards w episode_rewards',
    fuel <= fuel' ->
    result (episode_loop fuel env agent episode_idx state sum_rewards
              transitions episode_rewards w) = inr (Some episode_rewards') ->
    episode_loop fuel' env agent episode_idx state sum_rewards
      transitions episode_rewards w
    = episode_loop fuel env agent episode_idx state sum_rewards
        transitions episode_rewards w.
Proof.
  induction fuel as [|fuel IH];
    intros fuel' state sum transitions er w er' Hle H; [done|].
  destruct fuel' as [|fuel']; [lia|]. simpl in H |- *.
  unfold bind, ext in H |- *.
  destruct (lib_predict_action L agent state w) as [w1 [e|action]];
    simpl in H |- *; [done|].
  destruct (lib_step L env action w1)
    as [w2 [e|[[[[next_state reward] terminated] truncated] inf]]];
    simpl in H |- *; [done|].
  destruct (terminated || truncated); [done|].
  destruct (result (episode_loop fuel _ _ _ _ _ _ _ _)) as [e|r] eqn:E;
    [done|].
  simpl in H. injection H as ->.
  by rewrite (IH fuel' _ _ _ _ _ _ ltac:(lia) E), E.
Qed.

Lemma ppo_episode_ok fuel env agent episode_rewards episode_idx w episode_rewards' :
  result (episode fuel env agent episode_rewards episode_idx w)
    = inr (Some episode_rewards') ->
  exists state0 info0 steps last tr,
    trace (episode fuel env agent episode_rewards episode_idx w)
      = EvReset env (inr (state0, info0)) :: tr /\
    episode_shape env agent episode_idx state0 num_zero [] episode_rewards
      tr episode_rewards' steps last.
Proof.
  unfold episode. intros H.
  bind_inv H as [state0 info0] Hreset H1. rewrite (ext_ok _ _ _ _ Hreset).
  destruct (ppo_episode_loop_ok _ _ _ _ _ _ _ _ _ _ H1) as (steps & last & Hshape).
  by exists state0, info0, steps, last, (trace (episode_loop fuel env agent
    episode_idx state0 num_zero [] episode_rewards
    (world (ext (lib_reset L env) (EvReset env) w)))).
Qed.

(** ** Reading the trace of an episode *)

(** The answers of the [env.step] calls that returned. *)
Definition step_answers (tr : list event) : list step_answer :=
  omap (fun ev => match ev with
                  | EvStep _ _ (inr ans) => Some ans
                  | _ => None
                  end) tr.

Definition answer_reward (ans : step_answer) : num := ans.1.1.1.2.
Definition answer_terminated (ans : step_answer) : bool := ans.1.1.2.
Definition answer_truncated (ans : step_answer) : bool := ans.1.2.

(** The per-step rewards returned by [env.step]. *)
Definition step_rewards (tr : list event) : list num :=
  answer_reward <$> step_answers tr.

(** The episode rewards printed. *)
Definition printed (tr : list event) : list (nat * num) :=
  omap (fun ev => match ev with
                  | EvPrint episode_idx total _ => Some (episode_idx, total)
                  | _ => None
                  end) tr.

(** The arguments of the [agent.update] and [agent.train] calls. *)
Definition update_calls (tr : list event) : list (list Transition) :=
  omap (fun ev => match ev with
                  | EvUpdate _ transitions _ => Some transitions
                  | _ => None
                  end) tr.

Definition train_calls (tr : list event) : list nat :=
  omap (fun ev => match ev with
                  | EvTrain _ n_epochs _ => Some n_epochs
                  | _ => None
                  end) tr.

Definition answer_of (st : step) : step_answer :=
  (st_next st, st_reward st, st_terminated st, st_truncated st, st_info st).

Lemma step_answers_steps env agent steps : forall state,
  step_answers (steps_trace env agent state steps) = answer_of <$> steps.
Proof.
  induction steps as [|st steps IH]; intros state; simpl; [done|].
  by rewrite IH.
Qed.

Lemma printed_steps env agent steps : forall state,
  printed (steps_trace env agent state steps) = [].
Proof. induction steps as [|st steps IH]; intros state; simpl; auto. Qed.

Lemma update_calls_steps env agent steps : forall state,
  update_calls (steps_trace env agent state steps) = [].
Proof. induction steps as [|st steps IH]; intros state; simpl; auto. Qed.

Lemma train_calls_steps env agent steps : forall state,
  train_calls (steps_trace env agent state steps) = [].
Proof. induction steps as [|st steps IH]; intros state; simpl; auto. Qed.

Lemma transitions_of_done steps : forall state,
  Forall2 (fun t ans => done t = int_of_bool (answer_terminated ans))
    (transitions_of state steps) (answer_of <$> steps).
Proof.
  induction steps as [|st steps IH]; intros state; simpl; constructor; auto.
Qed.

Lemma Forall2_last_r {A B} (P : A -> B -> Prop) l1 l2 y :
  Forall2 P l1 l2 -> last l2 = Some y ->
  exists x, last l1 = Some x /\ P x y.
Proof.
  induction 1 as [|x' y' l1 l2 HP HF IH]; [done|].
  destruct HF as [|x'' y'' l1 l2 HP' HF].
  - simpl. intros [= <-]. by exists x'.
  - intros Hl. apply IH. exact Hl.
Qed.

(** ** Properties of an episode *)

Definition episode_order_spec (env agent : obj) (episode_idx : nat)
    (tr : list event) : Prop :=
  exists state0 info0 steps last total,
    (* the steps go on until the environment reports the end *)
    Forall (fun st => ended st = false) steps /\ ended last = true /\
    (* then, and only then: the report, update on all the transitions of
       the episode, train for ten epochs *)
    tr = EvReset env (inr (state0, info0))
           :: steps_trace env agent state0 (steps ++ [last])
           ++ [ EvPrint episode_idx total (inr ());
                EvUpdate agent (transitions_of state0 (steps ++ [last]))
                  (inr ());
                EvTrain agent 10 (inr ()) ] /\
    update_calls tr = [transitions_of state0 (steps ++ [last])] /\
    train_calls tr = [10] /\
    length (transitions_of state0 (steps ++ [last]))
      = length (step_answers tr).

Lemma length_transitions_of steps : forall state,
  length (transitions_of state steps) = length steps.
Proof.
  induction steps as [|st steps IH]; intros state; simpl; [done|].
  by rewrite IH.
Qed.

(** C5.  An episode of the PPO driver that is left through [break] runs
    steps until the environment reports terminated or truncated; then,
    once and in this order, [agent.update] is called with all the
    transitions of the episode and [agent.train] with [n_epochs=10].
    There is no update or train call between the steps. *)
Theorem episode_update_then_train
    fuel env agent episode_rewards episode_idx w episode_rewards' :
  result (episode fuel env agent episode_rewards episode_idx w)
    = inr (Some episode_rewards') ->
  episode_order_spec env agent episode_idx
    (trace (episode fuel env agent episode_rewards episode_idx w)).
Proof.
  intros H.
  destruct (ppo_episode_ok _ _ _ _ _ _ _ H)
    as (state0 & info0 & steps & last & tr & -> & Hrun & Hend & -> & _).
  exists state0, info0, steps, last. eexists.
  split; [done|]. split; [done|]. split; [done|].
  unfold update_calls, train_calls, step_answers; simpl.
  rewrite !omap_app. fold update_calls train_calls step_answers.
  rewrite update_calls_steps, train_calls_steps, step_answers_steps. simpl.
  rewrite app_nil_r, length_transitions_of, length_fmap. done.
Qed.

Definition transitions_done_spec (tr : list event) : Prop :=
  exists transitions,
    update_calls tr = [transitions] /\
    (* transition by transition, against the answers of env.step *)
    Forall2 (fun t ans =>
               (done t = 1%Z <-> answer_terminated ans = true) /\
               (done t = 0%Z <-> answer_terminated ans = false))
      transitions (step_answers tr) /\
    (* an episode ended by truncation alone *)
    (forall ans,
       last (step_answers tr) = Some ans ->
       answer_truncated ans = true -> answer_terminated ans = false ->
       exists t, last transitions = Some t /\ done t = 0%Z).

(** C10.  In an episode of the PPO driver, each recorded transition has
    [done = 1] exactly when the corresponding [env.step] reported
    terminated (and [done = 0] otherwise); so the last transition of an
    episode that ends by truncation without termination has [done = 0]. *)
Theorem transitions_done_iff_terminated
    fuel env agent episode_rewards episode_idx w episode_rewards' :
  result (episode fuel env agent episode_rewards episode_idx w)
    = inr (Some episode_rewards') ->
  transitions_done_spec
    (trace (episode fuel env agent episode_rewards episode_idx w)).
Proof.
  intros H.
  destruct (ppo_episode_ok _ _ _ _ _ _ _ H)
    as (state0 & info0 & steps & last & tr & -> & Hrun & Hend & -> & _).
  exists (transitions_of state0 (steps ++ [last])).
  unfold update_calls, step_answers; simpl.
  rewrite !omap_app. fold update_calls step_answers.
  rewrite update_calls_steps, step_answers_steps. simpl.
  rewrite app_nil_r.
  assert (HF : Forall2 (fun t ans =>
               (done t = 1%Z <-> answer_terminated ans = true) /\
               (done t = 0%Z <-> answer_terminated ans = false))
      (transitions_of state0 (steps ++ [last]))
      (answer_of <$> steps ++ [last])).
  { eapply Forall2_impl; [apply transitions_of_done|].
    intros t ans ->. by destruct (answer_terminated ans). }
  split; [done|]. split; [done|].
  intros ans Hlast _ Hterm.
  destruct (Forall2_last_r _ _ _ _ HF Hlast) as (t & Ht & _ & Hd).
  exists t. split; [done|]. by apply Hd.
Qed.

Definition ppo_reward_spec (episode_idx : nat) (episode_rewards : list num)
    (tr : list event) (episode_rewards' : list num) : Prop :=
  let total := fold_left num_add (step_rewards tr) num_zero in
  episode_rewards' = episode_rewards ++ [total] /\
  printed tr = [(episode_idx, total)].

Lemma ppo_episode_reward_is_sum
    fuel env agent episode_rewards episode_idx w episode_rewards' :
  result (episode fuel env agent episode_rewards episode_idx w)
    = inr (Some episode_rewards') ->
  ppo_reward_spec episode_idx episode_rewards
    (trace (episode fuel env agent episode_rewards episode_idx w))
    episode_rewards'.
Proof.
  intros H.
  destruct (ppo_episode_ok _ _ _ _ _ _ _ H)
    as (state0 & info0 & steps & last & tr & -> & Hrun & Hend & -> & ->).
  unfold ppo_reward_spec, step_rewards, printed, step_answers; simpl.
  rewrite !omap_app. fold printed step_answers.
  rewrite printed_steps, step_answers_steps. simpl.
  rewrite app_nil_r, <- list_fmap_compose. done.
Qed.

(** ** Failures in the PPO driver *)

Lemma ppo_episode_loop_faithful env agent episode_idx fuel :
  forall state sum_rewards transitions episode_rewards,
    faithful ev_exn
      (episode_loop fuel env agent episode_idx state sum_rewards transitions
         episode_rewards).
Proof.
  induction fuel as [|fuel IH]; intros; simpl; faithful_auto. apply IH.
Qed.

Lemma ppo_episode_faithful fuel env agent episode_rewards episode_idx :
  faithful ev_exn (episode fuel env agent episode_rewards episode_idx).
Proof.
  unfold episode. faithful_auto. apply ppo_episode_loop_faithful.
Qed.






(** ** Further properties of the PPO driver *)

(** X20.  [main] asserts that observations are flat: when the shape of
    the observation space has not exactly one dimension, it raises
    AssertionError right after reading the shape; no agent is built and
    no episode is run. *)
Theorem main_asserts_flat_observations fuel a w env shape :
  (lib_make L (env_name a) w).2 = inr env ->
  (lib_observation_shape L env (lib_make L (env_name a) w).1).2
    = inr shape ->
  length shape <> 1 ->
  result (main fuel a w) = inl AssertionError /\
  trace (main fuel a w)
    = [ EvMake (env_name a) (inr env); EvObservationShape env (inr shape) ].
Proof.
  intros Hm Hs Hlen. unfold main.
  rewrite bind_ext_run, Hm. cbv beta iota.
  rewrite bind_ext_run, Hs. cbv beta iota.
  rewrite bool_decide_eq_false_2 by done.
  by rewrite bind_raise.
Qed.

(** Transitions that follow one another from [state0]. *)
Fixpoint chained (state0 : obs) (ts : list Transition) : Prop :=
  match ts with
  | [] => True
  | t :: ts' => state t = state0 /\ chained (next_state t) ts'
  end.

(** The states on which actions were predicted, with the actions. *)
Definition predictions (tr : list event) : list (obs * act) :=
  omap (fun ev => match ev with
                  | EvPredictAction _ s (inr a) => Some (s, a)
                  | _ => None
                  end) tr.

(** The observation answered by the reset that opens an episode. *)
Definition reset_state (tr : list event) : option obs :=
  match tr with
  | EvReset _ (inr (s, _)) :: _ => Some s
  | _ => None
  end.

Definition transitions_spec (tr : list event) : Prop :=
  exists state0 ts,
    reset_state tr = Some state0 /\ update_calls tr = [ts] /\
    (* each transition starts where the one before it ended, the first
       where the reset put the environment *)
    chained state0 ts /\
    (* its action is the one predicted on its state *)
    predictions tr = (fun t => (state t, action t)) <$> ts /\
    (* its next state and reward are those [env.step] answered *)
    Forall2 (fun t ans => next_state t = ans.1.1.1.1 /\
                          reward t = answer_reward ans)
      ts (step_answers tr).

Lemma chained_transitions_of steps : forall state0,
  chained state0 (transitions_of state0 steps).
Proof. induction steps as [|st steps IH]; intros s0; simpl; auto. Qed.

Lemma predictions_steps env agent steps : forall state0,
  predictions (steps_trace env agent state0 steps)
  = (fun t => (state t, action t)) <$> transitions_of state0 steps.
Proof.
  induction steps as [|st steps IH]; intros s0; simpl; [done|].
  by rewrite IH.
Qed.

Lemma transitions_of_answers steps : forall state0,
  Forall2 (fun t ans => next_state t = ans.1.1.1.1 /\
                        reward t = answer_reward ans)
    (transitions_of state0 steps) (answer_of <$> steps).
Proof.
  induction steps as [|st steps IH]; intros s0; simpl; constructor; auto.
Qed.

(** X21.  The transitions handed to [agent.update] at the end of an
    episode retrace it: the first starts in the state the reset
    answered, each next one starts in the [next_state] of the one before,
    the action of each is the one the agent predicted on its state, and
    its next state and reward are what [env.step] answered for that
    action. *)
Theorem transitions_retrace_episode
    fuel env agent episode_rewards episode_idx w episode_rewards' :
  result (episode fuel env agent episode_rewards episode_idx w)
    = inr (Some episode_rewards') ->
  transitions_spec
    (trace (episode fuel env agent episode_rewards episode_idx w)).
Proof.
  intros H.
  destruct (ppo_episode_ok _ _ _ _ _ _ _ H)
    as (state0 & info0 & steps & last & tr & -> & Hrun & Hend & -> & _).
  exists state0, (transitions_of state0 (steps ++ [last])).
  split; [done|].
  unfold update_calls, predictions, step_answers; simpl.
  rewrite !omap_app. fold update_calls predictions step_answers.
  rewrite update_calls_steps, predictions_steps, step_answers_steps. simpl.
  rewrite !app_nil_r. split; [done|].
  split; [apply chained_transitions_of|]. split; [done|].
  apply transitions_of_answers.
Qed.

(** ** The whole run *)

(** The arguments of the [plt.plot] calls. *)
Definition plots (tr : list event) : list (list nat * list num * string) :=
  omap (fun ev => match ev with
                  | EvPlt (plt_plot xs ys label) _ => Some (xs, ys, label)
                  | _ => None
                  end) tr.

(** The environments closed. *)
Definition close_calls (tr : list event) : list obj :=
  omap (fun ev => match ev with
                  | EvClose env _ => Some env
                  | _ => None
                  end) tr.

Definition episodes_summary (idxs : list nat) (tr : list event)
    (totals : list num) : Prop :=
  length totals = length idxs /\
  printed tr = zip idxs totals /\
  length (update_calls tr) = length idxs /\
  train_calls tr = replicate (length idxs) 10 /\
  plots tr = [] /\ close_calls tr = [].

Lemma plots_steps env agent steps : forall state0,
  plots (steps_trace env agent state0 steps) = [].
Proof. induction steps as [|st steps IH]; intros s0; simpl; auto. Qed.

Lemma close_calls_steps env agent steps : forall state0,
  close_calls (steps_trace env agent state0 steps) = [].
Proof. induction steps as [|st steps IH]; intros s0; simpl; auto. Qed.

Lemma ppo_episode_summary
    fuel env agent episode_rewards episode_idx w episode_rewards' :
  result (episode fuel env agent episode_rewards episode_idx w)
    = inr (Some episode_rewards') ->
  exists total,
    episode_rewards' = episode_rewards ++ [total] /\
    episodes_summary [episode_idx]
      (trace (episode fuel env agent episode_rewards episode_idx w)) [total].
Proof.
  intros H.
  destruct (ppo_episode_ok _ _ _ _ _ _ _ H)
    as (state0 & info0 & steps & last & tr & -> & Hrun & Hend & -> & ->).
  eexists. split; [done|].
  unfold episodes_summary, printed, update_calls, train_calls, plots,
    close_calls; simpl.
  rewrite !omap_app.
  fold printed update_calls train_calls plots close_calls.
  rewrite printed_steps, update_calls_steps, train_calls_steps, plots_steps,
    close_calls_steps.
  done.
Qed.

Lemma ppo_episodes_summary fuel env agent idxs :
  forall episode_rewards w episode_rewards',
    result (episodes fuel env agent idxs episode_rewards w)
      = inr (Some episode_rewards') ->
    exists totals,
      episode_rewards' = episode_rewards ++ totals /\
      episodes_summary idxs
        (trace (episodes fuel env agent idxs episode_rewards w)) totals.
Proof.
  induction idxs as [|i idxs IH]; intros er w er' H; simpl in H |- *.
  - injection H as <-. exists [].
    rewrite app_nil_r. by repeat split.
  - bind_inv H as r Hep H1. destruct r as [er1|]; [|done].
    destruct (ppo_episode_summary _ _ _ _ _ _ _ Hep)
      as (total & -> & Hl1 & Hp1 & Hu1 & Ht1 & Hpl1 & Hc1).
    destruct (IH _ _ _ H1) as (totals & -> & Hl & Hp & Hu & Ht & Hpl & Hc).
    exists (total :: totals). rewrite <- app_assoc. split; [done|].
    unfold episodes_summary.
    unfold printed, update_calls, train_calls, plots, close_calls in *.
    rewrite !omap_app, !length_app, Hp1, Hp, Hu1, Hu, Ht1, Ht, Hpl1, Hpl,
      Hc1, Hc.
    simpl. by rewrite Hl.
Qed.

Definition main_summary (a : main_args) (tr : list event) : Prop :=
  exists env totals,
    length totals = n_episodes a /\
    (* one line per episode, numbered from 0 *)
    printed tr = zip (seq 0 (n_episodes a)) totals /\
    (* one update and one train(10) per episode *)
    length (update_calls tr) = n_episodes a /\
    train_calls tr = replicate (n_episodes a) 10 /\
    (* the environment is closed once, and the rewards printed are the
       ones plotted, against the episode numbers *)
    close_calls tr = [env] /\
    plots tr = [(seq 0 (n_episodes a), totals, "ppo")].

(** X22.  A run of [main] that completes has printed one reward per
    episode, numbered 0 to [n_episodes - 1], has called [agent.update]
    and [agent.train(10)] once per episode, has closed the environment
    once, and plots exactly the printed rewards against the episode
    numbers, under the label 'ppo'. *)
Theorem main_plots_printed_rewards fuel a w :
  result (main fuel a w) = inr (Some ()) ->
  main_summary a (trace (main fuel a w)).
Proof.
  unfold main. intros H.
  bind_inv H as env Hm H1. rewrite (ext_ok _ _ _ _ Hm).
  bind_inv H1 as shape Hs H2. rewrite (ext_ok _ _ _ _ Hs).
  bind_inv H2 as [] Has H3.
  destruct (bool_decide (length shape = 1)); [|done].
  cbn [ret trace].
  bind_inv H3 as shape' Hs' H4. rewrite (ext_ok _ _ _ _ Hs').
  bind_inv H4 as state_dim Hsd H5.
  bind_inv H5 as action_dim Had H6. rewrite (ext_ok _ _ _ _ Had).
  bind_inv H6 as agent Hag H7. rewrite (ext_ok _ _ _ _ Hag).
  bind_inv H7 as r Heps H8. destruct r as [er|]; [|done].
  destruct (ppo_episodes_summary _ _ _ _ _ _ _ Heps)
    as (totals & Her & Hl & Hp & Hu & Ht & Hpl & Hc).
  simpl in Her. subst er. rewrite length_seq in Hl, Hu, Ht.
  bind_inv H8 as [] Hcl H9. rewrite (ext_ok _ _ _ _ Hcl).
  bind_inv H9 as [] Hp1 H10. rewrite (ext_ok _ _ _ _ Hp1).
  bind_inv H10 as [] Hp2 H11. rewrite (ext_ok _ _ _ _ Hp2).
  bind_inv H11 as [] Hp3 H12. rewrite (ext_ok _ _ _ _ Hp3).
  bind_inv H12 as [] Hp4 H13. rewrite (ext_ok _ _ _ _ Hp4).
  bind_inv H13 as [] Hp5 H14. rewrite (ext_ok _ _ _ _ Hp5).
  bind_inv H14 as [] Hp6 H15. rewrite (ext_ok _ _ _ _ Hp6).
  bind_inv H15 as [] Hp7 H16. rewrite (ext_ok _ _ _ _ Hp7).
  exists env, totals. split; [done|].
  unfold printed, update_calls, train_calls, plots, close_calls in *.
  rewrite !omap_app, !length_app, Hp, Hu, Ht, Hpl, Hc. simpl.
  rewrite !app_nil_r, Hl. repeat split; try done; lia.
Qed.
End PPO.

(** ** A concrete run

    Observations and actions are natural numbers, rewards are integers.
    The world counts the steps since the last reset; every step is
    rewarded -1, and the third step of an episode is truncated. *)

Definition demo_library : @library nat nat nat Z unit string :=
  {| lib_make := fun _ w => (w, inr "env");
     lib_observation_shape := fun _ w => (w, inr [6]);
     lib_action_n := fun _ w => (w, inr 3);
     lib_PPOAgent := fun _ _ _ w => (w, inr "agent");
     lib_reset := fun _ _ => (0, inr (0, ()));
     lib_predict_action := fun _ state w => (w, inr (state mod 3));
     lib_step := fun _ _ w =>
       (S w, inr (S w, (-1)%Z, false, bool_decide (S w = 3), ()));
     lib_print := fun _ _ w => (w, inr ());
     lib_update := fun _ _ w => (w, inr ());
     lib_train := fun _ _ w => (w, inr ());
     lib_close := fun _ w => (w, inr ());
     lib_plt := fun _ w => (w, inr ()) |}.

Definition demo_episode : outcome nat event (option (list Z)) :=
  episode 0%Z Z.add demo_library 10 "env" "agent" [] 0 0.

Example demo_episode_result : result demo_episode = inr (Some [(-3)%Z]).
Proof. vm_compute. reflexivity. Qed.

Lemma episode_update_then_train_witness :
  result demo_episode = inr (Some [(-3)%Z]) /\
  episode_order_spec "env" "agent" 0 (trace demo_episode).
Proof.
  split; [vm_compute; reflexivity|].
  apply (episode_update_then_train 0%Z Z.add demo_library 10 "env" "agent"
           [] 0 0 [(-3)%Z]).
  vm_compute. reflexivity.
Defined.

Lemma transitions_done_iff_terminated_witness :
  result demo_episode = inr (Some [(-3)%Z]) /\
  transitions_done_spec (trace demo_episode).
Proof.
  split; [vm_compute; reflexivity|].
  apply (transitions_done_iff_terminated 0%Z Z.add demo_library 10 "env"
           "agent" [] 0 0 [(-3)%Z]).
  vm_compute. reflexivity.
Defined.

(** The demo episode ends by truncation, and its last transition has
    [done = 0]. *)
Example demo_episode_truncated :
  update_calls (trace demo_episode) =
    [ [ {| state := 0; action := 0; next_state := 1; reward := (-1)%Z;
           done := 0%Z |};
        {| state := 1; action := 1; next_state := 2; reward := (-1)%Z;
           done := 0%Z |};
        {| state := 2; action := 2; next_state := 3; reward := (-1)%Z;
           done := 0%Z |} ] ].
Proof. vm_compute. reflexivity. Qed.

(** ** Concrete runs for the further properties *)

(** An environment with image observations. *)
Definition demo_library_images : @library nat nat nat Z unit string :=
  {| lib_make := lib_make demo_library;
     lib_observation_shape := fun _ w => (w, inr [84; 84; 3]);
     lib_action_n := lib_action_n demo_library;
     lib_PPOAgent := lib_PPOAgent demo_library;
     lib_reset := lib_reset demo_library;
     lib_predict_action := lib_predict_action demo_library;
     lib_step := lib_step demo_library;
     lib_print := lib_print demo_library;
     lib_update := lib_update demo_library;
     lib_train := lib_train demo_library;
     lib_close := lib_close demo_library;
     lib_plt := lib_plt demo_library |}.

Definition demo_args (n_episodes : nat) : @main_args Z :=
  {| env_name := "Acrobot-v1"; n_episodes := n_episodes; actor_lr := 1%Z;
     critic_lr := 1%Z; gamma := 1%Z; gae_lambda := 1%Z; epsilon := 1%Z;
     jax_seed := 42 |}.

Lemma main_asserts_flat_observations_witness :
  length [84; 84; 3] <> 1 /\
  result (main 0%Z Z.add demo_library_images 10 (demo_args 2) 0)
    = inl AssertionError /\
  trace (main 0%Z Z.add demo_library_images 10 (demo_args 2) 0)
    = [ EvMake "Acrobot-v1" (inr "env");
        EvObservationShape "env" (inr [84; 84; 3]) ].
Proof.
  assert (H : length [84; 84; 3] <> 1) by (simpl; lia).
  split; [exact H|].
  exact (main_asserts_flat_observations 0%Z Z.add demo_library_images 10
           (demo_args 2) 0 "env" [84; 84; 3] eq_refl eq_refl H).
Defined.

Lemma transitions_retrace_episode_witness :
  result demo_episode = inr (Some [(-3)%Z]) /\
  transitions_spec (trace demo_episode).
Proof.
  split; [vm_compute; reflexivity|].
  apply (transitions_retrace_episode 0%Z Z.add demo_library 10 "env" "agent"
           [] 0 0 [(-3)%Z]).
  vm_compute. reflexivity.
Defined.

Lemma main_plots_printed_rewards_witness :
  result (main 0%Z Z.add demo_library 10 (demo_args 2) 0) = inr (Some ()) /\
  main_summary (demo_args 2)
    (trace (main 0%Z Z.add demo_library 10 (demo_args 2) 0)).
Proof.
  split; [vm_compute; reflexivity|].
  apply (main_plots_printed_rewards 0%Z Z.add demo_library 10 (demo_args 2) 0).
  vm_compute. reflexivity.
Defined.

Example demo_main_plot :
  plots (trace (main 0%Z Z.add demo_library 10 (demo_args 2) 0))
  = [([0; 1], [(-3)%Z; (-3)%Z], "ppo")].
Proof. vm_compute. reflexivity. Qed.
End PPO.

(* ===================================================================== *)
(** * Dictionary comprehensions *)

(** [d.keys()]. *)
Definition dict_keys {V} (d : gmap string V) : list string :=
  (map_to_list d).*1.

(** [{k: f(k) for k in keys}] for an expression [f] that may raise: the
    keys are visited in order, a later binding of a key replaces an
    earlier one. *)
Definition dict_comp {V} (keys : list string) (f : string -> res V)
  : res (gmap string V) :=
  res_foldl (fun d k => res_map (fun v => <[k:=v]> d) (f k)) ∅ keys.

Lemma elem_of_dict_keys {V} (d : gmap string V) k :
  k ∈ dict_keys d <-> is_Some (d !! k).
Proof.
  unfold dict_keys. rewrite list_elem_of_fmap. split.
  - intros ([k' v] & -> & Hin). apply elem_of_map_to_list in Hin. by exists v.
  - intros [v Hv]. exists (k, v). split; [done|].
    by apply elem_of_map_to_list.
Qed.

Lemma res_foldl_insert_lookup {V} (f : string -> res V) keys :
  forall (d0 d : gmap string V) k,
  res_foldl (fun d k => res_map (fun v => <[k:=v]> d) (f k)) d0 keys = inr d ->
  (k ∈ keys -> exists v, f k = inr v /\ d !! k = Some v) /\
  (k ∉ keys -> d !! k = d0 !! k).
Proof.
  induction keys as [|k0 keys IH]; intros d0 d k; simpl.
  - intros [= <-]. split; [|done]. by intros ?%elem_of_nil.
  - destruct (f k0) as [e|v0] eqn:Hk0; simpl; [done|].
    intros H. destruct (IH _ _ k H) as [Hin Hout]. split.
    + intros Hk. destruct (decide (k ∈ keys)) as [Hk'|Hk']; [by apply Hin|].
      apply elem_of_cons in Hk as [->|Hk]; [|done].
      exists v0. split; [done|]. rewrite (Hout Hk'). apply lookup_insert_eq.
    + intros Hk. apply not_elem_of_cons in Hk as [Hne Hk].
      rewrite (Hout Hk). by apply lookup_insert_ne.
Qed.

Lemma dict_comp_lookup {V} (f : string -> res V) keys
    (d : gmap string V) k :
  dict_comp keys f = inr d ->
  (k ∈ keys -> exists v, f k = inr v /\ d !! k = Some v) /\
  (k ∉ keys -> d !! k = None).
Proof.
  intros H. destruct (res_foldl_insert_lookup f keys ∅ d k H) as [Hin Hout].
  split; [done|]. intros Hk. by rewrite (Hout Hk), lookup_empty.
Qed.

(** A comprehension returns when its expression returns on every key. *)
Lemma res_foldl_insert_ok {V} (f : string -> res V) keys :
  Forall (fun k => is_ok (f k) = true) keys ->
  forall d0 : gmap string V,
    exists d,
      res_foldl (fun d k => res_map (fun v => <[k:=v]> d) (f k)) d0 keys
        = inr d.
Proof.
  induction 1 as [|k keys Hk _ IH]; intros d0; simpl; [by eexists|].
  destruct (f k) as [e|v]; [done|]. simpl. apply IH.
Qed.

(** It raises what its expression raises on the first key it fails on. *)
Lemma res_foldl_insert_err {V} (f : string -> res V) keys :
  Exists (fun k => is_ok (f k) = false) keys ->
  forall d0 : gmap string V,
    exists k e,
      k ∈ keys /\ f k = inl e /\
      res_foldl (fun d k => res_map (fun v => <[k:=v]> d) (f k)) d0 keys
        = inl e.
Proof.
  induction keys as [|k keys IH]; intros H d0; [by apply Exists_nil in H|].
  simpl. destruct (f k) as [e|v] eqn:E; simpl.
  - exists k, e. by repeat split; [left|..].
  - apply Exists_cons in H as [H|H]; [by rewrite E in H|].
    destruct (IH H (<[k:=v]> d0)) as (k' & e & Hin & Hk' & Hr).
    exists k', e. by repeat split; [right|..].
Qed.

(* ===================================================================== *)
(** * Programs that only fail through the library *)

Section ReturnsIfClean.
Context {W Ev : Type}.
Variable ev_exn : Ev -> option exn.

(** A program that raises nothing of its own: when all its library calls
    return, it returns. *)
Definition returns_if_clean {A} (p : prog W Ev A) : Prop :=
  forall w, clean ev_exn (trace (p w)) -> is_ok (result (p w)) = true.

Lemma returns_if_clean_ret {A} (a : A) : returns_if_clean (ret a).
Proof. by intros w _. Qed.

Lemma returns_if_clean_ext {A} (f : W -> W * res A) (log : res A -> Ev) :
  records ev_exn log -> returns_if_clean (ext f log).
Proof.
  intros Hlog w. unfold ext. destruct (f w) as [w' [e|a]]; simpl; [|done].
  intros Hc. apply Forall_cons in Hc as [Hc _]. by rewrite Hlog in Hc.
Qed.

Lemma returns_if_clean_bind {A B} (m : prog W Ev A) (k : A -> prog W Ev B) :
  returns_if_clean m -> (forall a, returns_if_clean (k a)) ->
  returns_if_clean (bind m k).
Proof.
  intros Hm Hk w. specialize (Hm w). unfold bind.
  destruct (result (m w)) as [e|a]; simpl.
  - intros Hc. by specialize (Hm Hc).
  - intros Hc. apply Forall_app in Hc as [_ Hc]. by apply Hk.
Qed.

Lemma returns_if_clean_for_fold {A S} (xs : list A)
    (body : S -> A -> prog W Ev S) :
  (forall s x, returns_if_clean (body s x)) ->
  forall s, returns_if_clean (for_fold xs body s).
Proof.
  intros Hbody. induction xs as [|x xs IH]; intros s; simpl.
  - apply returns_if_clean_ret.
  - apply returns_if_clean_bind; [apply Hbody|apply IH].
Qed.

(** Through a [bind] in a run without a failed call. *)
Lemma bind_clean {A B} (m : prog W Ev A) (k : A -> prog W Ev B) w :
  returns_if_clean m ->
  clean ev_exn (trace (bind m k w)) ->
  exists a,
    result (m w) = inr a /\
    clean ev_exn (trace (k a (world (m w)))) /\
    result (bind m k w) = result (k a (world (m w))).
Proof.
  intros Hm Hc. specialize (Hm w). unfold bind in Hc |- *.
  destruct (result (m w)) as [e|a]; simpl in *.
  - by specialize (Hm Hc).
  - apply Forall_app in Hc as [_ Hc]. by exists a.
Qed.
End ReturnsIfClean.

(* ===================================================================== *)
(** * examples/reinforcement_learning/maddpg_demo_main.py *)

Module MADDPG.
Section MADDPG.
(** Agents are named by strings.  [obs]: observations.  [act]: actions.
    [num]: Python floats with [0.] and float addition.  [info]: the part
    of the answer of [env.step] the script ignores.  [frame]: images.
    [obj]: references to library objects. *)
Context {W obs act num info frame obj : Type}.
Variable num_zero : num.
Variable num_add : num -> num -> num.

(** What [env.step] answers: next observations, rewards, and the rest. *)
Abbreviation step_answer :=
  (gmap string obs * gmap string num * info)%type.

Inductive event : Type :=
| EvParallelEnv (env_name : string) (r : res obj)
| EvReset (env : obj) (r : res (gmap string obs * info))
| EvAgents (env : obj) (r : res (list string))
| EvObservationDim (env : obj) (agent : string) (r : res nat)
| EvActionDim (env : obj) (agent : string) (r : res nat)
| EvMADDPGAgent (agents : list string) (state_dims action_dims : gmap string nat)
    (init_params_path : string) (r : res obj)
| EvPredictAction (maddpg : obj) (agent : string) (agent_state : obs)
    (r : res act)
| EvStep (env : obj) (action : gmap string act) (r : res step_answer)
| EvRender (env : obj) (r : res frame)
| EvPrint (episode_idx : nat) (sum_rewards : gmap string num) (r : res unit)
| EvClose (env : obj) (r : res unit)
| EvSave (first : frame) (append_images : list frame) (r : res unit).

Definition ev_exn (ev : event) : option exn :=
  match ev with
  | EvParallelEnv _ (inl e) | EvReset _ (inl e) | EvAgents _ (inl e)
  | EvObservationDim _ _ (inl e) | EvActionDim _ _ (inl e)
  | EvMADDPGAgent _ _ _ _ (inl e) | EvPredictAction _ _ _ (inl e)
  | EvStep _ _ (inl e) | EvRender _ (inl e) | EvPrint _ _ (inl e)
  | EvClose _ (inl e) | EvSave _ _ (inl e) => Some e
  | _ => None
  end.

Record library : Type := Library {
  (* getattr(mpe, env_name).parallel_env(render_mode='rgb_array') *)
  lib_parallel_env : string -> W -> W * res obj;
  (* env.reset() *)
  lib_reset : obj -> W -> W * res (gmap string obs * info);
  (* env.agents *)
  lib_agents : obj -> W -> W * res (list string);
  (* env.observation_space(agent=agent).shape[0] *)
  lib_observation_dim : obj -> string -> W -> W * res nat;
  (* env.action_space(agent=agent).n *)
  lib_action_dim : obj -> string -> W -> W * res nat;
  (* MADDPGAgent(agents, state_dims, action_dims, init_params_path) *)
  lib_MADDPGAgent :
    list string -> gmap string nat -> gmap string nat -> string ->
    W -> W * res obj;
  (* maddpg.predict_action(agent, agent_state, explore_eps=0.) *)
  lib_predict_action : obj -> string -> obs -> W -> W * res act;
  (* env.step(action) *)
  lib_step : obj -> gmap string act -> W -> W * res step_answer;
  (* Image.fromarray(env.render()) *)
  lib_render : obj -> W -> W * res frame;
  (* print(f'Episode {episode_idx} Reward: {sum_rewards}') *)
  lib_print : nat -> gmap string num -> W -> W * res unit;
  (* env.close() *)
  lib_close : obj -> W -> W * res unit;
  (* first.save('xx.gif', save_all=True, append_images=..., ...) *)
  lib_save : frame -> list frame -> W -> W * res unit
}.

Variable L : library.

Abbreviation prog := (prog W event).
Local Open Scope prog_scope.

(** [{k: body(k) for k in keys}] for a body that calls the library. *)
Definition dict_comp_prog {V} (keys : list string) (body : string -> prog V)
  : prog (gmap string V) :=
  for_fold keys (fun d k => v <- body k ;; ret (<[k:=v]> d)) ∅.

(** [{agent: sum_rewards[agent] + reward[agent]
      for agent in sum_rewards.keys()}]. *)
Definition add_rewards (sum_rewards reward : gmap string num)
  : res (gmap string num) :=
  dict_comp (dict_keys sum_rewards) (fun agent =>
    res_bind (getitem sum_rewards agent) (fun s =>
      res_map (num_add s) (getitem reward agent))).

(** The [while env.agents] loop, run for at most [fuel] steps. *)
Fixpoint episode_loop (fuel : nat) (env maddpg : obj)
    (state : gmap string obs) (sum_rewards : gmap string num)
    (frame_list : list frame)
  : prog (option (gmap string num * list frame)) :=
  match fuel with
  | 0 => ret None
  | S fuel' =>
      agents <- ext (lib_agents L env) (EvAgents env) ;;
      match agents with
      | [] => ret (Some (sum_rewards, frame_list))
      | _ :: _ =>
          agents' <- ext (lib_agents L env) (EvAgents env) ;;
          action <-
            dict_comp_prog agents' (fun agent =>
              agent_state <- lift (getitem state agent) ;;
              ext (lib_predict_action L maddpg agent agent_state)
                  (EvPredictAction maddpg agent agent_state)) ;;
          bind (ext (lib_step L env action) (EvStep env action))
            (fun '(next_state, reward, _) =>
               frame <- ext (lib_render L env) (EvRender env) ;;
               let frame_list := frame_list ++ [frame] in
               sum_rewards <- lift (add_rewards sum_rewards reward) ;;
               episode_loop fuel' env maddpg next_state sum_rewards
                 frame_list)
      end
  end.

(** The body of the [for episode_idx] loop. *)
Definition episode (fuel : nat) (env maddpg : obj) (frame_list : list frame)
    (episode_idx : nat) : prog (option (list frame)) :=
  bind (ext (lib_reset L env) (EvReset env))
    (fun '(state, _) =>
       agents <- ext (lib_agents L env) (EvAgents env) ;;
       sum_rewards <- lift (dict_comp agents (fun _ => inr num_zero)) ;;
       r <- episode_loop fuel env maddpg state sum_rewards frame_list ;;
       match r with
       | None => ret None
       | Some (sum_rewards, frame_list) =>
           ext (lib_print L episode_idx sum_rewards)
               (EvPrint episode_idx sum_rewards) ;;;
           ret (Some frame_list)
       end).

Fixpoint episodes (fuel : nat) (env maddpg : obj) (idxs : list nat)
    (frame_list : list frame) : prog (option (list frame)) :=
  match idxs with
  | [] => ret (Some frame_list)
  | episode_idx :: idxs' =>
      r <- episode fuel env maddpg frame_list episode_idx ;;
      match r with
      | None => ret None
      | Some frame_list => episodes fuel env maddpg idxs' frame_list
      end
  end.

(** [main]. *)
Definition main (fuel : nat) (init_params_path env_name : string)
    (n_episodes : nat) : prog (option unit) :=
  env <- ext (lib_parallel_env L env_name) (EvParallelEnv env_name) ;;
  ext (lib_reset L env) (EvReset env) ;;;
  agents <- ext (lib_agents L env) (EvAgents env) ;;
  state_dims <-
    dict_comp_prog agents (fun agent =>
      ext (lib_observation_dim L env agent) (EvObservationDim env agent)) ;;
  agents <- ext (lib_agents L env) (EvAgents env) ;;
  action_dims <-
    dict_comp_prog agents (fun agent =>
      ext (lib_action_dim L env agent) (EvActionDim env agent)) ;;
  agents <- ext (lib_agents L env) (EvAgents env) ;;
  maddpg <- ext (lib_MADDPGAgent L agents state_dims action_dims
                   init_params_path)
                (EvMADDPGAgent agents state_dims action_dims
                   init_params_path) ;;
  r <- episodes fuel env maddpg (seq 0 n_episodes) [] ;;
  match r with
  | None => ret None
  | Some frame_list =>
      ext (lib_close L env) (EvClose env) ;;;
      first <- lift (list_getitem frame_list 0) ;;
      ext (lib_save L first (drop 1 frame_list))
          (EvSave first (drop 1 frame_list)) ;;;
      ret (Some ())
  end.

(** ** Reading the trace of an episode *)

(** The reward dictionaries returned by [env.step]. *)
Definition step_rewards (tr : list event) : list (gmap string num) :=
  omap (fun ev => match ev with
                  | EvStep _ _ (inr (_, reward, _)) => Some reward
                  | _ => None
                  end) tr.

(** The episode rewards printed. *)
Definition printed (tr : list event) : list (nat * gmap string num) :=
  omap (fun ev => match ev with
                  | EvPrint episode_idx sum_rewards _ =>
                      Some (episode_idx, sum_rewards)
                  | _ => None
                  end) tr.

(** Calls other than [env.step] and [print]. *)
Definition quiet (ev : event) : Prop :=
  match ev with
  | EvStep _ _ _ | EvPrint _ _ _ => False
  | _ => True
  end.

Lemma quiet_trace tr :
  Forall quiet tr -> step_rewards tr = [] /\ printed tr = [].
Proof.
  induction 1 as [|ev tr Hev _ [IH1 IH2]]; [done|].
  destruct ev; try done; simpl; by rewrite ?IH1, ?IH2.
Qed.

Lemma step_rewards_app tr1 tr2 :
  step_rewards (tr1 ++ tr2) = step_rewards tr1 ++ step_rewards tr2.
Proof. apply omap_app. Qed.

Lemma printed_app tr1 tr2 : printed (tr1 ++ tr2) = printed tr1 ++ printed tr2.
Proof. apply omap_app. Qed.

Lemma action_comp_quiet maddpg (state : gmap string obs) agents :
  emits quiet
    (dict_comp_prog agents (fun agent =>
       agent_state <- lift (getitem state agent) ;;
       ext (lib_predict_action L maddpg agent agent_state)
           (EvPredictAction maddpg agent agent_state))).
Proof.
  unfold dict_comp_prog. apply emits_for_fold. intros d k.
  apply emits_bind; [|intros; apply emits_ret].
  apply emits_bind; [apply emits_lift|]. intros a.
  by apply emits_ext.
Qed.

(** ** The running sums *)

(** [sum'] is [sum] with, for each agent of [sum], the agent's rewards of
    [rewards] added one after the other. *)
Definition summed (rewards : list (gmap string num))
    (sum sum' : gmap string num) : Prop :=
  forall agent,
    match sum !! agent with
    | Some x =>
        exists rs,
          Forall2 (fun rd r => rd !! agent = Some r) rewards rs /\
          sum' !! agent = Some (fold_left num_add rs x)
    | None => sum' !! agent = None
    end.

Lemma add_rewards_lookup (sum reward sum' : gmap string num) agent :
  add_rewards sum reward = inr sum' ->
  match sum !! agent with
  | Some x =>
      exists r, reward !! agent = Some r /\ sum' !! agent = Some (num_add x r)
  | None => sum' !! agent = None
  end.
Proof.
  unfold add_rewards. intros H.
  destruct (dict_comp_lookup _ _ _ agent H) as [Hin Hout].
  destruct (sum !! agent) as [x|] eqn:Hs.
  - destruct Hin as (v & Hv & Hl).
    { apply elem_of_dict_keys. by exists x. }
    unfold getitem in Hv. rewrite Hs in Hv. simpl in Hv.
    destruct (reward !! agent) as [r|]; [|done].
    simpl in Hv. injection Hv as <-. by exists r.
  - apply Hout. rewrite elem_of_dict_keys, Hs. by intros [? ?].
Qed.

Lemma summed_nil sum : summed [] sum sum.
Proof.
  intros agent. destruct (sum !! agent) as [x|] eqn:E; [|done].
  exists []. by split; [constructor|].
Qed.

Lemma summed_cons reward rewards (sum sum1 sum' : gmap string num) :
  add_rewards sum reward = inr sum1 ->
  summed rewards sum1 sum' ->
  summed (reward :: rewards) sum sum'.
Proof.
  intros Hadd Hrest agent.
  pose proof (add_rewards_lookup _ _ _ agent Hadd) as H1.
  specialize (Hrest agent).
  destruct (sum !! agent) as [x|].
  - destruct H1 as (r & Hr & Hs1). rewrite Hs1 in Hrest.
    destruct Hrest as (rs & Hrs & Hs'). exists (r :: rs).
    split; [by constructor|done].
  - by rewrite H1 in Hrest.
Qed.

Lemma maddpg_episode_loop_ok env maddpg fuel :
  forall state sum_rewards frame_list w sum' frames',
    result (episode_loop fuel env maddpg state sum_rewards frame_list w)
      = inr (Some (sum', frames')) ->
    summed
      (step_rewards
         (trace (episode_loop fuel env maddpg state sum_rewards frame_list w)))
      sum_rewards sum' /\
    printed
      (trace (episode_loop fuel env maddpg state sum_rewards frame_list w))
      = [].
Proof.
  induction fuel as [|fuel IH]; intros state sum frames w sum' frames' H;
    [done|].
  simpl in H |- *.
  bind_inv H as agents Hag H1. rewrite (ext_ok _ _ _ _ Hag).
  destruct agents as [|agent0 agents].
  { destruct (ret_ok _ _ _ H1) as [[= <- <-] ->]. simpl.
    split; [apply summed_nil|done]. }
  bind_inv H1 as agents' Hag' H2. rewrite (ext_ok _ _ _ _ Hag').
  bind_inv H2 as action Hact H3.
  bind_inv H3 as [[next_state reward] rest] Hstep H4.
  rewrite (ext_ok _ _ _ _ Hstep).
  bind_inv H4 as fr Hfr H5. rewrite (ext_ok _ _ _ _ Hfr).
  bind_inv H5 as sum1 Hsum H6.
  destruct (IH _ _ _ _ _ _ H6) as [Hs Hp].
  match goal with |- context [trace (dict_comp_prog ?ks ?body ?w0)] =>
    destruct (quiet_trace _ (action_comp_quiet maddpg state ks w0))
      as [Hq1 Hq2]
  end.
  rewrite !step_rewards_app, !printed_app, Hq1, Hq2, Hp.
  split; [|done]. eapply summed_cons; [exact Hsum|exact Hs].
Qed.

(** The fuel runs out only when the environment still has agents after
    [fuel] steps. *)
Lemma maddpg_episode_loop_out_of_fuel env maddpg fuel :
  forall state sum_rewards frame_list w,
    result (episode_loop fuel env maddpg state sum_rewards frame_list w)
      = inr None ->
    length
      (step_rewards
         (trace (episode_loop fuel env maddpg state sum_rewards frame_list w)))
      = fuel.
Proof.
  induction fuel as [|fuel IH]; intros state sum frames w H; [done|].
  simpl in H |- *.
  bind_inv H as agents Hag H1. rewrite (ext_ok _ _ _ _ Hag).
  destruct agents as [|agent0 agents]; [by destruct (ret_ok _ _ _ H1)|].
  bind_inv H1 as agents' Hag' H2. rewrite (ext_ok _ _ _ _ Hag').
  bind_inv H2 as action Hact H3.
  bind_inv H3 as [[next_state reward] rest] Hstep H4.
  rewrite (ext_ok _ _ _ _ Hstep).
  bind_inv H4 as fr Hfr H5. rewrite (ext_ok _ _ _ _ Hfr).
  bind_inv H5 as sum1 Hsum H6.
  match goal with |- context [trace (dict_comp_prog ?ks ?body ?w0)] =>
    destruct (quiet_trace _ (action_comp_quiet maddpg state ks w0))
      as [Hq1 _]
  end.
  rewrite !step_rewards_app, Hq1. simpl. f_equal. by apply IH.
Qed.

(** The agents the environment reports right after the reset that opens
    an episode: the keys of [sum_rewards]. *)
Definition agents_after_reset (tr : list event) : option (list string) :=
  match tr with
  | EvReset _ (inr _) :: EvAgents _ (inr agents) :: _ => Some agents
  | _ => None
  end.

Definition maddpg_reward_spec (episode_idx : nat) (tr : list event) : Prop :=
  exists agents0 sum_rewards,
    agents_after_reset tr = Some agents0 /\
    (* one line is printed for the episode *)
    printed tr = [(episode_idx, sum_rewards)] /\
    (* it holds, for each agent, the sum of the agent's rewards over the
       steps of the episode, added to 0. in step order *)
    (forall agent, agent ∈ agents0 ->
       exists rs,
         Forall2 (fun rd r => rd !! agent = Some r) (step_rewards tr) rs /\
         sum_rewards !! agent = Some (fold_left num_add rs num_zero)) /\
    (forall agent, agent ∉ agents0 -> sum_rewards !! agent = None).

Lemma maddpg_episode_reward_is_sum fuel env maddpg frame_list episode_idx w frames' :
  result (episode fuel env maddpg frame_list episode_idx w)
    = inr (Some frames') ->
  maddpg_reward_spec episode_idx
    (trace (episode fuel env maddpg frame_list episode_idx w)).
Proof.
  unfold episode. intros H.
  bind_inv H as [state0 info0] Hreset H1. rewrite (ext_ok _ _ _ _ Hreset).
  bind_inv H1 as agents0 Hag H2. rewrite (ext_ok _ _ _ _ Hag).
  bind_inv H2 as sum0 Hsum0 H3.
  bind_inv H3 as r Hloop H4.
  destruct r as [[sum' frames'']|]; [|done].
  bind_inv H4 as [] Hpr H5. rewrite (ext_ok _ _ _ _ Hpr).
  destruct (maddpg_episode_loop_ok _ _ _ _ _ _ _ _ _ Hloop) as [Hs Hp].
  exists agents0, sum'. split; [done|].
  change (EvReset ?a ?b :: ?l) with ([EvReset a b] ++ l).
  rewrite !step_rewards_app, !printed_app, Hp. simpl.
  rewrite app_nil_r. split; [done|].
  simpl in Hsum0. split.
  - intros agent Hin.
    destruct (dict_comp_lookup _ _ _ agent Hsum0) as [Hl _].
    destruct (Hl Hin) as (v & [= <-] & Hv).
    specialize (Hs agent). by rewrite Hv in Hs.
  - intros agent Hout.
    destruct (dict_comp_lookup _ _ _ agent Hsum0) as [_ Hl].
    specialize (Hs agent). by rewrite (Hl Hout) in Hs.
Qed.

(** ** Failures in the MADDPG demo *)

Lemma maddpg_episode_loop_faithful env maddpg fuel :
  forall state sum_rewards frame_list,
    faithful ev_exn
      (episode_loop fuel env maddpg state sum_rewards frame_list).
Proof.
  induction fuel as [|fuel IH]; intros; simpl; faithful_auto. apply IH.
Qed.

Lemma maddpg_episode_faithful fuel env maddpg frame_list episode_idx :
  faithful ev_exn (episode fuel env maddpg frame_list episode_idx).
Proof.
  unfold episode. faithful_auto. apply maddpg_episode_loop_faithful.
Qed.






(** ** Further properties of the running sums *)

Definition add_rewards_spec (sum_rewards reward sum' : gmap string num)
  : Prop :=
  (* the agents tracked stay the same: none is added, none is dropped *)
  dom sum' = dom sum_rewards /\
  (* each gets its reward of the step added; rewards of agents that are
     not tracked are ignored *)
  forall agent x,
    sum_rewards !! agent = Some x ->
    exists r, reward !! agent = Some r /\
              sum' !! agent = Some (num_add x r).

(** X23.  One update of [sum_rewards] succeeds whenever the step's
    reward dictionary has an entry for every agent tracked; it then
    keeps exactly the agents tracked since the reset, adds to each its
    reward of the step, and ignores rewards of other agents. *)
Theorem add_rewards_keeps_agents (sum_rewards reward : gmap string num) :
  (forall agent, is_Some (sum_rewards !! agent) ->
                 is_Some (reward !! agent)) ->
  exists sum',
    add_rewards sum_rewards reward = inr sum' /\
    add_rewards_spec sum_rewards reward sum'.
Proof.
  intros Hall.
  destruct (res_foldl_insert_ok
              (fun agent =>
                 res_bind (getitem sum_rewards agent) (fun s =>
                   res_map (num_add s) (getitem reward agent)))
              (dict_keys sum_rewards)) with (d0 := (∅ : gmap string num))
    as [sum' Hsum'].
  { apply Forall_forall. intros agent Hin.
    apply elem_of_dict_keys in Hin as Hs. destruct Hs as [x Hx].
    destruct (Hall agent) as [r Hr]; [by eexists|].
    unfold getitem. by rewrite Hx, Hr. }
  exists sum'. split; [exact Hsum'|]. split.
  - apply set_eq. intros agent. rewrite !elem_of_dom.
    pose proof (add_rewards_lookup _ _ _ agent Hsum') as H.
    destruct (sum_rewards !! agent) as [x|].
    + destruct H as (r & _ & ->). by split; eexists.
    + rewrite H. by split; intros [? ?].
  - intros agent x Hx.
    pose proof (add_rewards_lookup _ _ _ agent Hsum') as H.
    by rewrite Hx in H.
Qed.

(** X24.  When the step's reward dictionary lacks an agent that is
    tracked (an agent that left the environment mid-episode), the update
    raises KeyError for such an agent. *)
Theorem add_rewards_missing_agent (sum_rewards reward : gmap string num)
    agent :
  is_Some (sum_rewards !! agent) -> reward !! agent = None ->
  exists agent',
    is_Some (sum_rewards !! agent') /\ reward !! agent' = None /\
    add_rewards sum_rewards reward = inl (KeyError agent').
Proof.
  intros [x Hx] Hr.
  destruct (res_foldl_insert_err
              (fun agent =>
                 res_bind (getitem sum_rewards agent) (fun s =>
                   res_map (num_add s) (getitem reward agent)))
              (dict_keys sum_rewards)) with (d0 := (∅ : gmap string num))
    as (agent' & e & Hin & He & Hres).
  { apply Exists_exists. exists agent. split.
    - apply elem_of_dict_keys. by eexists.
    - unfold getitem. by rewrite Hx, Hr. }
  apply elem_of_dict_keys in Hin as Hs. destruct Hs as [x' Hx'].
  unfold getitem in He. rewrite Hx' in He. simpl in He.
  destruct (reward !! agent') as [r'|] eqn:Hr'; [done|].
  injection He as <-. exists agent'. by repeat split; [eexists|..].
Qed.

(** ** The frames *)

(** The frames rendered, and the frames saved. *)
Definition rendered (tr : list event) : list frame :=
  omap (fun ev => match ev with
                  | EvRender _ (inr f) => Some f
                  | _ => None
                  end) tr.

Definition saved (tr : list event) : list (list frame) :=
  omap (fun ev => match ev with
                  | EvSave first append_images _ => Some (first :: append_images)
                  | _ => None
                  end) tr.

(** The [env.step] calls that returned. *)
Definition steps_made (tr : list event) : nat := length (step_rewards tr).

(** Calls that neither step the environment, nor render, nor save. *)
Definition frameless (ev : event) : Prop :=
  match ev with
  | EvStep _ _ _ | EvRender _ _ | EvSave _ _ _ => False
  | _ => True
  end.

Lemma frameless_trace tr :
  Forall frameless tr ->
  rendered tr = [] /\ saved tr = [] /\ step_rewards tr = [].
Proof.
  induction 1 as [|ev tr Hev _ (IH1 & IH2 & IH3)]; [done|].
  destruct ev; try done; simpl; by rewrite ?IH1, ?IH2, ?IH3.
Qed.

Lemma rendered_app tr1 tr2 : rendered (tr1 ++ tr2) = rendered tr1 ++ rendered tr2.
Proof. apply omap_app. Qed.

Lemma saved_app tr1 tr2 : saved (tr1 ++ tr2) = saved tr1 ++ saved tr2.
Proof. apply omap_app. Qed.

Lemma dict_comp_prog_frameless {V} keys (body : string -> prog V) :
  (forall k, emits frameless (body k)) ->
  emits frameless (dict_comp_prog keys body).
Proof.
  intros Hb. unfold dict_comp_prog. apply emits_for_fold. intros d k.
  apply emits_bind; [apply Hb|]. intros; apply emits_ret.
Qed.

Lemma dict_comp_prog_no_frames {V} keys (body : string -> prog V) w :
  (forall k, emits frameless (body k)) ->
  rendered (trace (dict_comp_prog keys body w)) = [] /\
  saved (trace (dict_comp_prog keys body w)) = [] /\
  step_rewards (trace (dict_comp_prog keys body w)) = [].
Proof.
  intros Hb. apply frameless_trace. by apply dict_comp_prog_frameless.
Qed.

Lemma dims_no_frames (f : string -> W -> W * res nat)
    (log : string -> res nat -> event) keys w :
  (forall k r, frameless (log k r)) ->
  rendered (trace (dict_comp_prog keys (fun k => ext (f k) (log k)) w)) = [] /\
  saved (trace (dict_comp_prog keys (fun k => ext (f k) (log k)) w)) = [] /\
  step_rewards (trace (dict_comp_prog keys (fun k => ext (f k) (log k)) w))
    = [].
Proof.
  intros Hlog. apply dict_comp_prog_no_frames. intros k.
  apply emits_ext. apply Hlog.
Qed.

(** What a stretch of a run adds to the list of frames. *)
Definition frames_spec (tr : list event) (frame_list frames' : list frame)
  : Prop :=
  frames' = frame_list ++ rendered tr /\
  length (rendered tr) = steps_made tr /\ saved tr = [].

Lemma maddpg_episode_loop_frames env maddpg fuel :
  forall state sum_rewards frame_list w sum' frames',
    result (episode_loop fuel env maddpg state sum_rewards frame_list w)
      = inr (Some (sum', frames')) ->
    frames_spec
      (trace (episode_loop fuel env maddpg state sum_rewards frame_list w))
      frame_list frames'.
Proof.
  unfold frames_spec, steps_made.
  induction fuel as [|fuel IH]; intros state sum frames w sum' frames' H;
    [done|].
  simpl in H |- *.
  bind_inv H as agents Hag H1. rewrite (ext_ok _ _ _ _ Hag).
  destruct agents as [|agent0 agents].
  { destruct (ret_ok _ _ _ H1) as [[= <- <-] ->]. simpl.
    by rewrite app_nil_r. }
  bind_inv H1 as agents' Hag' H2. rewrite (ext_ok _ _ _ _ Hag').
  bind_inv H2 as action Hact H3.
  bind_inv H3 as [[next_state reward] rest] Hstep H4.
  rewrite (ext_ok _ _ _ _ Hstep).
  bind_inv H4 as fr Hfr H5. rewrite (ext_ok _ _ _ _ Hfr).
  bind_inv H5 as sum1 Hsum H6.
  destruct (IH _ _ _ _ _ _ H6) as (-> & Hlen & Hsv).
  clear - Hlen Hsv.
  match type of Hsv with saved ?t = [] => set (tr := t) in *; clearbody tr end.
  match goal with |- context [trace (dict_comp_prog ?ks ?body ?w0)] =>
    destruct (frameless_trace (trace (dict_comp_prog ks body w0)))
      as (Hq1 & Hq2 & Hq3)
  end.
  { apply dict_comp_prog_frameless. intros k.
    apply emits_bind; [apply emits_lift|]. intros; by apply emits_ext. }
  rewrite !rendered_app, !saved_app, !step_rewards_app, Hq1, Hq2, Hq3, Hsv.
  simpl. rewrite <- app_assoc. simpl. by rewrite Hlen.
Qed.

Lemma maddpg_episode_frames fuel env maddpg frame_list episode_idx w frames' :
  result (episode fuel env maddpg frame_list episode_idx w)
    = inr (Some frames') ->
  frames_spec (trace (episode fuel env maddpg frame_list episode_idx w))
    frame_list frames'.
Proof.
  unfold episode. intros H.
  bind_inv H as [state0 info0] Hreset H1. rewrite (ext_ok _ _ _ _ Hreset).
  bind_inv H1 as agents0 Hag H2. rewrite (ext_ok _ _ _ _ Hag).
  bind_inv H2 as sum0 Hsum0 H3.
  bind_inv H3 as r Hloop H4.
  destruct r as [[sum' frames'']|]; [|done].
  bind_inv H4 as [] Hpr H5. rewrite (ext_ok _ _ _ _ Hpr).
  destruct (ret_ok _ _ _ H5) as [[= <-] ->].
  destruct (maddpg_episode_loop_frames _ _ _ _ _ _ _ _ _ Hloop)
    as (-> & Hlen & Hsv).
  unfold frames_spec, steps_made in *.
  change (EvReset ?a ?b :: ?l) with ([EvReset a b] ++ l).
  rewrite !rendered_app, !saved_app, !step_rewards_app, Hsv. simpl.
  by rewrite !app_nil_r.
Qed.

Lemma maddpg_episodes_frames fuel env maddpg idxs :
  forall frame_list w frames',
    result (episodes fuel env maddpg idxs frame_list w) = inr (Some frames') ->
    frames_spec (trace (episodes fuel env maddpg idxs frame_list w))
      frame_list frames'.
Proof.
  induction idxs as [|i idxs IH]; intros fl w fl' H; simpl in H |- *.
  - injection H as <-. unfold frames_spec. simpl. by rewrite app_nil_r.
  - bind_inv H as r Hep H1. destruct r as [fl1|]; [|done].
    destruct (maddpg_episode_frames _ _ _ _ _ _ _ Hep) as (-> & Hl1 & Hs1).
    destruct (IH _ _ _ H1) as (-> & Hl & Hs).
    unfold frames_spec, steps_made in *.
    rewrite !rendered_app, !saved_app, !step_rewards_app, !length_app, Hs1, Hs.
    rewrite <- app_assoc. by rewrite Hl1, Hl.
Qed.

Definition main_frames_spec (tr : list event) : Prop :=
  (* the frames rendered, in order, are what is saved, in one call *)
  saved tr = [rendered tr] /\
  (* one frame per step of the environment, over all episodes *)
  length (rendered tr) = steps_made tr /\
  (* and there is at least one *)
  rendered tr <> [].

(** X25.  A run of the MADDPG demo that completes saves, in one call,
    exactly the frames it rendered, in the order rendered: one frame per
    [env.step] call, accumulated over all episodes (the list is not reset
    between episodes), and at least one. *)
Theorem main_saves_every_frame fuel init_params_path env_name n_episodes w :
  result (main fuel init_params_path env_name n_episodes w) = inr (Some ()) ->
  main_frames_spec (trace (main fuel init_params_path env_name n_episodes w)).
Proof.
  unfold main. intros H.
  bind_inv H as env Hm H1. rewrite (ext_ok _ _ _ _ Hm).
  bind_inv H1 as r0 Hr0 H2. rewrite (ext_ok _ _ _ _ Hr0).
  bind_inv H2 as agents1 Ha1 H3. rewrite (ext_ok _ _ _ _ Ha1).
  bind_inv H3 as state_dims Hsd H4.
  bind_inv H4 as agents2 Ha2 H5. rewrite (ext_ok _ _ _ _ Ha2).
  bind_inv H5 as action_dims Had H6.
  bind_inv H6 as agents3 Ha3 H7. rewrite (ext_ok _ _ _ _ Ha3).
  bind_inv H7 as maddpg Hmad H8. rewrite (ext_ok _ _ _ _ Hmad).
  bind_inv H8 as r Heps H9. destruct r as [fl|]; [|done].
  bind_inv H9 as [] Hcl H10. rewrite (ext_ok _ _ _ _ Hcl).
  bind_inv H10 as first Hfirst H11.
  bind_inv H11 as [] Hsave H12. rewrite (ext_ok _ _ _ _ Hsave).
  destruct (maddpg_episodes_frames _ _ _ _ _ _ _ Heps) as (Hfl & Hlen & Hsv).
  simpl in Hfl. subst fl.
  unfold main_frames_spec, steps_made in *.
  match type of Hsv with saved ?t = [] => set (tr := t) in *; clearbody tr end.
  pose proof (fun keys w0 =>
    dims_no_frames (lib_observation_dim L env) (EvObservationDim env)
      keys w0 (fun _ _ => I)) as Ho.
  pose proof (fun keys w0 =>
    dims_no_frames (lib_action_dim L env) (EvActionDim env)
      keys w0 (fun _ _ => I)) as Ha.
  destruct (Ho agents1 (world (ext (lib_agents L env) (EvAgents env)
      (world (ext (lib_reset L env) (EvReset env)
        (world (ext (lib_parallel_env L env_name) (EvParallelEnv env_name)
          w))))))) as (Ho1 & Ho2 & Ho3).
  match goal with |- context [trace (dict_comp_prog agents2 ?body ?w0)] =>
    destruct (Ha agents2 w0) as (Hd1 & Hd2 & Hd3)
  end.
  rewrite !rendered_app, !saved_app, !step_rewards_app.
  rewrite Ho1, Ho2, Ho3, Hd1, Hd2, Hd3, Hsv. simpl.
  rewrite !app_nil_r.
  unfold lift, list_getitem in Hfirst. simpl in Hfirst.
  destruct (rendered tr) as [|f fs] eqn:Er; [done|].
  simpl in Hfirst. injection Hfirst as <-. simpl. rewrite drop_0.
  repeat split; done.
Qed.

(** ** A run without episodes *)

(** The part of [main] before the episodes. *)
Lemma dict_comp_prog_returns {V} keys (body : string -> prog V) :
  (forall k, returns_if_clean ev_exn (body k)) ->
  returns_if_clean ev_exn (dict_comp_prog keys body).
Proof.
  intros Hb. unfold dict_comp_prog. apply returns_if_clean_for_fold.
  intros d k. apply returns_if_clean_bind; [apply Hb|].
  intros; apply returns_if_clean_ret.
Qed.

Definition no_save (ev : event) : Prop :=
  match ev with EvSave _ _ _ => False | _ => True end.

Lemma no_save_saved tr : Forall no_save tr -> saved tr = [].
Proof.
  induction 1 as [|ev tr Hev _ IH]; [done|]. by destruct ev.
Qed.

Lemma main_without_episodes_no_save fuel init_params_path env_name :
  emits no_save (main fuel init_params_path env_name 0).
Proof.
  unfold main, dict_comp_prog.
  do 8 (apply emits_bind; [emits_auto|intros]).
  apply emits_bind_ok; [apply emits_ret|].
  intros r [w' Hr]. simpl in Hr. injection Hr as <-.
  apply emits_bind; [emits_auto|intros].
  apply emits_bind_ok; [apply emits_lift|]. by intros first [w'' Hf].
Qed.

(** X26.  With [n_episodes = 0] the MADDPG demo cannot complete and
    saves nothing: no frame was rendered, so, unless a library call
    failed before, it raises IndexError at [frame_list[0]]. *)
Theorem main_without_episodes fuel init_params_path env_name w :
  result (main fuel init_params_path env_name 0 w) <> inr (Some ()) /\
  saved (trace (main fuel init_params_path env_name 0 w)) = [] /\
  (clean ev_exn (trace (main fuel init_params_path env_name 0 w)) ->
   result (main fuel init_params_path env_name 0 w) = inl IndexError).
Proof.
  split; [|split; [apply no_save_saved, main_without_episodes_no_save|]].
  - unfold main. intros H.
    bind_split H as env Hm H1.
    bind_split H1 as r0 Hr0 H2.
    bind_split H2 as agents1 Ha1 H3.
    bind_split H3 as state_dims Hsd H4.
    bind_split H4 as agents2 Ha2 H5.
    bind_split H5 as action_dims Had H6.
    bind_split H6 as agents3 Ha3 H7.
    bind_split H7 as maddpg Hmad H8.
    bind_split H8 as r Heps H9. simpl in Heps. injection Heps as <-.
    bind_split H9 as [] Hcl H10.
    bind_split H10 as first Hfirst H11. done.
  - unfold main. intros Hc.
    repeat
      (apply bind_clean in Hc as (? & ? & Hc & ->);
       [|first [ apply returns_if_clean_ext; intros []; reflexivity
               | apply dict_comp_prog_returns; intros;
                 apply returns_if_clean_ext; intros []; reflexivity
               | apply returns_if_clean_ret ]]).
    match goal with
    | H : result (episodes _ _ _ _ _ _) = inr _ |- _ =>
        simpl in H; injection H as <-
    end.
    apply bind_clean in Hc as (? & _ & Hc & ->);
      [|apply returns_if_clean_ext; intros []; reflexivity].
    reflexivity.
Qed.
End MADDPG.

(** ** A concrete run

    Two agents; the world counts the steps since the last reset, and the
    environment drops its agents after two steps.  Every step rewards the
    adversary with -1 and the good agent with 2. *)

Definition demo_agents : list string := ["adversary_0"; "agent_0"].

Definition demo_library : @library nat nat nat Z unit nat string :=
  {| lib_parallel_env := fun _ w => (w, inr "env");
     lib_reset := fun _ _ =>
       (0, inr ({["adversary_0" := 0; "agent_0" := 0]}, ()));
     lib_agents := fun _ w =>
       (w, inr (if bool_decide (w < 2) then demo_agents else []));
     lib_observation_dim := fun _ _ w => (w, inr 8);
     lib_action_dim := fun _ _ w => (w, inr 5);
     lib_MADDPGAgent := fun _ _ _ _ w => (w, inr "maddpg");
     lib_predict_action := fun _ _ agent_state w => (w, inr agent_state);
     lib_step := fun _ _ w =>
       (S w, inr ({["adversary_0" := S w; "agent_0" := S w]},
                  {["adversary_0" := (-1)%Z; "agent_0" := 2%Z]}, ()));
     lib_render := fun _ w => (w, inr w);
     lib_print := fun _ _ w => (w, inr ());
     lib_close := fun _ w => (w, inr ());
     lib_save := fun _ _ w => (w, inr ()) |}.

Definition demo_episode : outcome nat event (option (list nat)) :=
  episode 0%Z Z.add demo_library 10 "env" "maddpg" [] 0 0.

Example demo_episode_printed :
  result demo_episode = inr (Some [1; 2]) /\
  printed (trace demo_episode)
    = [(0, {["adversary_0" := (-2)%Z; "agent_0" := 4%Z]})].
Proof. split; vm_compute; reflexivity. Qed.

(** The running sums after one step, updated with the rewards of a second
    step that also rewards an agent that is not tracked. *)
Definition demo_sums : gmap string Z :=
  {["adversary_0" := (-1)%Z; "agent_0" := 2%Z]}.

Definition demo_reward : gmap string Z :=
  {["adversary_0" := (-1)%Z; "agent_0" := 2%Z; "agent_1" := 5%Z]}.

Lemma add_rewards_keeps_agents_witness :
  (forall agent, is_Some (demo_sums !! agent) ->
                 is_Some (demo_reward !! agent)) /\
  exists sum',
    add_rewards Z.add demo_sums demo_reward = inr sum' /\
    add_rewards_spec Z.add demo_sums demo_reward sum'.
Proof.
  assert (forall agent, is_Some (demo_sums !! agent) ->
                        is_Some (demo_reward !! agent)) as Hall.
  { intros agent. rewrite <- !elem_of_dom. unfold demo_sums, demo_reward.
    rewrite !dom_insert_L. set_solver. }
  split; [exact Hall|].
  exact (add_rewards_keeps_agents Z.add demo_sums demo_reward Hall).
Defined.

Example demo_sums_updated :
  add_rewards Z.add demo_sums demo_reward
    = inr {["adversary_0" := (-2)%Z; "agent_0" := 4%Z]}.
Proof. vm_compute. reflexivity. Qed.

(** The good agent has left the environment: its reward is missing. *)
Definition demo_reward_short : gmap string Z :=
  {["adversary_0" := (-1)%Z]}.

Lemma add_rewards_missing_agent_witness :
  exists agent',
    is_Some (demo_sums !! agent') /\ demo_reward_short !! agent' = None /\
    add_rewards Z.add demo_sums demo_reward_short = inl (KeyError agent').
Proof.
  apply (add_rewards_missing_agent Z.add demo_sums demo_reward_short
           "agent_0").
  - exists 2%Z. vm_compute. reflexivity.
  - vm_compute. reflexivity.
Defined.

(** Two episodes of two steps each: four frames, saved in one call. *)
Definition demo_main : outcome nat event (option unit) :=
  main 0%Z Z.add demo_library 10 "params.pkl" "simple_adversary_v3" 2 0.

Lemma main_saves_every_frame_witness : main_frames_spec (trace demo_main).
Proof.
  apply (main_saves_every_frame 0%Z Z.add demo_library).
  vm_compute. reflexivity.
Defined.

Example demo_main_saved :
  result demo_main = inr (Some ()) /\
  saved (trace demo_main) = [[1; 2; 1; 2]].
Proof. split; vm_compute; reflexivity. Qed.

(** Without episodes the same script stops at [frame_list[0]]. *)
Example demo_main_no_episodes :
  let o := main 0%Z Z.add demo_library 10 "params.pkl" "simple_adversary_v3"
             0 0 in
  result o = inl IndexError /\ saved (trace o) = [] /\
  last (trace o) = Some (EvClose "env" (inr ())).
Proof. repeat split; vm_compute; reflexivity. Qed.
End MADDPG.

(* ===================================================================== *)
(** * The claims that span several scripts *)

(** C4.  For every episode of the PPO driver loop that is left through
    [break], the episode reward that is appended to [episode_rewards] and
    printed is the sum of the rewards returned by the [env.step] calls of
    the episode, added to 0. in step order; and for every episode of the
    MADDPG demo loop that ends, the dictionary printed holds, for each
    agent, the sum of that agent's rewards returned by the [env.step]
    calls of the episode. *)
Theorem episode_reward_is_sum_of_step_rewards :
  (forall (W obs act num info obj : Type) (num_zero : num)
          (num_add : num -> num -> num)
          (L : @PPO.library W obs act num info obj)
          fuel env agent episode_rewards episode_idx w episode_rewards',
      result (PPO.episode num_zero num_add L fuel env agent episode_rewards
                episode_idx w) = inr (Some episode_rewards') ->
      PPO.ppo_reward_spec num_zero num_add episode_idx episode_rewards
        (trace (PPO.episode num_zero num_add L fuel env agent
                  episode_rewards episode_idx w))
        episode_rewards') /\
  (forall (W obs act num info frame obj : Type) (num_zero : num)
          (num_add : num -> num -> num)
          (L : @MADDPG.library W obs act num info frame obj)
          fuel env maddpg frame_list episode_idx w frames',
      result (MADDPG.episode num_zero num_add L fuel env maddpg frame_list
                episode_idx w) = inr (Some frames') ->
      MADDPG.maddpg_reward_spec num_zero num_add episode_idx
        (trace (MADDPG.episode num_zero num_add L fuel env maddpg
                  frame_list episode_idx w))).
Proof.
  split; intros.
  - by eapply PPO.ppo_episode_reward_is_sum.
  - by eapply MADDPG.maddpg_episode_reward_is_sum.
Qed.

Lemma episode_reward_is_sum_of_step_rewards_witness :
  (result PPO.demo_episode = inr (Some [(-3)%Z]) /\
   PPO.ppo_reward_spec 0%Z Z.add 0 [] (trace PPO.demo_episode) [(-3)%Z]) /\
  (result MADDPG.demo_episode = inr (Some [1; 2]) /\
   MADDPG.maddpg_reward_spec 0%Z Z.add 0 (trace MADDPG.demo_episode)).
Proof.
  destruct episode_reward_is_sum_of_step_rewards as [Hppo Hmaddpg].
  split; (split; [vm_compute; reflexivity|]).
  - apply (Hppo nat nat nat Z unit string 0%Z Z.add PPO.demo_library
             10 "env" "agent" [] 0 0 [(-3)%Z]).
    vm_compute. reflexivity.
  - apply (Hmaddpg nat nat nat Z unit nat string 0%Z Z.add
             MADDPG.demo_library 10 "env" "maddpg" [] 0 0 [1; 2]).
    vm_compute. reflexivity.
Defined.

(** A run in which no failure of a library call is intercepted: a call
    that failed is the only one that did, and the exception it raised is
    the outcome of the run. *)
Definition failures_propagate {W Ev A} (ev_exn : Ev -> option exn)
    (o : outcome W Ev A) : Prop :=
  forall tr1 ev tr2 e,
    trace o = tr1 ++ ev :: tr2 -> ev_exn ev = Some e ->
    result o = inl e /\ clean ev_exn tr1 /\ clean ev_exn tr2.


(** A run in which errors are left as they were raised: no failure of a
    library call is intercepted or replaced, and an exception that no
    library call raised is one of [P]. *)
Definition errors_as_raised {W Ev A} (ev_exn : Ev -> option exn)
    (P : exn -> Prop) (o : outcome W Ev A) : Prop :=
  failures_propagate ev_exn o /\
  (forall e, result o = inl e -> clean ev_exn (trace o) -> P e).


(** What [errors_as_raised] excludes: a script that raised an error of
    a class of its own, and a script that caught the failure of a
    library call and went on or raised something else. *)
Lemma repository_error_excluded {W Ev} (ev_exn : Ev -> option exn) (w : W)
    cls arg :
  cls ∉ builtin_classes ->
  ~ errors_as_raised ev_exn builtin (@raise W Ev unit (Raise cls arg) w).
Proof.
  intros Hcls [_ H]. apply Hcls. by apply (H (Raise cls arg)); [|constructor].
Qed.

Lemma handled_failure_excluded {W Ev A} (ev_exn : Ev -> option exn)
    (f : W -> W * res A) (log : res A -> Ev) (handler : exn -> prog W Ev A)
    w e :
  records ev_exn log -> (f w).2 = inl e ->
  result (handler e (f w).1) <> inl e ->
  ~ failures_propagate ev_exn (try_except (ext f log) handler w).
Proof.
  intros Hlog Hf Hh Hp. unfold try_except, ext in Hp.
  destruct (f w) as [w' r]. simpl in Hf, Hh. subst r. simpl in Hp.
  destruct (Hp [] (log (inl e)) (trace (handler e w')) e) as [Hr _];
    [done|by rewrite Hlog|]. done.
Qed.

